(** * compas artists: a shallow embedding of the drawing glue code

    The development follows four source files:
    - [compas_blender/utilities/objects.py]   (module [objects])
    - [compas_blender/artists/networkartist.py] (module [networkartist])
    - [compas_rhino/artists/frameartist.py]   (module [frameartist])
    - [compas_ghpython/artists/meshartist.py] (module [meshartist])

    Python values, exceptions and dictionaries are modelled in module [Py];
    the host application (Blender's [bpy.data]) in module [bpy].  Functions
    of the host-drawing layers and of the geometry library are not part of
    these files: they are taken as parameters (type classes), and a small
    reference host is given at the end of the definitions to run the code
    on concrete inputs. *)

From stdpp Require Import gmap strings list fin_maps pretty.
From Stdlib Require Import QArith Ascii.

#[local] Open Scope string_scope.
#[local] Open Scope Z_scope.

(* ===================================================================== *)
(** ** Python values, exceptions, dictionaries *)
(* ===================================================================== *)

Module Py.

(** Values stored in settings dictionaries and passed as loosely typed
    arguments: flags, numbers, strings (hex colours) and tuples of
    integers (rgb). *)
Inductive Value : Type :=
| VBool (b : bool)
| VInt (z : Z)
| VStr (s : string)
| VTuple (zs : list Z).

(** Python truth value testing. *)
Definition truthy (v : Value) : bool :=
  match v with
  | VBool b => b
  | VInt z => negb (z =? 0)%Z
  | VStr s => negb (String.eqb s "")
  | VTuple zs => match zs with [] => false | _ => true end
  end.

Definition rgb (r g b : Z) : Value := VTuple [r; g; b].

(** The exceptions the modelled code can raise. *)
Inductive Error : Type :=
| KeyError (key : string)
| IndexError
| AttributeError (attr : string)
| NotImplementedError
| ReferenceError.

(** The outcome of a call: its result, or the exception that ended it.
    What a call has changed before it raises is not kept. *)
Inductive Result (A : Type) : Type :=
| Ok (a : A)
| Err (e : Error).
Arguments Ok {A} a.
Arguments Err {A} e.

#[global] Instance result_ret : MRet Result := fun _ a => Ok a.
#[global] Instance result_bind : MBind Result := fun _ _ f m =>
  match m with
  | Ok a => f a
  | Err e => Err e
  end.

Definition raises {A} (m : Result A) (e : Error) : Prop := m = Err e.

Definition is_ok {A} (m : Result A) : bool :=
  match m with Ok _ => true | Err _ => false end.

(** [d[k]] on a dictionary with string keys. *)
Definition getitem {V} (d : gmap string V) (k : string) : Result V :=
  match d !! k with
  | Some v => Ok v
  | None => Err (KeyError k)
  end.

(** A lookup by key in a dictionary of the geometry library: the value
    when the key is there, a [KeyError] when it is not. *)
Definition lookup_key {A} (found : option A) (key : string) : Result A :=
  match found with
  | Some x => Ok x
  | None => Err (KeyError key)
  end.

(** [l[i]] on a list. *)
Definition index {A} (l : list A) (i : nat) : Result A :=
  match l !! i with
  | Some x => Ok x
  | None => Err IndexError
  end.

(** [dict(pairs)]: pairs are inserted from left to right, so a later pair
    overwrites an earlier one with the same key. *)
Definition dict {K V} `{Countable K} (pairs : list (K * V)) : gmap K V :=
  foldl (fun d kv => <[kv.1 := kv.2]> d) ∅ pairs.

(** [d.update(s)]: the entries of [s] are written over those of [d]. *)
Definition update {K V} `{Countable K} (d s : gmap K V) : gmap K V := s ∪ d.

(** [list(d.keys())]. *)
Definition keys {K V} `{Countable K} (d : gmap K V) : list K :=
  (map_to_list d).*1.

(** [sel or alt] for an optional list argument: [None] and the empty
    list are both falsy. *)
Definition list_or {A} (sel : option (list A)) (alt : list A) : list A :=
  match sel with
  | Some (x :: l) => x :: l
  | Some [] | None => alt
  end.

(** [str(z)] for an integer. *)
Definition str (z : Z) : string := pretty z.

(** An argument that is [None], a dictionary, or any other value. *)
Inductive Arg (D : Type) : Type :=
| ArgNone
| ArgDict (d : D)
| ArgValue (v : Value).
Arguments ArgNone {D}.
Arguments ArgDict {D} d.
Arguments ArgValue {D} v.

(** Insertion-ordered dictionaries, for code that iterates over
    [d.items()]: a list of pairs with pairwise distinct keys. *)
Section odict.
Context {K V : Type} `{EqDecision K}.

Fixpoint oset (k : K) (v : V) (d : list (K * V)) : list (K * V) :=
  match d with
  | [] => [(k, v)]
  | (k', v') :: d' =>
      if decide (k' = k) then (k, v) :: d' else (k', v') :: oset k v d'
  end.

Fixpoint oget (d : list (K * V)) (k : K) : option V :=
  match d with
  | [] => None
  | (k', v') :: d' => if decide (k' = k) then Some v' else oget d' k
  end.

(** [{k: f(k) for k in ks}] *)
Definition ocomprehension (f : K → V) (ks : list K) : list (K * V) :=
  foldl (fun d k => oset k (f k) d) [] ks.
End odict.

End Py.

Import Py.

(* ===================================================================== *)
(** ** color_to_colordict *)
(* ===================================================================== *)

Module colors.

(** Modelled from the spec: [compas.utilities.color_to_colordict], the
    colour helper every artist calls, lives outside the four files.  The
    spec describes it as a "default-with-overrides lookup": every key of
    [keys] gets a colour; a single colour applies to all keys, a
    dictionary overrides the default for the keys it mentions, and no
    colour at all ([None]) leaves the default everywhere. *)
Definition color_to_colordict {K} `{Countable K}
    (color : Arg (gmap K Value)) (keys : list K) (default : Value)
  : gmap K Value :=
  dict (map (fun key =>
               (key,
                match color with
                | ArgNone => default
                | ArgValue c => c
                | ArgDict overrides =>
                    match overrides !! key with
                    | Some c => c
                    | None => default
                    end
                end)) keys).

(** [colordict[key]] *)
Definition colordict_getitem {K} `{Countable K}
    (cd : gmap K Value) (key : K) (show : K → string) : Result Value :=
  match cd !! key with
  | Some c => Ok c
  | None => Err (KeyError (show key))
  end.

End colors.

(* ===================================================================== *)
(** ** The host: Blender's [bpy.data] *)
(* ===================================================================== *)

Module bpy.

(** A scene object ([bpy.types.Object]).  [ob_id] is the identity of the
    object, [ob_type] its [type] string, [ob_data] its data block: an entry
    of [bpy.data.meshes] for an object of type "MESH", an entry of
    [bpy.data.curves] for one of type "CURVE" (for other types the block
    lives in a collection this code never touches), nothing for an
    empty. *)
Record Object : Type := {
  ob_id : N;
  ob_name : string;
  ob_type : string;
  ob_data : option N
}.

#[global] Instance Object_eq_dec : EqDecision Object.
Proof. solve_decision. Defined.

#[global] Instance Object_countable : Countable Object.
Proof.
  refine (inj_countable'
            (fun o => (ob_id o, ob_name o, ob_type o, ob_data o))
            (fun t => {| ob_id := t.1.1.1; ob_name := t.1.1.2;
                         ob_type := t.1.2; ob_data := t.2 |}) _).
  by intros [].
Defined.

Definition Collection : Type := string.

(** [bpy.data]: the collections of objects, mesh and curve data blocks,
    and named collections of the open file. *)
Record data : Type := {
  objects : list Object;
  meshes : list N;
  curves : list N;
  collections : list Collection
}.

(** The mesh block an object uses, and the curve block it uses. *)
Definition mesh_of (o : Object) : option N :=
  if decide (ob_type o = "MESH") then ob_data o else None.

Definition curve_of (o : Object) : option N :=
  if decide (ob_type o = "CURVE") then ob_data o else None.

(** [bpy.data.objects.remove(obj)] *)
Definition objects_remove (obj : Object) (d : data) : data :=
  {| objects := filter (fun o => o ≠ obj) (objects d);
     meshes := meshes d; curves := curves d;
     collections := collections d |}.

(** [bpy.data.meshes.remove(mesh)]: the block goes, and with it every
    object that still uses it. *)
Definition meshes_remove (mesh : N) (d : data) : data :=
  {| objects := filter (fun o => mesh_of o ≠ Some mesh) (objects d);
     meshes := filter (fun m => m ≠ mesh) (meshes d);
     curves := curves d;
     collections := collections d |}.

(** [bpy.data.curves.remove(curve)]: likewise. *)
Definition curves_remove (curve : N) (d : data) : data :=
  {| objects := filter (fun o => curve_of o ≠ Some curve) (objects d);
     meshes := meshes d;
     curves := filter (fun c => c ≠ curve) (curves d);
     collections := collections d |}.

(** Reading an attribute of a handle ([obj.type], [obj.data]): the host
    raises [ReferenceError] once the object has been removed. *)
Definition alive (obj : Object) (d : data) : Result unit :=
  if decide (obj ∈ objects d) then Ok () else Err ReferenceError.

(** [bpy.data.objects[name]]: the object of that name; a [KeyError]
    when there is none. *)
Definition objects_getitem (name : string) (d : data) : Result Object :=
  match List.find (fun o => bool_decide (ob_name o = name)) (objects d) with
  | Some o => Ok o
  | None => Err (KeyError name)
  end.

End bpy.

(* ===================================================================== *)
(** ** compas_blender/utilities/objects.py *)
(* ===================================================================== *)

Module objects.
Import bpy.

Definition delete_all_objects (d : data) : data :=
  let d1 := foldl (fun d obj => objects_remove obj d) d (objects d) in
  let d2 := foldl (fun d mesh => meshes_remove mesh d) d1 (meshes d1) in
  foldl (fun d curve => curves_remove curve d) d2 (curves d2).

Definition delete_object (obj : Object) (d : data) : Result data :=
  _ ← alive obj d;
  if decide (ob_type obj = "MESH") then
    let mesh := ob_data obj in
    let d := objects_remove obj d in
    match mesh with
    | Some mesh => Ok (meshes_remove mesh d)
    | None => Ok d
    end
  else if decide (ob_type obj = "CURVE") then
    let curve := ob_data obj in
    let d := objects_remove obj d in
    match curve with
    | Some curve => Ok (curves_remove curve d)
    | None => Ok d
    end
  else Ok (objects_remove obj d).

Fixpoint delete_objects (objs : list Object) (d : data) : Result data :=
  match objs with
  | [] => Ok d
  | obj :: objs' => d ← delete_object obj d; delete_objects objs' d
  end.

Definition get_object_by_name (name : string) (d : data) : Result Object :=
  objects_getitem name d.

Fixpoint get_objects_by_names (names : list string) (d : data)
  : Result (list Object) :=
  match names with
  | [] => Ok []
  | name :: names' =>
      obj ← objects_getitem name d;
      objs ← get_objects_by_names names' d;
      Ok (obj :: objs)
  end.

Definition delete_object_by_name (name : string) (d : data) : Result data :=
  obj ← get_object_by_name name d;
  delete_object obj d.

Definition delete_objects_by_names (names : list string) (d : data)
  : Result data :=
  objs ← get_objects_by_names names d;
  delete_objects objs d.

End objects.


(* ===================================================================== *)
(** ** compas_blender/artists/networkartist.py *)
(* ===================================================================== *)

Module networkartist.
Import bpy objects colors.

Section artist.
(** Coordinates are produced by the geometry library and only passed on. *)
Context {XYZ : Type}.

(** The network, seen through the methods the artist calls on it:
    [name], [nodes()], [edges()] and [node_coordinates(node)].  The
    coordinates are a lookup in the network's node dictionary: a key that
    is no node of the network has none, and the method raises [KeyError]
    for it. *)
Record Network : Type := {
  net_name : string;
  net_nodes : list Z;
  net_edges : list (Z * Z);
  node_xyz : Z → option XYZ
}.

Definition node_coordinates (net : Network) (node : Z) : Result XYZ :=
  lookup_key (node_xyz net node) (str node).

(** The descriptors handed to the host-drawing functions. *)
Record Point : Type := {
  pt_pos : XYZ;
  pt_name : string;
  pt_color : Value;
  pt_radius : Q
}.

Record Line : Type := {
  ln_start : XYZ;
  ln_end : XYZ;
  ln_color : Value;
  ln_name : string;
  ln_width : Q
}.

(** The functions of [compas_blender] the artist calls besides
    [delete_objects]; they act on the host's data and are parameters. *)
Class BlenderDrawing : Type := {
  draw_points : list Point → Collection → data → list Object * data;
  draw_lines : list Line → Collection → data → list Object * data;
  create_collections_from_path : string → data → list Collection * data
}.

Context `{BlenderDrawing}.

Record NetworkArtist : Type := {
  _nodecollection : option Collection;
  _edgecollection : option Collection;
  _pathcollection : option Collection;
  _object_node : gmap Object Z;
  _object_edge : gmap Object (Z * Z);
  _object_path : gmap Object (list Z);
  network : Network;
  settings : gmap string Value;
  (** [self.objects], an attribute of the base class *)
  base_objects : list Object
}.

Definition set_nodecollection (c : option Collection) (self : NetworkArtist)
  : NetworkArtist :=
  {| _nodecollection := c;
     _edgecollection := _edgecollection self;
     _pathcollection := _pathcollection self;
     _object_node := _object_node self;
     _object_edge := _object_edge self;
     _object_path := _object_path self;
     network := network self;
     settings := settings self;
     base_objects := base_objects self |}.

Definition set_edgecollection (c : option Collection) (self : NetworkArtist)
  : NetworkArtist :=
  {| _nodecollection := _nodecollection self;
     _edgecollection := c;
     _pathcollection := _pathcollection self;
     _object_node := _object_node self;
     _object_edge := _object_edge self;
     _object_path := _object_path self;
     network := network self;
     settings := settings self;
     base_objects := base_objects self |}.

Definition set_pathcollection (c : option Collection) (self : NetworkArtist)
  : NetworkArtist :=
  {| _nodecollection := _nodecollection self;
     _edgecollection := _edgecollection self;
     _pathcollection := c;
     _object_node := _object_node self;
     _object_edge := _object_edge self;
     _object_path := _object_path self;
     network := network self;
     settings := settings self;
     base_objects := base_objects self |}.

Definition set_settings (s : gmap string Value) (self : NetworkArtist)
  : NetworkArtist :=
  {| _nodecollection := _nodecollection self;
     _edgecollection := _edgecollection self;
     _pathcollection := _pathcollection self;
     _object_node := _object_node self;
     _object_edge := _object_edge self;
     _object_path := _object_path self;
     network := network self;
     settings := s;
     base_objects := base_objects self |}.

(** The initial values of [self.settings]. *)
Definition default_settings : gmap string Value :=
  <["color.nodes" := rgb 255 255 255]>
  (<["color.edges" := rgb 0 0 0]>
  (<["show.nodes" := VBool true]>
  (<["show.edges" := VBool true]>
  (<["show.nodelabels" := VBool false]>
  (<["show.edgelabels" := VBool false]> ∅))))).

(** [NetworkArtist(network, settings)]; [base] is what the base class
    initialiser leaves in [self.objects]. *)
Definition __init__ (network : Network) (settings : option (gmap string Value))
    (base : list Object) : NetworkArtist :=
  {| _nodecollection := None;
     _edgecollection := None;
     _pathcollection := None;
     _object_node := ∅;
     _object_edge := ∅;
     _object_path := ∅;
     network := network;
     settings :=
       match settings with
       | Some s => if decide (s = ∅) then default_settings
                   else update default_settings s
       | None => default_settings
       end;
     base_objects := base |}.

(** The collection properties create the host collection on first use. *)
Definition nodecollection (self : NetworkArtist) (d : data)
  : Result (Collection * NetworkArtist * data) :=
  match _nodecollection self with
  | Some c => Ok (c, self, d)
  | None =>
      let '(cs, d) := create_collections_from_path "Network::Nodes" d in
      c ← index cs 1;
      Ok (c, set_nodecollection (Some c) self, d)
  end.

Definition edgecollection (self : NetworkArtist) (d : data)
  : Result (Collection * NetworkArtist * data) :=
  match _edgecollection self with
  | Some c => Ok (c, self, d)
  | None =>
      let '(cs, d) := create_collections_from_path "Network::Edges" d in
      c ← index cs 1;
      Ok (c, set_edgecollection (Some c) self, d)
  end.

Definition pathcollection (self : NetworkArtist) (d : data)
  : Result (Collection * NetworkArtist * data) :=
  match _pathcollection self with
  | Some c => Ok (c, self, d)
  | None =>
      let '(cs, d) := create_collections_from_path "Network::Paths" d in
      c ← index cs 1;
      Ok (c, set_pathcollection (Some c) self, d)
  end.

(** The tracking-dictionary properties: the getter swaps an empty
    dictionary for a new empty one, the setter stores [dict(values)]. *)
Definition object_node (self : NetworkArtist) : gmap Object Z :=
  if decide (_object_node self = ∅) then ∅ else _object_node self.

Definition object_edge (self : NetworkArtist) : gmap Object (Z * Z) :=
  if decide (_object_edge self = ∅) then ∅ else _object_edge self.

Definition object_path (self : NetworkArtist) : gmap Object (list Z) :=
  if decide (_object_path self = ∅) then ∅ else _object_path self.

Definition set_object_node (values : list (Object * Z)) (self : NetworkArtist)
  : NetworkArtist :=
  {| _nodecollection := _nodecollection self;
     _edgecollection := _edgecollection self;
     _pathcollection := _pathcollection self;
     _object_node := dict values;
     _object_edge := _object_edge self;
     _object_path := _object_path self;
     network := network self;
     settings := settings self;
     base_objects := base_objects self |}.

Definition set_object_edge (values : list (Object * (Z * Z)))
    (self : NetworkArtist) : NetworkArtist :=
  {| _nodecollection := _nodecollection self;
     _edgecollection := _edgecollection self;
     _pathcollection := _pathcollection self;
     _object_node := _object_node self;
     _object_edge := dict values;
     _object_path := _object_path self;
     network := network self;
     settings := settings self;
     base_objects := base_objects self |}.

Definition set_object_path (values : list (Object * list Z))
    (self : NetworkArtist) : NetworkArtist :=
  {| _nodecollection := _nodecollection self;
     _edgecollection := _edgecollection self;
     _pathcollection := _pathcollection self;
     _object_node := _object_node self;
     _object_edge := _object_edge self;
     _object_path := dict values;
     network := network self;
     settings := settings self;
     base_objects := base_objects self |}.

(** The objects [clear] hands to [delete_objects]. *)
Definition tracked (self : NetworkArtist) : list Object :=
  keys (object_node self) ++ keys (object_edge self) ++ keys (object_path self).

Definition clear (self : NetworkArtist) (d : data)
  : Result (NetworkArtist * data) :=
  let objects := tracked self in
  d ← delete_objects objects d;
  Ok ({| _nodecollection := _nodecollection self;
      _edgecollection := _edgecollection self;
      _pathcollection := _pathcollection self;
      _object_node := ∅;
      _object_edge := ∅;
      _object_path := ∅;
      network := network self;
      settings := settings self;
      base_objects := base_objects self |}, d).

Definition node_name (net : Network) (node : Z) : string :=
  net_name net +:+ ".node." +:+ str node.

Definition edge_name (net : Network) (edge : Z * Z) : string :=
  net_name net +:+ ".edge." +:+ str edge.1 +:+ "-" +:+ str edge.2.

Definition show_edge (edge : Z * Z) : string :=
  "(" +:+ str edge.1 +:+ ", " +:+ str edge.2 +:+ ")".

Definition draw_nodes (nodes : option (list Z)) (color : Arg (gmap Z Value))
    (self : NetworkArtist) (d : data)
  : Result (list Object * NetworkArtist * data) :=
  let nodes := list_or nodes (net_nodes (network self)) in
  default ← getitem (settings self) "color.nodes";
  let node_color := color_to_colordict color nodes default in
  points ← mapM (fun node =>
                   pos ← node_coordinates (network self) node;
                   c ← colordict_getitem node_color node str;
                   Ok {| pt_pos := pos;
                         pt_name := node_name (network self) node;
                         pt_color := c;
                         pt_radius := 0.05 |}) nodes;
  '(collection, self, d) ← nodecollection self d;
  let '(objects, d) := draw_points points collection d in
  let self := set_object_node (zip objects nodes) self in
  Ok (objects, self, d).

Definition draw_edges (edges : option (list (Z * Z)))
    (color : Arg (gmap (Z * Z) Value)) (self : NetworkArtist) (d : data)
  : Result (list Object * NetworkArtist * data) :=
  let edges := list_or edges (net_edges (network self)) in
  default ← getitem (settings self) "color.edges";
  let edge_color := color_to_colordict color edges default in
  lines ← mapM (fun edge =>
                  start ← node_coordinates (network self) edge.1;
                  end_ ← node_coordinates (network self) edge.2;
                  c ← colordict_getitem edge_color edge show_edge;
                  Ok {| ln_start := start;
                        ln_end := end_;
                        ln_color := c;
                        ln_name := edge_name (network self) edge;
                        ln_width := 0.02 |}) edges;
  '(collection, self, d) ← edgecollection self d;
  let '(objects, d) := draw_lines lines collection d in
  let self := set_object_edge (zip objects edges) self in
  Ok (objects, self, d).

Definition draw (settings' : option (gmap string Value))
    (self : NetworkArtist) (d : data)
  : Result (list Object * NetworkArtist * data) :=
  '(self, d) ← clear self d;
  let settings' :=
    match settings' with
    | Some s => if decide (s = ∅) then ∅ else s
    | None => ∅
    end in
  let self := set_settings (update (settings self) settings') self in
  show_nodes ← getitem (settings self) "show.nodes";
  '(self, d) ← (if truthy show_nodes
                then '(_, self, d) ← draw_nodes None ArgNone self d;
                     Ok (self, d)
                else Ok (self, d));
  show_edges ← getitem (settings self) "show.edges";
  '(self, d) ← (if truthy show_edges
                then '(_, self, d) ← draw_edges None ArgNone self d;
                     Ok (self, d)
                else Ok (self, d));
  Ok (base_objects self, self, d).

(** The public operations, for sequences of calls on one artist. *)
Inductive Op : Type :=
| OpDraw (settings' : option (gmap string Value))
| OpDrawNodes (nodes : option (list Z)) (color : Arg (gmap Z Value))
| OpDrawEdges (edges : option (list (Z * Z))) (color : Arg (gmap (Z * Z) Value))
| OpClear.

Definition run_op (op : Op) (self : NetworkArtist) (d : data)
  : Result (NetworkArtist * data) :=
  match op with
  | OpDraw s => '(_, self, d) ← draw s self d; Ok (self, d)
  | OpDrawNodes nodes color =>
      '(_, self, d) ← draw_nodes nodes color self d; Ok (self, d)
  | OpDrawEdges edges color =>
      '(_, self, d) ← draw_edges edges color self d; Ok (self, d)
  | OpClear => clear self d
  end.

Fixpoint run_ops (ops : list Op) (self : NetworkArtist) (d : data)
  : Result (NetworkArtist * data) :=
  match ops with
  | [] => Ok (self, d)
  | op :: ops' => '(self, d) ← run_op op self d; run_ops ops' self d
  end.

End artist.

Arguments Network : clear implicits.
Arguments Point : clear implicits.
Arguments Line : clear implicits.
Arguments BlenderDrawing : clear implicits.
Arguments NetworkArtist : clear implicits.

End networkartist.


(* ===================================================================== *)
(** ** compas_rhino/artists/frameartist.py *)
(* ===================================================================== *)

Module frameartist.

Section artist.
(** Points, vectors and numbers belong to the geometry library; GUIDs,
    layers and the document belong to the host. *)
Context {Pnt Vec Scalar XYZ GUID Document : Type}.

(** Modelled from the spec: the operations of [compas.geometry] used by
    [draw] ("origin plus the frame's x, y or z axis scaled by the artist's
    scale"): [point + vector], [vector.scaled(n)] and [list(point)]. *)
Class Geometry : Type := {
  point_add : Pnt → Vec → Pnt;
  scaled : Vec → Scalar → Vec;
  to_list : Pnt → XYZ
}.

Record Frame : Type := {
  point : Pnt;
  xaxis : Vec;
  yaxis : Vec;
  zaxis : Vec
}.

Record Point : Type := {
  pt_pos : XYZ;
  pt_color : Value
}.

Record Line : Type := {
  ln_start : XYZ;
  ln_end : XYZ;
  ln_color : Value;
  ln_arrow : string
}.

(** [compas_rhino.draw_points(points, layer, clear, redraw)] and
    [compas_rhino.draw_lines(lines, layer, clear, redraw)]. *)
Class RhinoDrawing : Type := {
  draw_points :
    list Point → option string → bool → bool → Document → list GUID * Document;
  draw_lines :
    list Line → option string → bool → bool → Document → list GUID * Document
}.

Context `{Geometry} `{RhinoDrawing}.

Record FrameArtist : Type := {
  primitive : Frame;
  layer : option string;
  name : option string;
  guids : list GUID;
  scale : Scalar;
  color_origin : Value;
  color_xaxis : Value;
  color_yaxis : Value;
  color_zaxis : Value
}.

(** [FrameArtist(frame, layer, name, scale)]; the base class keeps the
    frame, the layer and the name, and starts without GUIDs. *)
Definition __init__ (frame : Frame) (layer name : option string)
    (scale : Scalar) : FrameArtist :=
  {| primitive := frame; layer := layer; name := name; guids := [];
     scale := scale;
     color_origin := rgb 0 0 0;
     color_xaxis := rgb 255 0 0;
     color_yaxis := rgb 0 255 0;
     color_zaxis := rgb 0 0 255 |}.

Definition set_guids (gs : list GUID) (self : FrameArtist) : FrameArtist :=
  {| primitive := primitive self; layer := layer self; name := name self;
     guids := gs;
     scale := scale self;
     color_origin := color_origin self;
     color_xaxis := color_xaxis self;
     color_yaxis := color_yaxis self;
     color_zaxis := color_zaxis self |}.

Definition draw (self : FrameArtist) (doc : Document)
  : list GUID * FrameArtist * Document :=
  let origin := to_list (point (primitive self)) in
  let x := to_list (point_add (point (primitive self))
                              (scaled (xaxis (primitive self)) (scale self))) in
  let y := to_list (point_add (point (primitive self))
                              (scaled (yaxis (primitive self)) (scale self))) in
  let z := to_list (point_add (point (primitive self))
                              (scaled (zaxis (primitive self)) (scale self))) in
  let points := [ {| pt_pos := origin; pt_color := color_origin self |} ] in
  let lines :=
    [ {| ln_start := origin; ln_end := x; ln_color := color_xaxis self;
         ln_arrow := "end" |};
      {| ln_start := origin; ln_end := y; ln_color := color_yaxis self;
         ln_arrow := "end" |};
      {| ln_start := origin; ln_end := z; ln_color := color_zaxis self;
         ln_arrow := "end" |} ] in
  let '(gs, doc) := draw_points points (layer self) false false doc in
  let '(gs', doc) := draw_lines lines (layer self) false false doc in
  let gs := (gs ++ gs')%list in
  (gs, set_guids gs self, doc).

(** The static method [draw_collection]: its body is a single [raise]. *)
Definition draw_collection (collection : list Frame)
    (names : option (list string)) (colors : option (list Value))
    (layer : option string) (clear add_to_group : bool)
    (group_name : option string) : Result (list GUID) :=
  Err NotImplementedError.

End artist.

Arguments Geometry : clear implicits.
Arguments Frame : clear implicits.
Arguments Point : clear implicits.
Arguments Line : clear implicits.
Arguments RhinoDrawing : clear implicits.
Arguments FrameArtist : clear implicits.

End frameartist.

(* ===================================================================== *)
(** ** compas_ghpython/artists/meshartist.py *)
(* ===================================================================== *)

Module meshartist.
Import colors.

Section artist.
(** Coordinates come from the geometry library, [Geom] is the host's
    geometry ([Rhino.Geometry] points, lines, meshes, text dots). *)
Context {XYZ Geom : Type}.

(** The mesh, seen through the methods the artist calls on it.  The
    geometric accessors look their key up in the dictionaries of the mesh:
    a key that is no vertex, face or edge of the mesh has no geometry, and
    the method raises [KeyError] for it. *)
Record Mesh : Type := {
  mesh_name : string;
  vertices : list Z;
  faces : list Z;
  edges : list (Z * Z);
  vertex_xyz : Z → option XYZ;
  face_xyz : Z → option (list XYZ);
  edge_xyz : Z → Z → option (XYZ * XYZ);
  face_centre : Z → option XYZ;
  edge_middle : Z → Z → option XYZ
}.

Definition show_edge (edge : Z * Z) : string :=
  "(" +:+ str edge.1 +:+ ", " +:+ str edge.2 +:+ ")".

Definition vertex_coordinates (m : Mesh) (key : Z) : Result XYZ :=
  lookup_key (vertex_xyz m key) (str key).

Definition face_coordinates (m : Mesh) (fkey : Z) : Result (list XYZ) :=
  lookup_key (face_xyz m fkey) (str fkey).

Definition edge_coordinates (m : Mesh) (u v : Z) : Result (XYZ * XYZ) :=
  lookup_key (edge_xyz m u v) (show_edge (u, v)).

Definition face_center (m : Mesh) (fkey : Z) : Result XYZ :=
  lookup_key (face_centre m fkey) (str fkey).

Definition edge_midpoint (m : Mesh) (u v : Z) : Result XYZ :=
  lookup_key (edge_middle m u v) (show_edge (u, v)).

Record Point : Type := {
  pt_pos : XYZ;
  pt_name : string;
  pt_color : Value
}.

Record Face : Type := {
  fc_points : list XYZ;
  fc_name : string;
  fc_color : Value
}.

Record Line : Type := {
  ln_start : XYZ;
  ln_end : XYZ;
  ln_color : Value;
  ln_name : string
}.

Record Label : Type := {
  lb_pos : XYZ;
  lb_name : string;
  lb_color : Value;
  lb_text : string
}.

(** The functions of [compas_ghpython] and of [Rhino.Geometry] the artist
    calls; they build geometry and keep no state. *)
Class GhDrawing : Type := {
  draw_points_ : list Point → list Geom;
  draw_faces_ : list Face → list Geom;
  draw_lines_ : list Line → list Geom;
  draw_labels_ : list Label → list Geom;
  Mesh_new : Geom;
  Mesh_Append : Geom → Geom → Geom
}.

Context `{GhDrawing}.

Record MeshArtist : Type := {
  _mesh : Mesh;
  settings : gmap string Value
}.

Definition mesh (self : MeshArtist) : Mesh := _mesh self.

Definition default_settings : gmap string Value :=
  <["color.vertices" := rgb 255 255 255]>
  (<["color.edges" := rgb 0 0 0]>
  (<["color.faces" := rgb 210 210 210]>
  (<["show.vertices" := VBool true]>
  (<["show.edges" := VBool true]>
  (<["show.faces" := VBool true]>
  (<["show.vertexlabels" := VBool false]>
  (<["show.facelabels" := VBool false]>
  (<["show.edgelabels" := VBool false]>
  (<["join_faces" := VBool true]> ∅))))))))).

Definition __init__ (mesh : Mesh) : MeshArtist :=
  {| _mesh := mesh; settings := default_settings |}.

(* components *)

Definition draw_vertices (keys : option (list Z)) (color : Arg (gmap Z Value))
    (self : MeshArtist) : Result (list Geom) :=
  let vertices := list_or keys (vertices (mesh self)) in
  default ← getitem (settings self) "color.vertices";
  let colordict := color_to_colordict color vertices default in
  points ← mapM (fun vertex =>
                   pos ← vertex_coordinates (mesh self) vertex;
                   c ← colordict_getitem colordict vertex str;
                   Ok {| pt_pos := pos;
                         pt_name := mesh_name (mesh self) +:+ ".vertex."
                                    +:+ str vertex;
                         pt_color := c |}) vertices;
  Ok (draw_points_ points).

Definition draw_faces (keys : option (list Z)) (color : Arg (gmap Z Value))
    (join_faces : bool) (self : MeshArtist) : Result (list Geom) :=
  let keys := list_or keys (faces (mesh self)) in
  default ← getitem (settings self) "color.faces";
  let colordict := color_to_colordict color keys default in
  faces ← mapM (fun fkey =>
                  points ← face_coordinates (mesh self) fkey;
                  c ← colordict_getitem colordict fkey str;
                  Ok {| fc_points := points;
                        fc_name := mesh_name (mesh self) +:+ ".face."
                                   +:+ str fkey;
                        fc_color := c |}) keys;
  let meshes := draw_faces_ faces in
  if negb join_faces then Ok meshes
  else
    let joined_mesh := foldl Mesh_Append Mesh_new meshes in
    Ok [joined_mesh].

Definition draw_edges (keys : option (list (Z * Z)))
    (color : Arg (gmap (Z * Z) Value)) (self : MeshArtist)
  : Result (list Geom) :=
  let edges := list_or keys (edges (mesh self)) in
  default ← getitem (settings self) "color.edges";
  let colordict := color_to_colordict color edges default in
  lines ← mapM (fun edge =>
                  '(start, end_) ←
                    edge_coordinates (mesh self) edge.1 edge.2;
                  c ← colordict_getitem colordict edge show_edge;
                  Ok {| ln_start := start;
                        ln_end := end_;
                        ln_color := c;
                        ln_name := mesh_name (mesh self) +:+ ".edge."
                                   +:+ str edge.1 +:+ "-" +:+ str edge.2 |})
               edges;
  Ok (draw_lines_ lines).

(* labels *)

(** [textdict[key]] *)
Definition textdict_getitem {K} `{EqDecision K} (textdict : list (K * string))
    (key : K) (show : K → string) : Result string :=
  match oget textdict key with
  | Some t => Ok t
  | None => Err (KeyError (show key))
  end.

Definition draw_vertexlabels (text : Arg (list (Z * string)))
    (color : Arg (gmap Z Value)) (self : MeshArtist) : Result (list Geom) :=
  textdict ← match text with
             | ArgNone => Ok (ocomprehension str (vertices (mesh self)))
             | ArgDict text => Ok text
             | ArgValue _ => Err NotImplementedError
             end;
  default ← getitem (settings self) "color.vertices";
  let colordict := color_to_colordict color textdict.*1 default in
  labels ← mapM (fun '(key, _) =>
                   pos ← vertex_coordinates (mesh self) key;
                   c ← colordict_getitem colordict key str;
                   t ← textdict_getitem textdict key str;
                   Ok {| lb_pos := pos;
                         lb_name := mesh_name (mesh self) +:+ ".vertexlabel."
                                    +:+ str key;
                         lb_color := c;
                         lb_text := t |}) textdict;
  Ok (draw_labels_ labels).

Definition draw_facelabels (text : Arg (list (Z * string)))
    (color : Arg (gmap Z Value)) (self : MeshArtist) : Result (list Geom) :=
  textdict ← match text with
             | ArgNone => Ok (ocomprehension str (faces (mesh self)))
             | ArgDict text => Ok text
             | ArgValue _ => Err NotImplementedError
             end;
  default ← getitem (settings self) "color.faces";
  let colordict := color_to_colordict color textdict.*1 default in
  labels ← mapM (fun '(key, _) =>
                   pos ← face_center (mesh self) key;
                   c ← colordict_getitem colordict key str;
                   t ← textdict_getitem textdict key str;
                   Ok {| lb_pos := pos;
                         lb_name := mesh_name (mesh self) +:+ ".facelabel."
                                    +:+ str key;
                         lb_color := c;
                         lb_text := t |}) textdict;
  Ok (draw_labels_ labels).

Definition edge_text (edge : Z * Z) : string :=
  str edge.1 +:+ "-" +:+ str edge.2.

Definition draw_edgelabels (text : Arg (list (Z * Z * string)))
    (color : Arg (gmap (Z * Z) Value)) (self : MeshArtist)
  : Result (list Geom) :=
  textdict ← match text with
             | ArgNone => Ok (ocomprehension edge_text (edges (mesh self)))
             | ArgDict text => Ok text
             | ArgValue _ => Err NotImplementedError
             end;
  default ← getitem (settings self) "color.edges";
  let colordict := color_to_colordict color textdict.*1 default in
  labels ← mapM (fun '(uv, _) =>
                   pos ← edge_midpoint (mesh self) uv.1 uv.2;
                   c ← colordict_getitem colordict uv show_edge;
                   t ← textdict_getitem textdict uv show_edge;
                   Ok {| lb_pos := pos;
                         lb_name := mesh_name (mesh self) +:+ ".edgelabel."
                                    +:+ str uv.1 +:+ "-" +:+ str uv.2;
                         lb_color := c;
                         lb_text := t |}) textdict;
  Ok (draw_labels_ labels).

(** Attribute lookup on the artist.  A method called without arguments is
    a function from the artist to its result. *)
Definition Method : Type := MeshArtist → Result (list Geom).

(** The drawing methods the class body defines, as [draw] would call them
    (without arguments); [draw] itself and the [mesh] property are the
    only other names of the class body. *)
Definition class_dict (attr : string) : option Method :=
  if decide (attr = "draw_vertices") then Some (draw_vertices None ArgNone)
  else if decide (attr = "draw_faces") then Some (draw_faces None ArgNone false)
  else if decide (attr = "draw_edges") then Some (draw_edges None ArgNone)
  else if decide (attr = "draw_vertexlabels")
       then Some (draw_vertexlabels ArgNone ArgNone)
  else if decide (attr = "draw_facelabels")
       then Some (draw_facelabels ArgNone ArgNone)
  else if decide (attr = "draw_edgelabels")
       then Some (draw_edgelabels ArgNone ArgNone)
  else None.

(** What the base class [BaseArtist] provides is not part of the file:
    [base_dict] gives the methods it defines. *)
Class BaseArtist : Type := {
  base_dict : string → option Method
}.

Context `{BaseArtist}.

(** [self.<attr>] for a method: the class first, then the base class. *)
Definition getattr (attr : string) : Result Method :=
  match class_dict attr with
  | Some m => Ok m
  | None =>
      match base_dict attr with
      | Some m => Ok m
      | None => Err (AttributeError attr)
      end
  end.

Definition draw (self : MeshArtist) : Result (list (option (list Geom))) :=
  let geometry : list (option (list Geom)) :=
    [None; None; None; None; None; None] in
  show_vertices ← getitem (settings self) "show.vertices";
  geometry ←
    (if truthy show_vertices then
       draw_nodes ← getattr "draw_nodes";
       g ← draw_nodes self;
       let geometry := <[0%nat := Some g]> geometry in
       show_vertexlabels ← getitem (settings self) "show.vertexlabels";
       if truthy show_vertexlabels then
         draw_nodelabels ← getattr "draw_nodelabels";
         g ← draw_nodelabels self;
         Ok (<[1%nat := Some g]> geometry)
       else Ok geometry
     else Ok geometry);
  show_faces ← getitem (settings self) "show.faces";
  geometry ←
    (if truthy show_faces then
       join_faces ← getitem (settings self) "join_faces";
       g ← draw_faces None ArgNone (truthy join_faces) self;
       let geometry := <[2%nat := Some g]> geometry in
       show_facelabels ← getitem (settings self) "show.facelabels";
       if truthy show_facelabels then
         g ← draw_facelabels ArgNone ArgNone self;
         Ok (<[3%nat := Some g]> geometry)
       else Ok geometry
     else Ok geometry);
  show_edges ← getitem (settings self) "show.edges";
  geometry ←
    (if truthy show_edges then
       g ← draw_edges None ArgNone self;
       let geometry := <[4%nat := Some g]> geometry in
       show_edgelabels ← getitem (settings self) "show.edgelabels";
       if truthy show_edgelabels then
         g ← draw_edgelabels ArgNone ArgNone self;
         Ok (<[5%nat := Some g]> geometry)
       else Ok geometry
     else Ok geometry);
  Ok geometry.

End artist.

Arguments Mesh : clear implicits.
Arguments Point : clear implicits.
Arguments Face : clear implicits.
Arguments Line : clear implicits.
Arguments Label : clear implicits.
Arguments GhDrawing : clear implicits.
Arguments MeshArtist : clear implicits.
Arguments BaseArtist : clear implicits.
Arguments Method : clear implicits.

End meshartist.


(* ===================================================================== *)
(** ** Vocabulary for the host scene *)
(* ===================================================================== *)

Module scene.
Import bpy.

(** Two objects that use the same mesh block, or the same curve block. *)
Definition shares_block (o x : Object) : Prop :=
  (is_Some (mesh_of o) ∧ mesh_of x = mesh_of o) ∨
  (is_Some (curve_of o) ∧ curve_of x = curve_of o).

#[global] Instance shares_block_dec o x : Decision (shares_block o x).
Proof. unfold shares_block. apply _. Defined.

(** What leaves the scene when [o] is deleted: [o] itself, and every
    object that uses the data block of [o]. *)
Definition goes_with (o x : Object) : Prop := x = o ∨ shares_block o x.

#[global] Instance goes_with_dec o x : Decision (goes_with o x).
Proof. unfold goes_with. apply _. Defined.

(** The scene without the objects of [os], without the objects that use
    their data blocks, and without those blocks. *)
Definition scene_without (os : list Object) (d : data) : data :=
  {| objects := filter (fun x => Forall (fun o => ¬ goes_with o x) os)
                       (objects d);
     meshes := filter (fun m => Forall (fun o => mesh_of o ≠ Some m) os)
                      (meshes d);
     curves := filter (fun c => Forall (fun o => curve_of o ≠ Some c) os)
                      (curves d);
     collections := collections d |}.

(** Handles that can be deleted one after the other: every handle is an
    object of the scene, no handle is repeated, and no two of them use the
    same data block (deleting the first would take the second with it). *)
Definition deletable (os : list Object) (d : data) : Prop :=
  NoDup os ∧
  Forall (fun o => o ∈ objects d) os ∧
  Forall (fun x => Forall (fun y => x ≠ y → ¬ shares_block x y) os) os.

#[global] Instance deletable_dec os d : Decision (deletable os d).
Proof. unfold deletable. apply _. Defined.

(** No object outside [os] uses the data block of an object of [os]. *)
Definition blocks_unshared (os : list Object) (d : data) : Prop :=
  ∀ o x, o ∈ os → x ∈ objects d → shares_block o x → x ∈ os.

(** Blender keeps the names of the objects of a file pairwise distinct. *)
Definition unique_names (d : data) : Prop :=
  NoDup (ob_name <$> objects d).

(** An object of the scene has the name. *)
Definition named (d : data) (name : string) : Prop :=
  ∃ o, o ∈ objects d ∧ ob_name o = name.

End scene.

(* ===================================================================== *)
(** ** What the artists expect of the host *)
(* ===================================================================== *)

Module hostlaws.
Import bpy networkartist scene.

(** The Blender drawing layer creates objects and never deletes any: the
    handles it returns are objects of the scene afterwards, the objects
    that were in the scene stay, and the two collection paths the artist
    uses have (at least) two segments. *)
Class BlenderDrawingLaws {XYZ : Type} (host : BlenderDrawing XYZ) : Prop := {
  draw_points_present : ∀ pts c d o,
    o ∈ (draw_points pts c d).1 → o ∈ objects (draw_points pts c d).2;
  draw_points_keeps : ∀ pts c d o,
    o ∈ objects d → o ∈ objects (draw_points pts c d).2;
  draw_lines_present : ∀ lns c d o,
    o ∈ (draw_lines lns c d).1 → o ∈ objects (draw_lines lns c d).2;
  draw_lines_keeps : ∀ lns c d o,
    o ∈ objects d → o ∈ objects (draw_lines lns c d).2;
  collections_keep : ∀ path d,
    objects (create_collections_from_path path d).2 = objects d;
  collections_nodes : ∀ d,
    is_Some ((create_collections_from_path "Network::Nodes" d).1 !! 1%nat);
  collections_edges : ∀ d,
    is_Some ((create_collections_from_path "Network::Edges" d).1 !! 1%nat)
}.

(** Handles of objects the host has just created: no handle twice, none
    of an object that was in the scene before, and each with a data block
    that no other object uses. *)
Definition new_handles (objs : list Object) (before after : data) : Prop :=
  NoDup objs ∧
  (∀ o, o ∈ objs → o ∉ objects before) ∧
  (∀ x y, x ∈ objs → y ∈ objects after → x ≠ y → ¬ shares_block x y).

(** The objects the drawing layer returns are new ones. *)
Class BlenderCreates {XYZ : Type} (host : BlenderDrawing XYZ) : Prop := {
  draw_points_new : ∀ pts c d,
    new_handles (draw_points pts c d).1 d (draw_points pts c d).2;
  draw_lines_new : ∀ lns c d,
    new_handles (draw_lines lns c d).1 d (draw_lines lns c d).2
}.

(** The settings keys the drawing methods read. *)
Definition settings_ok (settings : gmap string Value) : Prop :=
  is_Some (settings !! "color.nodes") ∧ is_Some (settings !! "color.edges") ∧
  is_Some (settings !! "show.nodes") ∧ is_Some (settings !! "show.edges").

(** Every node and every end of an edge of the network has coordinates. *)
Definition has_nodes {XYZ : Type} (net : Network XYZ) (nodes : list Z) : Prop :=
  Forall (fun node => is_Some (node_xyz net node)) nodes.

Definition has_ends {XYZ : Type} (net : Network XYZ) (edges : list (Z * Z))
  : Prop :=
  Forall (fun edge => is_Some (node_xyz net edge.1) ∧
                      is_Some (node_xyz net edge.2)) edges.

Definition network_ok {XYZ : Type} (net : Network XYZ) : Prop :=
  has_nodes net (net_nodes net) ∧ has_ends net (net_edges net).

(** An operation that selects nodes or edges selects them inside the
    network. *)
Definition selects_within {XYZ : Type} (net : Network XYZ) (op : Op) : Prop :=
  match op with
  | OpDrawNodes (Some nodes) _ => has_nodes net nodes
  | OpDrawEdges (Some edges) _ => has_ends net edges
  | _ => True
  end.

(** Every key of the three tracking dictionaries is an object of the
    host scene. *)
Definition tracked_present {XYZ : Type} (self : NetworkArtist XYZ) (d : data)
  : Prop :=
  ∀ o, o ∈ tracked self → o ∈ objects d.

(** What the collection properties leave alone: everything but their
    cache. *)
Definition same_drawing_state {XYZ : Type} (self self' : NetworkArtist XYZ)
  : Prop :=
  _object_node self' = _object_node self ∧
  _object_edge self' = _object_edge self ∧
  _object_path self' = _object_path self ∧
  network self' = network self ∧
  settings self' = settings self ∧
  base_objects self' = base_objects self.

(** "Drawing always clears before redrawing": a drawing operation does
    what it would do after [clear()]. *)
Definition is_drawing (op : Op) : Prop :=
  match op with
  | OpClear => False
  | _ => True
  end.

Definition clears_before_redrawing {XYZ : Type} (host : BlenderDrawing XYZ)
  : Prop :=
  ∀ (op : Op) (self : NetworkArtist XYZ) (d : data),
    is_drawing op →
    run_op op self d = ('(self0, d0) ← clear self d; run_op op self0 d0).

(** What overriding a settings key means, for a sequence of operations. *)
Definition overrides (k : string) (op : Op) : Prop :=
  match op with
  | OpDraw (Some s) => is_Some (s !! k)
  | _ => False
  end.

End hostlaws.

(* ===================================================================== *)
(** ** Wording of the specification, for comparison with the code *)
(* ===================================================================== *)

Module specwords.
Import bpy networkartist scene.

(** "the given nodes if non-empty, otherwise all nodes of the network" *)
Definition selection {A} (given : option (list A)) (all : list A) : list A :=
  match given with
  | None => all
  | Some l => if bool_decide (l = []) then all else l
  end.

(** "default-with-overrides lookup" of one key *)
Definition resolve {K} `{Countable K} (color : Arg (gmap K Value))
    (dflt : Value) (key : K) : Value :=
  match color with
  | ArgNone => dflt
  | ArgValue c => c
  | ArgDict overrides => default dflt (overrides !! key)
  end.

(** "one point descriptor per node ... whose position is
    network.node_coordinates(node), whose name is
    '{network.name}.node.{node}', and whose color is resolved from the
    color argument" *)
Definition node_point {XYZ} (net : Network XYZ) (color : Arg (gmap Z Value))
    (dflt : Value) (node : Z) : Result (Point XYZ) :=
  pos ← node_coordinates net node;
  Ok {| pt_pos := pos;
        pt_name := net_name net +:+ ".node." +:+ str node;
        pt_color := resolve color dflt node;
        pt_radius := 0.05 |}.

Definition edge_line {XYZ} (net : Network XYZ)
    (color : Arg (gmap (Z * Z) Value)) (dflt : Value) (edge : Z * Z)
  : Result (Line XYZ) :=
  start ← node_coordinates net edge.1;
  end_ ← node_coordinates net edge.2;
  Ok {| ln_start := start;
        ln_end := end_;
        ln_color := resolve color dflt edge;
        ln_name := net_name net +:+ ".edge." +:+ str edge.1 +:+ "-"
                   +:+ str edge.2;
        ln_width := 0.02 |}.

(** The settings argument of [draw] as a dictionary: nothing given is
    an empty dictionary. *)
Definition given_settings (s : option (gmap string Value))
  : gmap string Value :=
  default ∅ s.

Section draw.
Context {XYZ : Type} `{BlenderDrawing XYZ}.

(** "previously drawn objects": the keys of the three tracking
    dictionaries. *)
Definition previously_drawn (self : NetworkArtist XYZ) : list Object :=
  (keys (_object_node self) ++ keys (_object_edge self)
   ++ keys (_object_path self))%list.

(** The artist with other tracking dictionaries, and with other
    settings. *)
Definition tracking (nodes : gmap Object Z) (edges : gmap Object (Z * Z))
    (paths : gmap Object (list Z)) (self : NetworkArtist XYZ)
  : NetworkArtist XYZ :=
  {| _nodecollection := _nodecollection self;
     _edgecollection := _edgecollection self;
     _pathcollection := _pathcollection self;
     _object_node := nodes;
     _object_edge := edges;
     _object_path := paths;
     network := network self;
     settings := settings self;
     base_objects := base_objects self |}.

Definition with_settings (s : gmap string Value) (self : NetworkArtist XYZ)
  : NetworkArtist XYZ :=
  {| _nodecollection := _nodecollection self;
     _edgecollection := _edgecollection self;
     _pathcollection := _pathcollection self;
     _object_node := _object_node self;
     _object_edge := _object_edge self;
     _object_path := _object_path self;
     network := network self;
     settings := s;
     base_objects := base_objects self |}.

Definition with_collections (nodes edges : option Collection)
    (self : NetworkArtist XYZ) : NetworkArtist XYZ :=
  {| _nodecollection := nodes;
     _edgecollection := edges;
     _pathcollection := _pathcollection self;
     _object_node := _object_node self;
     _object_edge := _object_edge self;
     _object_path := _object_path self;
     network := network self;
     settings := settings self;
     base_objects := base_objects self |}.

(** "clears previously drawn objects": they leave the scene with their
    data, and the artist forgets them.  Handles that are not objects of
    the scene any more cannot be deleted. *)
Definition cleared (self : NetworkArtist XYZ) (d : data)
  : Result (NetworkArtist XYZ * data) :=
  if decide (deletable (previously_drawn self) d)
  then Ok (tracking ∅ ∅ ∅ self, scene_without (previously_drawn self) d)
  else Err ReferenceError.

(** The collection the objects go to: the one the artist has used
    before, or else the second collection on the path, created now. *)
Definition collection_in_words (used : option Collection) (path : string)
    (d : data) : Result (Collection * data) :=
  match used with
  | Some c => Ok (c, d)
  | None =>
      c ← index (create_collections_from_path path d).1 1;
      Ok (c, (create_collections_from_path path d).2)
  end.

(** "draws nodes": one point per node of the network, in the colour of
    the settings, is handed to the host; the handles the host returns are
    paired with the nodes. *)
Definition nodes_in_words (self : NetworkArtist XYZ) (d : data)
  : Result (list Object * NetworkArtist XYZ * data) :=
  let nodes := net_nodes (network self) in
  dflt ← getitem (settings self) "color.nodes";
  points ← mapM (node_point (network self) ArgNone dflt) nodes;
  '(c, d) ← collection_in_words (_nodecollection self) "Network::Nodes" d;
  let handles := (draw_points points c d).1 in
  Ok (handles,
      tracking (dict (zip handles nodes)) (_object_edge self)
        (_object_path self)
        (with_collections (Some c) (_edgecollection self) self),
      (draw_points points c d).2).

(** "draws edges": likewise, one line per edge of the network. *)
Definition edges_in_words (self : NetworkArtist XYZ) (d : data)
  : Result (list Object * NetworkArtist XYZ * data) :=
  let edges := net_edges (network self) in
  dflt ← getitem (settings self) "color.edges";
  lines ← mapM (edge_line (network self) ArgNone dflt) edges;
  '(c, d) ← collection_in_words (_edgecollection self) "Network::Edges" d;
  let handles := (draw_lines lines c d).1 in
  Ok (handles,
      tracking (_object_node self) (dict (zip handles edges))
        (_object_path self)
        (with_collections (_nodecollection self) (Some c) self),
      (draw_lines lines c d).2).

(** "first clears previously drawn objects, then merges s into the
    artist's settings, then draws nodes iff show.nodes, and edges iff
    show.edges" *)
Definition draw_in_words (s : gmap string Value) (self : NetworkArtist XYZ)
    (d : data) : Result (list Object * NetworkArtist XYZ * data) :=
  '(self, d) ← cleared self d;
  let merged := s ∪ settings self in
  let self := with_settings merged self in
  show_nodes ← getitem merged "show.nodes";
  '(self, d) ← (if truthy show_nodes
                then '(_, self, d) ← nodes_in_words self d; Ok (self, d)
                else Ok (self, d));
  show_edges ← getitem merged "show.edges";
  '(self, d) ← (if truthy show_edges
                then '(_, self, d) ← edges_in_words self d; Ok (self, d)
                else Ok (self, d));
  Ok (base_objects self, self, d).

End draw.

End specwords.

(* ===================================================================== *)
(** ** Wording of the specification for the mesh artist *)
(* ===================================================================== *)

Module meshwords.
Import meshartist specwords.

Section descriptors.
Context {XYZ : Type}.

(** The mesh has geometry for each of the keys. *)
Definition has_vertices (m : Mesh XYZ) (keys : list Z) : Prop :=
  Forall (fun key => is_Some (vertex_xyz m key)) keys.

Definition has_faces (m : Mesh XYZ) (keys : list Z) : Prop :=
  Forall (fun key => is_Some (face_xyz m key)) keys.

Definition has_edges (m : Mesh XYZ) (keys : list (Z * Z)) : Prop :=
  Forall (fun uv => is_Some (edge_xyz m uv.1 uv.2)) keys.

Definition has_centres (m : Mesh XYZ) (keys : list Z) : Prop :=
  Forall (fun key => is_Some (face_centre m key)) keys.

Definition has_middles (m : Mesh XYZ) (keys : list (Z * Z)) : Prop :=
  Forall (fun uv => is_Some (edge_middle m uv.1 uv.2)) keys.

(** "position/color/name tuples", one per vertex, face or edge *)
Definition vertex_point (m : Mesh XYZ) (color : Arg (gmap Z Value))
    (dflt : Value) (vertex : Z) : Result (Point XYZ) :=
  pos ← vertex_coordinates m vertex;
  Ok {| pt_pos := pos;
        pt_name := mesh_name m +:+ ".vertex." +:+ str vertex;
        pt_color := resolve color dflt vertex |}.

Definition face_polygon (m : Mesh XYZ) (color : Arg (gmap Z Value))
    (dflt : Value) (fkey : Z) : Result (Face XYZ) :=
  points ← face_coordinates m fkey;
  Ok {| fc_points := points;
        fc_name := mesh_name m +:+ ".face." +:+ str fkey;
        fc_color := resolve color dflt fkey |}.

Definition edge_line (m : Mesh XYZ) (color : Arg (gmap (Z * Z) Value))
    (dflt : Value) (edge : Z * Z) : Result (Line XYZ) :=
  ends ← edge_coordinates m edge.1 edge.2;
  Ok {| ln_start := ends.1;
        ln_end := ends.2;
        ln_color := resolve color dflt edge;
        ln_name := mesh_name m +:+ ".edge." +:+ str edge.1 +:+ "-"
                   +:+ str edge.2 |}.

(** Labels: the text is what the text dictionary holds for the key. *)
Definition text_of {K} `{EqDecision K} (textdict : list (K * string))
    (key : K) : string :=
  default "" (oget textdict key).

Definition vertex_label (m : Mesh XYZ) (textdict : list (Z * string))
    (color : Arg (gmap Z Value)) (dflt : Value) (key : Z)
  : Result (Label XYZ) :=
  pos ← vertex_coordinates m key;
  Ok {| lb_pos := pos;
        lb_name := mesh_name m +:+ ".vertexlabel." +:+ str key;
        lb_color := resolve color dflt key;
        lb_text := text_of textdict key |}.

Definition face_label (m : Mesh XYZ) (textdict : list (Z * string))
    (color : Arg (gmap Z Value)) (dflt : Value) (key : Z)
  : Result (Label XYZ) :=
  pos ← face_center m key;
  Ok {| lb_pos := pos;
        lb_name := mesh_name m +:+ ".facelabel." +:+ str key;
        lb_color := resolve color dflt key;
        lb_text := text_of textdict key |}.

Definition edge_label (m : Mesh XYZ) (textdict : list (Z * Z * string))
    (color : Arg (gmap (Z * Z) Value)) (dflt : Value) (uv : Z * Z)
  : Result (Label XYZ) :=
  pos ← edge_midpoint m uv.1 uv.2;
  Ok {| lb_pos := pos;
        lb_name := mesh_name m +:+ ".edgelabel." +:+ str uv.1 +:+ "-"
                   +:+ str uv.2;
        lb_color := resolve color dflt uv;
        lb_text := text_of textdict uv |}.

(** The text dictionary a label method works with, when there is one. *)
Definition textdict_of {K} `{EqDecision K} (key_text : K → string)
    (all : list K) (text : Arg (list (K * string)))
  : option (list (K * string)) :=
  match text with
  | ArgNone => Some (ocomprehension key_text all)
  | ArgDict t => Some t
  | ArgValue _ => None
  end.

(** The keys a label method labels: all of them without a text, those of
    the dictionary with one. *)
Definition label_keys {K} (all : list K) (text : Arg (list (K * string)))
  : list K :=
  match text with
  | ArgNone => all
  | ArgDict t => t.*1
  | ArgValue _ => []
  end.

(** "every vertex/face/edge is labelled with its key": the labels are
    those of the keys of [all], each with the text of its key. *)
Definition labelled_with_keys {K} (key_text : K → string) (all : list K)
    (key_of : Label XYZ → K → Prop) (labels : list (Label XYZ)) : Prop :=
  (∀ l, l ∈ labels → ∃ key, key ∈ all ∧ key_of l key ∧
                            lb_text l = key_text key) ∧
  (∀ key, key ∈ all → ∃ l, l ∈ labels ∧ key_of l key ∧
                           lb_text l = key_text key).

End descriptors.

End meshwords.

(* ===================================================================== *)
(** ** A reference host, to run the artists on concrete inputs *)
(* ===================================================================== *)

Module refhost.
Import bpy.

(** Modelled from the spec: the host-drawing functions of [compas_blender]
    ("forward the list to a host-drawing function", "an entity created
    inside the 3D application's internal scene graph ... returned as an
    opaque handle") create one scene object per descriptor, named after it,
    and return the handles in order; collections are created along a
    [::]-separated path.  Every new object gets a data block of its own.
    Identities are taken above those in use, so the identity of a deleted
    object may be given out again, as an address in memory may. *)
Definition fresh (ids : list N) : N := N.succ (foldr N.max 0%N ids).

Definition blocks_in_use (d : data) : list N :=
  (meshes d ++ curves d ++ omap ob_data (objects d))%list.

Definition new_object (name type : string) (d : data) : Object * data :=
  let o := {| ob_id := fresh (ob_id <$> objects d);
              ob_name := name;
              ob_type := type;
              ob_data := Some (fresh (blocks_in_use d)) |} in
  (o, {| objects := objects d ++ [o];
         meshes := if decide (type = "MESH")
                   then meshes d ++ [fresh (blocks_in_use d)]
                   else meshes d;
         curves := if decide (type = "CURVE")
                   then curves d ++ [fresh (blocks_in_use d)]
                   else curves d;
         collections := collections d |}).

Fixpoint new_objects (names : list string) (type : string) (d : data)
  : list Object * data :=
  match names with
  | [] => ([], d)
  | name :: names' =>
      let '(o, d) := new_object name type d in
      let '(os, d) := new_objects names' type d in
      (o :: os, d)
  end.

Fixpoint split_path (path acc : string) : list string :=
  match path with
  | EmptyString => [acc]
  | String c rest =>
      match rest with
      | String c' rest' =>
          if decide (c = ":"%char ∧ c' = ":"%char)
          then acc :: split_path rest' ""
          else split_path rest (acc +:+ String c "")
      | EmptyString => [acc +:+ String c ""]
      end
  end.

Definition ref_create_collections (path : string) (d : data)
  : list Collection * data :=
  let names := split_path path "" in
  (names,
   {| objects := objects d; meshes := meshes d; curves := curves d;
      collections :=
        collections d ++ filter (fun n => n ∉ collections d) names |}).

#[export] Instance blender : networkartist.BlenderDrawing (list Z) := {|
  networkartist.draw_points pts _ d :=
    new_objects (networkartist.pt_name <$> pts) "MESH" d;
  networkartist.draw_lines lns _ d :=
    new_objects (networkartist.ln_name <$> lns) "CURVE" d;
  networkartist.create_collections_from_path := ref_create_collections
|}.

Definition empty_scene : data :=
  {| objects := []; meshes := []; curves := []; collections := [] |}.

(** A network of three nodes on a line, with two edges. *)
Definition line_network : networkartist.Network (list Z) :=
  {| networkartist.net_name := "net";
     networkartist.net_nodes := [0; 1; 2];
     networkartist.net_edges := [(0, 1); (1, 2)];
     networkartist.node_xyz :=
       fun n => if decide (n ∈ [0; 1; 2]) then Some [n; 0; 0] else None |}.

Definition line_artist : networkartist.NetworkArtist (list Z) :=
  networkartist.__init__ line_network None [].

(** A Rhino document as the list of what was added to it; GUIDs are
    positions in that list. *)
Inductive Added : Type :=
| AddedPoint (p : frameartist.Point (list Z))
| AddedLine (l : frameartist.Line (list Z)).

#[export] Instance geometry
  : frameartist.Geometry (Z * Z * Z) (Z * Z * Z) Z (list Z) := {|
  frameartist.point_add p v :=
    (p.1.1 + v.1.1, p.1.2 + v.1.2, p.2 + v.2);
  frameartist.scaled v n := (v.1.1 * n, v.1.2 * n, v.2 * n);
  frameartist.to_list p := [p.1.1; p.1.2; p.2]
|}.

#[export] Instance rhino
  : frameartist.RhinoDrawing (list Z) nat (list Added) := {|
  frameartist.draw_points pts _ _ _ doc :=
    (seq (length doc) (length pts), (doc ++ (AddedPoint <$> pts))%list);
  frameartist.draw_lines lns _ _ _ doc :=
    (seq (length doc) (length lns), (doc ++ (AddedLine <$> lns))%list)
|}.

Definition world_frame : frameartist.Frame (Z * Z * Z) (Z * Z * Z) :=
  {| frameartist.point := (1, 2, 3);
     frameartist.xaxis := (1, 0, 0);
     frameartist.yaxis := (0, 1, 0);
     frameartist.zaxis := (0, 0, 1) |}.

(** Grasshopper geometry as the descriptors it was built from. *)
Inductive Geom : Type :=
| GPoint (p : meshartist.Point (list Z))
| GFace (f : meshartist.Face (list Z))
| GLine (l : meshartist.Line (list Z))
| GLabel (l : meshartist.Label (list Z))
| GMesh (parts : list (meshartist.Face (list Z))).

#[export] Instance gh : meshartist.GhDrawing (list Z) Geom := {|
  meshartist.draw_points_ pts := GPoint <$> pts;
  meshartist.draw_faces_ fs := GFace <$> fs;
  meshartist.draw_lines_ lns := GLine <$> lns;
  meshartist.draw_labels_ lbs := GLabel <$> lbs;
  meshartist.Mesh_new := GMesh [];
  meshartist.Mesh_Append joined m :=
    match joined, m with
    | GMesh parts, GFace f => GMesh (parts ++ [f])
    | GMesh parts, GMesh parts' => GMesh (parts ++ parts')
    | g, _ => g
    end
|}.

(** A base class that defines no drawing method. *)
#[export] Instance plain_base : meshartist.BaseArtist (list Z) Geom := {|
  meshartist.base_dict := fun _ => None
|}.

(** A single triangle. *)
Definition triangle : meshartist.Mesh (list Z) :=
  {| meshartist.mesh_name := "tri";
     meshartist.vertices := [0; 1; 2];
     meshartist.faces := [0];
     meshartist.edges := [(0, 1); (1, 2); (2, 0)];
     meshartist.vertex_xyz :=
       fun v => if decide (v ∈ [0; 1; 2]) then Some [v; v * v; 0] else None;
     meshartist.face_xyz :=
       fun f => if decide (f = 0)
                then Some [[0; 0; 0]; [1; 1; 0]; [2; 4; 0]] else None;
     meshartist.edge_xyz :=
       fun u v => if decide ((u, v) ∈ [(0, 1); (1, 2); (2, 0)])
                  then Some ([u; u * u; 0], [v; v * v; 0]) else None;
     meshartist.face_centre :=
       fun f => if decide (f = 0) then Some [1; 2; 0] else None;
     meshartist.edge_middle :=
       fun u v => if decide ((u, v) ∈ [(0, 1); (1, 2); (2, 0)])
                  then Some [u + v; u * u + v * v; 0] else None |}.

(** The line artist and the scene after a first [draw()]: three node
    objects and two edge objects, all of them tracked. *)
Definition drawn : networkartist.NetworkArtist (list Z) * data :=
  match networkartist.draw None line_artist empty_scene with
  | Ok (_, self, d) => (self, d)
  | Err _ => (line_artist, empty_scene)
  end.

(** A drawing session: everything is drawn, one node again, the edges
    again, and everything once more without the edges. *)
Definition hide_edges : gmap string Value := {[ "show.edges" := VBool false ]}.

Definition session : list networkartist.Op :=
  [ networkartist.OpDraw None;
    networkartist.OpDrawNodes (Some [1]) (ArgValue (rgb 255 0 0));
    networkartist.OpDrawEdges None ArgNone;
    networkartist.OpDraw (Some hide_edges) ].

(** A mesh artist whose vertices were switched off. *)
Definition hidden_vertices : meshartist.MeshArtist (list Z) :=
  {| meshartist._mesh := triangle;
     meshartist.settings :=
       <["show.vertices" := VBool false]> meshartist.default_settings |}.

End refhost.
(** A small scene to run objects.py on: a mesh object, a curve object and
    an empty; and the same scene with a linked duplicate of the mesh
    object, which uses the duplicated object's mesh block. *)
Module samples.
Import bpy.

Definition cube : Object :=
  {| ob_id := 1; ob_name := "Cube"; ob_type := "MESH"; ob_data := Some 1%N |}.

Definition path : Object :=
  {| ob_id := 2; ob_name := "Path"; ob_type := "CURVE"; ob_data := Some 2%N |}.

Definition empty : Object :=
  {| ob_id := 3; ob_name := "Empty"; ob_type := "EMPTY"; ob_data := None |}.

Definition cube_copy : Object :=
  {| ob_id := 4; ob_name := "Cube.001"; ob_type := "MESH";
     ob_data := Some 1%N |}.

Definition startup : data :=
  {| objects := [cube; path; empty];
     meshes := [1%N];
     curves := [2%N];
     collections := ["Collection"] |}.

Definition linked : data :=
  {| objects := [cube; path; empty; cube_copy];
     meshes := [1%N];
     curves := [2%N];
     collections := ["Collection"] |}.

(** The scene after [delete_objects_by_names(['Cube', 'Empty'])]. *)
Definition only_path : data :=
  {| objects := [path];
     meshes := [];
     curves := [2%N];
     collections := ["Collection"] |}.

(** Settings that switch off the nodes and the edges. *)
Definition all_hidden : gmap string Value :=
  <["show.nodes" := VBool false]> {[ "show.edges" := VBool false ]}.

End samples.

(* ===================================================================== *)
(** ** The functions that raise, as one family of calls *)
(* ===================================================================== *)

Module api.
Import bpy scene specwords meshwords.

Section calls.
Context {XYZ Geom Pnt Vec GUID : Type} `{meshartist.GhDrawing XYZ Geom}.

(** A call of one of the functions of the four files that contain a
    [raise] or a lookup by name in the host, or of one of their siblings
    (the component methods of the mesh artist, the deletions by
    handle). *)
Inductive Call : Type :=
| draw_vertexlabels (self : meshartist.MeshArtist XYZ)
    (text : Arg (list (Z * string))) (color : Arg (gmap Z Value))
| draw_facelabels (self : meshartist.MeshArtist XYZ)
    (text : Arg (list (Z * string))) (color : Arg (gmap Z Value))
| draw_edgelabels (self : meshartist.MeshArtist XYZ)
    (text : Arg (list (Z * Z * string))) (color : Arg (gmap (Z * Z) Value))
| draw_vertices (self : meshartist.MeshArtist XYZ)
    (keys : option (list Z)) (color : Arg (gmap Z Value))
| draw_faces (self : meshartist.MeshArtist XYZ)
    (keys : option (list Z)) (color : Arg (gmap Z Value)) (join_faces : bool)
| draw_edges (self : meshartist.MeshArtist XYZ)
    (keys : option (list (Z * Z))) (color : Arg (gmap (Z * Z) Value))
| draw_collection (collection : list (frameartist.Frame Pnt Vec))
    (names : option (list string)) (colors : option (list Value))
    (layer : option string) (clear add_to_group : bool)
    (group_name : option string)
| get_object_by_name (name : string) (d : data)
| get_objects_by_names (names : list string) (d : data)
| delete_object_by_name (name : string) (d : data)
| delete_objects_by_names (names : list string) (d : data)
| delete_object (obj : Object) (d : data)
| delete_objects (objs : list Object) (d : data).

Definition error_of {A} (r : Result A) : option Error :=
  match r with
  | Ok _ => None
  | Err e => Some e
  end.

(** The exception a call ends with, if any. *)
Definition outcome (c : Call) : option Error :=
  match c with
  | draw_vertexlabels self text color =>
      error_of (meshartist.draw_vertexlabels text color self)
  | draw_facelabels self text color =>
      error_of (meshartist.draw_facelabels text color self)
  | draw_edgelabels self text color =>
      error_of (meshartist.draw_edgelabels text color self)
  | draw_vertices self keys color =>
      error_of (meshartist.draw_vertices keys color self)
  | draw_faces self keys color join_faces =>
      error_of (meshartist.draw_faces keys color join_faces self)
  | draw_edges self keys color =>
      error_of (meshartist.draw_edges keys color self)
  | draw_collection collection names colors layer clear add_to_group
      group_name =>
      error_of (frameartist.draw_collection (GUID := GUID) collection names
                  colors layer clear add_to_group group_name)
  | get_object_by_name name d => error_of (objects.get_object_by_name name d)
  | get_objects_by_names names d =>
      error_of (objects.get_objects_by_names names d)
  | delete_object_by_name name d =>
      error_of (objects.delete_object_by_name name d)
  | delete_objects_by_names names d =>
      error_of (objects.delete_objects_by_names names d)
  | delete_object obj d => error_of (objects.delete_object obj d)
  | delete_objects objs d => error_of (objects.delete_objects objs d)
  end.

(** "an invalid label-input type": the text of a label method is neither
    [None] nor a dictionary. *)
Definition invalid_label_text (c : Call) : Prop :=
  match c with
  | draw_vertexlabels _ (ArgValue _) _
  | draw_facelabels _ (ArgValue _) _
  | draw_edgelabels _ (ArgValue _) _ => True
  | _ => False
  end.

Definition is_draw_collection (c : Call) : Prop :=
  match c with
  | draw_collection _ _ _ _ _ _ _ => True
  | _ => False
  end.

(** "missing object names": [name] is the first of the names looked up
    that no object of the scene has. *)
Definition first_missing (names : list string) (d : data) (name : string)
  : Prop :=
  ∃ found rest, names = (found ++ name :: rest)%list ∧
                Forall (named d) found ∧ ¬ named d name.

Definition missing_name (c : Call) (name : string) : Prop :=
  match c with
  | get_object_by_name n d | delete_object_by_name n d =>
      n = name ∧ ¬ named d name
  | get_objects_by_names names d | delete_objects_by_names names d =>
      first_missing names d name
  | _ => False
  end.

(** The errors the specification lists. *)
Definition listed_error (c : Call) (e : Error) : Prop :=
  (e = NotImplementedError ∧ invalid_label_text c) ∨
  (∃ name, e = KeyError name ∧ missing_name c name).

(** "Errors are limited to" the listed ones. *)
Definition errors_limited_to_listed : Prop :=
  ∀ c e, outcome c = Some e → listed_error c e.

(** A lookup a drawing method of the mesh artist makes fails: the
    settings have lost the colour of the component, or the mesh has no
    geometry for one of the keys the method draws or labels. *)
Definition lacks (self : meshartist.MeshArtist XYZ) (k : string) : Prop :=
  meshartist.settings self !! k = None.

Definition failed_lookup (c : Call) : Prop :=
  match c with
  | draw_vertexlabels self text _ =>
      lacks self "color.vertices" ∨
      ¬ has_vertices (meshartist.mesh self)
          (label_keys (meshartist.vertices (meshartist.mesh self)) text)
  | draw_facelabels self text _ =>
      lacks self "color.faces" ∨
      ¬ has_centres (meshartist.mesh self)
          (label_keys (meshartist.faces (meshartist.mesh self)) text)
  | draw_edgelabels self text _ =>
      lacks self "color.edges" ∨
      ¬ has_middles (meshartist.mesh self)
          (label_keys (meshartist.edges (meshartist.mesh self)) text)
  | draw_vertices self keys _ =>
      lacks self "color.vertices" ∨
      ¬ has_vertices (meshartist.mesh self)
          (selection keys (meshartist.vertices (meshartist.mesh self)))
  | draw_faces self keys _ _ =>
      lacks self "color.faces" ∨
      ¬ has_faces (meshartist.mesh self)
          (selection keys (meshartist.faces (meshartist.mesh self)))
  | draw_edges self keys _ =>
      lacks self "color.edges" ∨
      ¬ has_edges (meshartist.mesh self)
          (selection keys (meshartist.edges (meshartist.mesh self)))
  | _ => False
  end.

(** A deletion is handed a handle whose object has left the scene: it
    was never there, it is given twice, or it went with an earlier handle
    that used the same data block. *)
Definition removed_handle (c : Call) : Prop :=
  match c with
  | delete_object obj d => obj ∉ objects d
  | delete_objects objs d => ¬ deletable objs d
  | delete_objects_by_names names d =>
      ∃ objs, mapM (fun name => objects_getitem name d) names = Ok objs ∧
              ¬ deletable objs d
  | _ => False
  end.

(** The listed errors, the placeholder of [draw_collection], and what a
    failing lookup in the settings, the mesh or the host raises. *)
Definition raised_error (c : Call) (e : Error) : Prop :=
  (e = NotImplementedError ∧ (invalid_label_text c ∨ is_draw_collection c)) ∨
  (∃ name, e = KeyError name ∧ missing_name c name) ∨
  (∃ key, e = KeyError key ∧ failed_lookup c) ∨
  (e = ReferenceError ∧ removed_handle c).

End calls.

Arguments Call : clear implicits.

(** A label call with a text that is neither [None] nor a dictionary. *)
Definition bad_label_call : Call (list Z) (Z * Z * Z) (Z * Z * Z) :=
  draw_edgelabels (meshartist.__init__ refhost.triangle) (ArgValue (VStr "a"))
    ArgNone.

End api.

(* ===================================================================== *)
(** * Properties *)
(* ===================================================================== *)

Import bpy objects colors scene.

(** ** Results and dictionaries *)

Lemma mapM_Ok {A B} (f : A → Result B) (g : A → B) (l : list A) :
  (∀ x, x ∈ l → f x = Ok (g x)) → mapM f l = Ok (g <$> l).
Proof.
  induction l as [|x l IH]; intros Hf; [done|].
  cbn. rewrite (Hf x) by left. cbn.
  rewrite IH; [done|]. intros y Hy. apply Hf. by right.
Qed.

(** The loop over a list of keys: it returns the list of results when
    every step returns, and stops at the first step that raises. *)
Lemma mapM_ext_in {A B} (f g : A → Result B) (l : list A) :
  (∀ x, x ∈ l → f x = g x) → mapM f l = mapM g l.
Proof.
  induction l as [|x l IH]; intros Hf; [done|].
  cbn. rewrite (Hf x) by left.
  rewrite IH; [done|]. intros y Hy. apply Hf. by right.
Qed.

Lemma mapM_Ok_Forall2 {A B} (f : A → Result B) (l : list A) (ys : list B) :
  mapM f l = Ok ys ↔ Forall2 (fun x y => f x = Ok y) l ys.
Proof.
  revert ys. induction l as [|x l IH]; intros ys; cbn.
  - split; [by intros [= <-]|by intros ->%Forall2_nil_inv_l].
  - destruct (f x) as [y|e] eqn:Hx; cbn.
    + destruct (mapM f l) as [ys'|e] eqn:Hl; cbn.
      * split.
        -- intros [= <-]. constructor; [done|]. by apply IH.
        -- intros (y' & ys'' & Hy & Hys & ->)%Forall2_cons_inv_l.
           apply IH in Hys. injection Hys as ->.
           rewrite Hx in Hy. by injection Hy as ->.
      * split; [done|].
        intros (y' & ys'' & Hy & Hys & ->)%Forall2_cons_inv_l.
        by apply IH in Hys.
    + split; [done|].
      intros (y' & ys'' & Hy & Hys & ->)%Forall2_cons_inv_l. congruence.
Qed.

Lemma mapM_total {A B} (f : A → Result B) (l : list A) :
  Forall (fun x => ∃ y, f x = Ok y) l → ∃ ys, mapM f l = Ok ys.
Proof.
  induction 1 as [|x l [y Hy] _ [ys Hys]]; [by exists []|].
  exists (y :: ys). cbn. by rewrite Hy, Hys.
Qed.

Lemma mapM_Err {A B} (f : A → Result B) (l : list A) e :
  mapM f l = Err e → ∃ x, x ∈ l ∧ f x = Err e.
Proof.
  induction l as [|x l IH]; cbn; [done|].
  destruct (f x) as [y|e'] eqn:Hx; cbn.
  - destruct (mapM f l) as [ys|e'] eqn:Hl; cbn; [done|].
    intros [= ->]. destruct IH as (x' & Hin & Hx'); [done|].
    exists x'. split; [by right|done].
  - intros [= ->]. exists x. split; [by left|done].
Qed.

Lemma mapM_not_total {A B} (f : A → Result B) (l : list A) :
  ¬ Forall (fun x => ∃ y, f x = Ok y) l → ∃ e, mapM f l = Err e.
Proof.
  intros Hnot. destruct (mapM f l) as [ys|e] eqn:Hl; [|by exists e].
  destruct Hnot. apply mapM_Ok_Forall2 in Hl.
  induction Hl; constructor; [by eexists|done].
Qed.

Lemma mapM_described {K D} (f : K → Result D) (P : K → D → Prop)
    (keys0 keys : list K) (xs : list D) :
  (∀ key x, key ∈ keys0 → f key = Ok x → P key x) →
  (∀ key, key ∈ keys → key ∈ keys0) →
  mapM f keys = Ok xs → Forall2 P keys xs.
Proof.
  intros HP Hsub Hall%mapM_Ok_Forall2.
  induction Hall as [|key x l k Hx _ IH]; constructor.
  - apply HP; [|done]. apply Hsub. by left.
  - apply IH. intros key' Hin. apply Hsub. by right.
Qed.

Lemma mapM_Ok_elem {A B} (f : A → Result B) (l : list A) (ys : list B) :
  mapM f l = Ok ys →
  (∀ y, y ∈ ys → ∃ x, x ∈ l ∧ f x = Ok y) ∧
  (∀ x, x ∈ l → ∃ y, y ∈ ys ∧ f x = Ok y).
Proof.
  intros Hall%mapM_Ok_Forall2.
  induction Hall as [|x y l k Hxy _ [IH1 IH2]].
  - split; intros ? ?%elem_of_nil; done.
  - split.
    + intros y' [->|Hin]%elem_of_cons.
      * exists x. split; [by left|done].
      * destruct (IH1 y' Hin) as (x' & ? & ?). exists x'.
        split; [by right|done].
    + intros x' [->|Hin]%elem_of_cons.
      * exists y. split; [by left|done].
      * destruct (IH2 x' Hin) as (y' & ? & ?). exists y'.
        split; [by right|done].
Qed.

Lemma lookup_key_Ok {A} (found : option A) key x :
  lookup_key found key = Ok x ↔ found = Some x.
Proof. destruct found; cbn; split; congruence. Qed.

Lemma lookup_key_Some {A} (found : option A) key x :
  found = Some x → lookup_key found key = Ok x.
Proof. by intros ->. Qed.

Lemma lookup_key_is_Some {A} (found : option A) key :
  (∃ x, lookup_key found key = Ok x) ↔ is_Some found.
Proof.
  destruct found as [x|]; cbn.
  - split; [by eexists|]. intros _. by exists x.
  - split; by intros [? ?].
Qed.

Lemma bind_Ok {A B} (a : A) (f : A → Result B) : Ok a ≫= f = f a.
Proof. done. Qed.

Lemma bind_Err {A B} (e : Error) (f : A → Result B) : Err e ≫= f = Err e.
Proof. done. Qed.

Lemma getitem_Some {V} (d : gmap string V) k v :
  d !! k = Some v → getitem d k = Ok v.
Proof. unfold getitem. by intros ->. Qed.

Lemma getitem_Ok {V} (d : gmap string V) k v :
  getitem d k = Ok v → d !! k = Some v.
Proof. unfold getitem. by destruct (d !! k); intros [=->]. Qed.

Lemma dict_snoc {K V} `{Countable K} (l : list (K * V)) k v :
  dict (l ++ [(k, v)]) = <[k := v]> (dict l).
Proof. unfold dict. by rewrite foldl_snoc. Qed.

Lemma dict_nil {K V} `{Countable K} : dict (@nil (K * V)) = ∅.
Proof. done. Qed.

(** A key is in [dict pairs] exactly when some pair has it. *)
Lemma dict_is_Some {K V} `{Countable K} (l : list (K * V)) k :
  is_Some (dict l !! k) ↔ k ∈ l.*1.
Proof.
  induction l as [|[k' v'] l IH] using rev_ind.
  - rewrite dict_nil, lookup_empty. split; [by intros [? ?]|].
    cbn. by intros ?%elem_of_nil.
  - rewrite dict_snoc, fmap_app, elem_of_app. cbn.
    rewrite list_elem_of_singleton.
    destruct (decide (k' = k)) as [->|Hne].
    + rewrite lookup_insert_eq. split; [by right|by eexists].
    + rewrite lookup_insert_ne by done. rewrite IH.
      split; [by left|]. by intros [?|?].
Qed.

(** With a value that depends on the key only, lookups read it back. *)
Lemma dict_lookup_keyed {K V} `{Countable K} (f : K → V) (ks : list K) k :
  k ∈ ks → dict ((fun key => (key, f key)) <$> ks) !! k = Some (f k).
Proof.
  induction ks as [|k' ks IH] using rev_ind; [by intros ?%elem_of_nil|].
  intros Hk. rewrite fmap_app. cbn. rewrite dict_snoc.
  destruct (decide (k' = k)) as [->|Hne].
  - by rewrite lookup_insert_eq.
  - rewrite lookup_insert_ne by done. apply IH.
    apply elem_of_app in Hk as [Hk|Hk]; [done|].
    apply list_elem_of_singleton in Hk. congruence.
Qed.

Lemma foldl_insert_notin {K V} `{Countable K} (l : list (K * V))
    (acc : gmap K V) k :
  k ∉ l.*1 → foldl (fun d kv => <[kv.1 := kv.2]> d) acc l !! k = acc !! k.
Proof.
  revert acc. induction l as [|[k' v'] l IH]; intros acc Hk; [done|].
  cbn in *. apply not_elem_of_cons in Hk as [Hne Hk].
  rewrite IH by done. by rewrite lookup_insert_ne.
Qed.

(** With pairwise distinct handles, each handle maps to the key at the
    same position. *)
Lemma dict_zip_lookup {K V} `{Countable K} (ks : list K) (vs : list V) i k v :
  NoDup ks → ks !! i = Some k → vs !! i = Some v →
  dict (zip ks vs) !! k = Some v.
Proof.
  unfold dict. generalize (∅ : gmap K V) as acc.
  revert vs i. induction ks as [|k' ks IH]; intros vs i acc Hnd Hk Hv; [done|].
  destruct vs as [|v' vs]; [done|].
  apply NoDup_cons in Hnd as [Hnotin Hnd].
  destruct i as [|i]; cbn in *.
  - injection Hk as ->. injection Hv as ->.
    rewrite foldl_insert_notin; [by rewrite lookup_insert_eq|].
    intros Hin. apply Hnotin.
    apply list_elem_of_fmap in Hin as ([a b] & -> & Hin).
    by apply elem_of_zip_l in Hin.
  - by eapply IH.
Qed.

Lemma elem_of_keys {K V} `{Countable K} (d : gmap K V) k :
  k ∈ keys d ↔ is_Some (d !! k).
Proof.
  unfold keys. rewrite list_elem_of_fmap. split.
  - intros ([k' v] & -> & Hin). apply elem_of_map_to_list in Hin. by eexists.
  - intros [v Hv]. exists (k, v). split; [done|]. by apply elem_of_map_to_list.
Qed.

Lemma keys_empty {K V} `{Countable K} : keys (∅ : gmap K V) = [].
Proof. unfold keys. by rewrite map_to_list_empty. Qed.

(** ** Deleting objects from the scene *)

Lemma shares_block_sym o x : shares_block o x → shares_block x o.
Proof.
  intros [[Hs He]|[Hs He]]; [left|right]; (split; [by rewrite He|done]).
Qed.

Lemma data_eq (d d' : data) :
  objects d = objects d' → meshes d = meshes d' → curves d = curves d' →
  collections d = collections d' → d = d'.
Proof. destruct d, d'; cbn; congruence. Qed.

Lemma filter_all {A} (P : A → Prop) `{∀ x, Decision (P x)} (l : list A) :
  (∀ x, x ∈ l → P x) → filter P l = l.
Proof.
  induction l as [|x l IH]; intros HP; [done|].
  rewrite filter_cons_True by (apply HP; by left).
  rewrite IH; [done|]. intros y Hy. apply HP. by right.
Qed.

Lemma filter_none {A} (P : A → Prop) `{∀ x, Decision (P x)} (l : list A) :
  (∀ x, x ∈ l → ¬ P x) → filter P l = [].
Proof.
  induction l as [|x l IH]; intros HP; [done|].
  rewrite filter_cons_False by (apply HP; by left).
  apply IH. intros y Hy. apply HP. by right.
Qed.

Lemma mesh_curve_of o :
  mesh_of o = None ∨ curve_of o = None.
Proof. unfold mesh_of, curve_of. repeat case_decide; auto; congruence. Qed.

Lemma elem_of_scene_without os d x :
  x ∈ objects (scene_without os d) ↔
  x ∈ objects d ∧ ∀ o, o ∈ os → ¬ goes_with o x.
Proof. cbn. rewrite list_elem_of_filter, Forall_forall. tauto. Qed.

Lemma scene_without_nil d : scene_without [] d = d.
Proof.
  apply data_eq; cbn; try done; apply filter_all; intros; constructor.
Qed.

Lemma scene_without_cons o os d :
  scene_without os (scene_without [o] d) = scene_without (o :: os) d.
Proof.
  apply data_eq; cbn; try done;
    rewrite list_filter_filter; apply list_filter_iff; intros x;
    rewrite !Forall_cons, Forall_nil; tauto.
Qed.

(** The scene left depends on which handles are deleted only. *)
Lemma scene_without_equiv os os' d :
  (∀ o, o ∈ os ↔ o ∈ os') → scene_without os d = scene_without os' d.
Proof.
  intros Heq.
  apply data_eq; cbn; try done; apply list_filter_iff; intros x;
    rewrite !Forall_forall; split; intros Hall o Ho; apply Hall, Heq, Ho.
Qed.

Lemma collections_scene_without os d :
  collections (scene_without os d) = collections d.
Proof. done. Qed.

Lemma delete_object_Ok o d :
  o ∈ objects d → delete_object o d = Ok (scene_without [o] d).
Proof.
  intros Hin. unfold delete_object, alive.
  destruct (decide (o ∈ objects d)) as [_|?]; [|done]. rewrite bind_Ok.
  assert (Hobj : ∀ (P : Object → Prop) `{∀ x, Decision (P x)},
             (∀ x, P x ↔ ¬ shares_block o x) →
             filter P (filter (fun x => x ≠ o) (objects d))
             = filter (fun x => Forall (fun o => ¬ goes_with o x) [o])
                      (objects d)).
  { intros P ? HP. rewrite list_filter_filter. apply list_filter_iff.
    intros x. rewrite Forall_cons, Forall_nil, HP. unfold goes_with. tauto. }
  assert (Hobj' : ¬ is_Some (mesh_of o) → ¬ is_Some (curve_of o) →
             filter (fun x => x ≠ o) (objects d)
             = filter (fun x => Forall (fun o => ¬ goes_with o x) [o])
                      (objects d)).
  { intros Hm Hc. apply list_filter_iff. intros x.
    rewrite Forall_cons, Forall_nil. unfold goes_with, shares_block. tauto. }
  assert (Hlist : ∀ (blk : Object → option N) (l : list N),
             filter (fun m => Forall (fun o => blk o ≠ Some m) [o]) l
             = filter (fun m => blk o ≠ Some m) l).
  { intros blk l. apply list_filter_iff. intros m.
    rewrite Forall_cons, Forall_nil. tauto. }
  assert (Hkeep : ∀ (blk : Object → option N) (l : list N),
             blk o = None →
             filter (fun m => Forall (fun o => blk o ≠ Some m) [o]) l = l).
  { intros blk l Hnone. apply filter_all. intros m _.
    rewrite Forall_cons, Forall_nil, Hnone. done. }
  destruct (decide (ob_type o = "MESH")) as [Hmesh|Hmesh].
  - assert (Hc : curve_of o = None).
    { unfold curve_of. rewrite Hmesh. by rewrite decide_False. }
    assert (Hm : mesh_of o = ob_data o).
    { unfold mesh_of. by rewrite decide_True. }
    destruct (ob_data o) as [m|] eqn:Hdata.
    + f_equal. apply data_eq; cbn; try done.
      * apply Hobj. intros x. unfold shares_block. rewrite Hm, Hc.
        split.
        -- intros Hne [[_ ?]|[[? ?] _]]; done.
        -- intros Hno He. apply Hno. left. split; [by eexists|done].
      * rewrite Hlist, Hm.
        apply list_filter_iff. intros m'. split; congruence.
      * by rewrite Hkeep.
    + f_equal. apply data_eq; cbn; try done.
      * apply Hobj'; rewrite ?Hm, ?Hc; by intros [? ?].
      * rewrite Hkeep; [done|by rewrite Hm].
      * by rewrite Hkeep.
  - assert (Hm : mesh_of o = None).
    { unfold mesh_of. by rewrite decide_False. }
    destruct (decide (ob_type o = "CURVE")) as [Hcurve|Hcurve].
    + assert (Hc : curve_of o = ob_data o).
      { unfold curve_of. by rewrite decide_True. }
      destruct (ob_data o) as [c|] eqn:Hdata.
      * f_equal. apply data_eq; cbn; try done.
        -- apply Hobj. intros x. unfold shares_block. rewrite Hm, Hc.
           split.
           ++ intros Hne [[[? ?] _]|[_ ?]]; done.
           ++ intros Hno He. apply Hno. right. split; [by eexists|done].
        -- by rewrite Hkeep.
        -- rewrite Hlist, Hc.
           apply list_filter_iff. intros c'. split; congruence.
      * f_equal. apply data_eq; cbn; try done.
        -- apply Hobj'; rewrite ?Hm, ?Hc; by intros [? ?].
        -- by rewrite Hkeep.
        -- rewrite Hkeep; [done|by rewrite Hc].
    + assert (Hc : curve_of o = None).
      { unfold curve_of. by rewrite decide_False. }
      f_equal. apply data_eq; cbn; try done.
      * apply Hobj'; rewrite ?Hm, ?Hc; by intros [? ?].
      * by rewrite Hkeep.
      * by rewrite Hkeep.
Qed.

Lemma delete_object_Err o d :
  o ∉ objects d → delete_object o d = Err ReferenceError.
Proof.
  intros Hnot. unfold delete_object, alive.
  by destruct (decide (o ∈ objects d)).
Qed.

Lemma deletable_nil d : deletable [] d.
Proof. split; [constructor|]. split; constructor. Qed.

Lemma deletable_cons o os d :
  deletable (o :: os) d ↔ o ∈ objects d ∧ deletable os (scene_without [o] d).
Proof.
  unfold deletable.
  rewrite NoDup_cons, !Forall_cons. setoid_rewrite Forall_cons.
  rewrite !Forall_forall.
  setoid_rewrite elem_of_scene_without. setoid_rewrite Forall_forall.
  split.
  - intros ((Hnotin & Hnd) & (Hin & Hall) & (_ & Ho) & Hpair).
    split; [done|]. split; [done|]. split.
    + intros x Hx. split; [by apply Hall|].
      intros o' ->%list_elem_of_singleton [->|Hshare]; [done|].
      apply (Ho x Hx); [|done]. by intros ->.
    + intros x Hx. by apply Hpair.
  - intros (Hin & Hnd & Hall & Hpair).
    assert (Hnotin : o ∉ os).
    { intros Ho. destruct (Hall o Ho) as [_ Hno].
      apply (Hno o); [by left|by left]. }
    split; [done|]. split; [split; [done|]; intros x Hx; by apply Hall|].
    split.
    + split; [done|]. intros x Hx _ Hshare.
      destruct (Hall x Hx) as [_ Hno]. apply (Hno o); [by left|by right].
    + intros x Hx. split; [|by apply Hpair].
      intros _ Hshare. destruct (Hall x Hx) as [_ Hno].
      apply (Hno o); [by left|]. right. by apply shares_block_sym.
Qed.

(** [delete_objects] returns exactly when the handles can be deleted one
    after the other, and the scene it returns is the one without them. *)
Lemma delete_objects_eq os d :
  delete_objects os d
  = if decide (deletable os d) then Ok (scene_without os d)
    else Err ReferenceError.
Proof.
  revert d. induction os as [|o os IH]; intros d.
  - rewrite decide_True by apply deletable_nil.
    by rewrite scene_without_nil.
  - change (delete_objects (o :: os) d)
      with (d ← delete_object o d; delete_objects os d).
    destruct (decide (o ∈ objects d)) as [Hin|Hnot].
    + rewrite delete_object_Ok, bind_Ok, IH by done.
      destruct (decide (deletable os (scene_without [o] d))) as [Hd|Hd].
      * rewrite decide_True by by apply deletable_cons.
        by rewrite scene_without_cons.
      * rewrite decide_False; [done|]. by intros [_ ?]%deletable_cons.
    + rewrite delete_object_Err, bind_Err by done.
      rewrite decide_False; [done|]. by intros [? _]%deletable_cons.
Qed.

Lemma delete_objects_Ok os d d' :
  delete_objects os d = Ok d' ↔ deletable os d ∧ d' = scene_without os d.
Proof.
  rewrite delete_objects_eq. case_decide; split.
  - by intros [= <-].
  - by intros [_ ->].
  - done.
  - by intros [? _].
Qed.

Lemma delete_objects_Err os d e :
  delete_objects os d = Err e ↔ e = ReferenceError ∧ ¬ deletable os d.
Proof.
  rewrite delete_objects_eq. case_decide; split.
  - done.
  - by intros [_ ?].
  - by intros [= <-].
  - by intros [-> _].
Qed.

Lemma deletable_Permutation os os' d :
  os ≡ₚ os' → deletable os d → deletable os' d.
Proof.
  intros Hperm (Hnd & Hall & Hpair). split; [by rewrite <- Hperm|].
  split; [by rewrite <- Hperm|].
  rewrite Forall_forall in *. intros x Hx.
  rewrite <- Hperm in Hx. specialize (Hpair x Hx).
  by rewrite <- Hperm.
Qed.

(** With blocks that no object outside the handles uses, the objects that
    go are the handles. *)
Lemma elem_of_scene_without_unshared os d x :
  blocks_unshared os d →
  x ∈ objects (scene_without os d) ↔ x ∈ objects d ∧ x ∉ os.
Proof.
  intros Hun. rewrite elem_of_scene_without. split.
  - intros [Hin Hno]. split; [done|]. intros Hx. apply (Hno x Hx). by left.
  - intros [Hin Hnot]. split; [done|].
    intros o Ho [->|Hshare]; [done|]. apply Hnot. by apply (Hun o).
Qed.

(** ** Lookups by name *)

Lemma objects_getitem_Ok name d o :
  objects_getitem name d = Ok o → o ∈ objects d ∧ ob_name o = name.
Proof.
  unfold objects_getitem.
  destruct (List.find _ _) as [o'|] eqn:Hfind; [|done].
  intros [= ->]. apply find_some in Hfind as [Hin Hname].
  split; [by apply list_elem_of_In|]. by apply bool_decide_eq_true in Hname.
Qed.

Lemma objects_getitem_Err name d e :
  objects_getitem name d = Err e ↔
  e = KeyError name ∧ ∀ o, o ∈ objects d → ob_name o ≠ name.
Proof.
  unfold objects_getitem.
  destruct (List.find _ _) as [o'|] eqn:Hfind.
  - split; [done|]. intros [_ Hno].
    apply find_some in Hfind as [Hin Hname].
    apply bool_decide_eq_true in Hname.
    by apply list_elem_of_In, Hno in Hin.
  - split.
    + intros [= <-]. split; [done|]. intros o Hin Hname.
      apply list_elem_of_In in Hin.
      pose proof (find_none _ _ Hfind o Hin) as Hf.
      by apply bool_decide_eq_false in Hf.
    + by intros [-> _].
Qed.

(** C6. [get_object_by_name(name)], and with it
    [delete_object_by_name(name)], raises the host's lookup error
    ([KeyError]) exactly when the scene has no object of that name.  When
    there is one, [get_object_by_name] returns an object of the scene with
    that name, and [delete_object_by_name] returns a scene from which that
    object is gone: what is left are the objects that do not use its data
    block, which are all the other objects when no other object uses the
    block. *)
Theorem by_name_lookup_error (name : string) (d : data) :
  (∀ e, raises (get_object_by_name name d) e ↔
        e = KeyError name ∧ ∀ o, o ∈ objects d → ob_name o ≠ name) ∧
  (∀ e, raises (delete_object_by_name name d) e ↔
        e = KeyError name ∧ ∀ o, o ∈ objects d → ob_name o ≠ name) ∧
  (∀ o, o ∈ objects d → ob_name o = name →
        ∃ found d',
          get_object_by_name name d = Ok found ∧
          found ∈ objects d ∧ ob_name found = name ∧
          delete_object_by_name name d = Ok d' ∧
          (found ∉ objects d') ∧
          (∀ x, x ∈ objects d' ↔ x ∈ objects d ∧ ¬ goes_with found x) ∧
          (blocks_unshared [found] d →
           ∀ x, x ∈ objects d' ↔ x ∈ objects d ∧ x ≠ found)).
Proof.
  unfold raises, delete_object_by_name, get_object_by_name.
  split; [apply objects_getitem_Err|]. split.
  - intros e. destruct (objects_getitem name d) as [o|e0] eqn:Hget.
    + apply objects_getitem_Ok in Hget as [Hin Hn].
      rewrite bind_Ok, delete_object_Ok by done.
      split; [done|]. intros [_ Hno]. by apply Hno in Hin.
    + apply objects_getitem_Err in Hget as [-> Hno]. rewrite bind_Err.
      split; [by intros [= <-]|by intros [-> _]].
  - intros o Hin Hname.
    destruct (objects_getitem name d) as [found|e] eqn:Hget.
    + apply objects_getitem_Ok in Hget as Hfound. destruct Hfound as [Hf Hn].
      exists found, (scene_without [found] d).
      rewrite bind_Ok, delete_object_Ok by done.
      assert (Hleft : ∀ x, x ∈ objects (scene_without [found] d) ↔
                           x ∈ objects d ∧ ¬ goes_with found x).
      { intros x. rewrite elem_of_scene_without. split.
        - intros [? Hno]. split; [done|]. apply Hno. by left.
        - intros [? Hno]. split; [done|].
          by intros ? ->%list_elem_of_singleton. }
      split; [done|]. split; [done|]. split; [done|]. split; [done|].
      split; [|split; [done|]].
      * rewrite Hleft. intros [_ Hno]. apply Hno. by left.
      * intros Hun x. rewrite elem_of_scene_without_unshared by done.
        by rewrite list_elem_of_singleton.
    + apply objects_getitem_Err in Hget as [_ Hno]. by apply Hno in Hin.
Qed.

(** ** color_to_colordict *)

Lemma colordict_lookup {K} `{Countable K} (color : Arg (gmap K Value))
    (keys : list K) (dflt : Value) (key : K) :
  key ∈ keys →
  color_to_colordict color keys dflt !! key
  = Some (specwords.resolve color dflt key).
Proof.
  intros Hin. unfold color_to_colordict.
  rewrite (dict_lookup_keyed _ keys key Hin).
  destruct color as [|overrides|c]; cbn; [done| |done].
  by destruct (overrides !! key).
Qed.

Lemma colordict_getitem_Ok {K} `{Countable K} (color : Arg (gmap K Value))
    (keys : list K) (dflt : Value) (key : K) (show : K → string) :
  key ∈ keys →
  colordict_getitem (color_to_colordict color keys dflt) key show
  = Ok (specwords.resolve color dflt key).
Proof.
  intros Hin. unfold colordict_getitem. by rewrite colordict_lookup.
Qed.

Lemma list_or_selection {A} (given : option (list A)) (all : list A) :
  list_or given all = specwords.selection given all.
Proof. by destruct given as [[|x l]|]. Qed.

(** ** networkartist.py *)

Section network_artist.
Import networkartist hostlaws specwords.
Context {XYZ : Type} `{host : BlenderDrawing XYZ}.

Implicit Types (self : NetworkArtist XYZ) (d : data).

Lemma object_node_eq self : object_node self = _object_node self.
Proof. unfold object_node. by case_decide. Qed.

Lemma object_edge_eq self : object_edge self = _object_edge self.
Proof. unfold object_edge. by case_decide. Qed.

Lemma object_path_eq self : object_path self = _object_path self.
Proof. unfold object_path. by case_decide. Qed.

Lemma tracked_eq self : tracked self = previously_drawn self.
Proof.
  unfold tracked, previously_drawn.
  by rewrite object_node_eq, object_edge_eq, object_path_eq.
Qed.

Lemma elem_of_tracked self o :
  o ∈ tracked self ↔
  is_Some (_object_node self !! o) ∨ is_Some (_object_edge self !! o) ∨
  is_Some (_object_path self !! o).
Proof.
  rewrite tracked_eq. unfold previously_drawn.
  by rewrite !elem_of_app, !elem_of_keys.
Qed.

(** *** The descriptors *)

Lemma node_point_Ok (net : Network XYZ) color dflt node p :
  node_point net color dflt node = Ok p ↔
  ∃ pos, node_xyz net node = Some pos ∧
         p = {| pt_pos := pos;
                pt_name := net_name net +:+ ".node." +:+ str node;
                pt_color := resolve color dflt node;
                pt_radius := 0.05 |}.
Proof.
  unfold node_point, node_coordinates.
  destruct (node_xyz net node) as [pos|]; cbn.
  - split; [intros [= <-]; by exists pos|]. by intros (? & [= <-] & ->).
  - split; [done|]. by intros (? & ? & _).
Qed.

Lemma edge_line_Ok (net : Network XYZ) color dflt edge l :
  edge_line net color dflt edge = Ok l ↔
  ∃ start end_, node_xyz net edge.1 = Some start ∧
                node_xyz net edge.2 = Some end_ ∧
                l = {| ln_start := start;
                       ln_end := end_;
                       ln_color := resolve color dflt edge;
                       ln_name := net_name net +:+ ".edge." +:+ str edge.1
                                  +:+ "-" +:+ str edge.2;
                       ln_width := 0.02 |}.
Proof.
  unfold edge_line, node_coordinates.
  destruct (node_xyz net edge.1) as [start|]; cbn.
  - destruct (node_xyz net edge.2) as [end_|]; cbn.
    + split; [intros [= <-]; by eexists _, _|].
      by intros (? & ? & [= <-] & [= <-] & ->).
    + split; [done|]. by intros (? & ? & _ & ? & _).
  - split; [done|]. by intros (? & ? & ? & _).
Qed.

Lemma node_points_total (net : Network XYZ) color dflt nodes :
  has_nodes net nodes →
  ∃ points, mapM (node_point net color dflt) nodes = Ok points.
Proof.
  intros Hhas. apply mapM_total. eapply Forall_impl; [exact Hhas|].
  intros node [pos Hpos]. eexists. apply node_point_Ok. by exists pos.
Qed.

Lemma edge_lines_total (net : Network XYZ) color dflt edges :
  has_ends net edges →
  ∃ lines, mapM (edge_line net color dflt) edges = Ok lines.
Proof.
  intros Hhas. apply mapM_total. eapply Forall_impl; [exact Hhas|].
  intros edge [[start Hstart] [end_ Hend]]. eexists.
  apply edge_line_Ok. by exists start, end_.
Qed.

Lemma node_points_has (net : Network XYZ) color dflt nodes points :
  mapM (node_point net color dflt) nodes = Ok points → has_nodes net nodes.
Proof.
  intros Hall%mapM_Ok_Forall2. unfold has_nodes.
  induction Hall as [|node p ? ? (pos & Hpos & _)%node_point_Ok];
    constructor; [by exists pos|done].
Qed.

Lemma edge_lines_has (net : Network XYZ) color dflt edges lines :
  mapM (edge_line net color dflt) edges = Ok lines → has_ends net edges.
Proof.
  intros Hall%mapM_Ok_Forall2. unfold has_ends.
  induction Hall as [|edge l ? ? (start & end_ & Hs & He & _)%edge_line_Ok];
    constructor; [|done]. split; by eexists.
Qed.

Lemma node_points_described (net : Network XYZ) color dflt N0 N points :
  (∀ node, node ∈ N → node ∈ N0) →
  mapM (node_point net color dflt) N = Ok points →
  Forall2 (fun node p =>
             node_coordinates net node = Ok (pt_pos p) ∧
             pt_name p = net_name net +:+ ".node." +:+ str node ∧
             color_to_colordict color N0 dflt !! node = Some (pt_color p))
          N points.
Proof.
  intros Hsub Hall%mapM_Ok_Forall2.
  induction Hall as [|node p l k Hp _ IH]; [constructor|].
  constructor.
  - apply node_point_Ok in Hp as (pos & Hpos & ->). cbn.
    split; [by apply lookup_key_Some|]. split; [done|].
    apply colordict_lookup, Hsub. by left.
  - apply IH. intros node' Hin. apply Hsub. by right.
Qed.

Lemma edge_lines_described (net : Network XYZ) color dflt E0 E lines :
  (∀ edge, edge ∈ E → edge ∈ E0) →
  mapM (edge_line net color dflt) E = Ok lines →
  Forall2 (fun edge l =>
             node_coordinates net edge.1 = Ok (ln_start l) ∧
             node_coordinates net edge.2 = Ok (ln_end l) ∧
             ln_name l = net_name net +:+ ".edge." +:+ str edge.1 +:+ "-"
                         +:+ str edge.2 ∧
             color_to_colordict color E0 dflt !! edge = Some (ln_color l))
          E lines.
Proof.
  intros Hsub Hall%mapM_Ok_Forall2.
  induction Hall as [|edge l E' k Hl _ IH]; [constructor|].
  constructor.
  - apply edge_line_Ok in Hl as (start & end_ & Hs & He & ->). cbn.
    split; [by apply lookup_key_Some|].
    split; [by apply lookup_key_Some|]. split; [done|].
    apply colordict_lookup, Hsub. by left.
  - apply IH. intros edge' Hin. apply Hsub. by right.
Qed.

(** *** The collections *)

Lemma nodecollection_Ok self d c self1 d1 :
  nodecollection self d = Ok (c, self1, d1) →
  same_drawing_state self self1 ∧
  (d1 = d ∨ d1 = (create_collections_from_path "Network::Nodes" d).2).
Proof.
  unfold nodecollection, same_drawing_state.
  destruct (_nodecollection self).
  - intros [= <- <- <-]. auto 10.
  - destruct (create_collections_from_path _ d) as [cs d2]. cbn.
    destruct (index cs 1) as [c'|]; cbn; [|done].
    intros [= <- <- <-]. cbn. auto 10.
Qed.

Lemma edgecollection_Ok self d c self1 d1 :
  edgecollection self d = Ok (c, self1, d1) →
  same_drawing_state self self1 ∧
  (d1 = d ∨ d1 = (create_collections_from_path "Network::Edges" d).2).
Proof.
  unfold edgecollection, same_drawing_state.
  destruct (_edgecollection self).
  - intros [= <- <- <-]. auto 10.
  - destruct (create_collections_from_path _ d) as [cs d2]. cbn.
    destruct (index cs 1) as [c'|]; cbn; [|done].
    intros [= <- <- <-]. cbn. auto 10.
Qed.

Lemma nodecollection_words self d :
  nodecollection self d =
    '(c, d1) ← collection_in_words (_nodecollection self) "Network::Nodes" d;
    Ok (c, with_collections (Some c) (_edgecollection self) self, d1).
Proof.
  unfold nodecollection, collection_in_words.
  destruct self as [[c|] ? ? ? ? ? ? ? ?]; cbn; [done|].
  destruct (create_collections_from_path _ d) as [cs d2]. cbn.
  by destruct (index cs 1).
Qed.

Lemma edgecollection_words self d :
  edgecollection self d =
    '(c, d1) ← collection_in_words (_edgecollection self) "Network::Edges" d;
    Ok (c, with_collections (_nodecollection self) (Some c) self, d1).
Proof.
  unfold edgecollection, collection_in_words.
  destruct self as [? [c|] ? ? ? ? ? ? ?]; cbn; [done|].
  destruct (create_collections_from_path _ d) as [cs d2]. cbn.
  by destruct (index cs 1).
Qed.

(** *** [draw_nodes] and [draw_edges] *)

(** [draw_nodes], once the default colour is known: the loop builds
    [node_point] for each selected node, and stops at a node the network
    does not have. *)
Lemma draw_nodes_eq nodes color self d dflt :
  settings self !! "color.nodes" = Some dflt →
  draw_nodes nodes color self d =
    let N := selection nodes (net_nodes (network self)) in
    points ← mapM (node_point (network self) color dflt) N;
    '(c, self1, d1) ← nodecollection self d;
    let r := draw_points points c d1 in
    Ok (r.1, set_object_node (zip r.1 N) self1, r.2).
Proof.
  intros Hdflt. unfold draw_nodes.
  rewrite (getitem_Some _ _ _ Hdflt), bind_Ok. cbv zeta.
  rewrite list_or_selection.
  rewrite (mapM_ext_in _ (node_point (network self) color dflt)).
  - destruct (mapM _ _) as [points|e]; [|done]. rewrite !bind_Ok.
    destruct (nodecollection self d) as [[[c self1] d1]|e]; [|done].
    rewrite !bind_Ok. by destruct (draw_points _ c d1).
  - intros node Hin. unfold node_point.
    destruct (node_coordinates _ node); [|done].
    by rewrite !bind_Ok, colordict_getitem_Ok.
Qed.

Lemma draw_edges_eq edges color self d dflt :
  settings self !! "color.edges" = Some dflt →
  draw_edges edges color self d =
    let E := selection edges (net_edges (network self)) in
    lines ← mapM (edge_line (network self) color dflt) E;
    '(c, self1, d1) ← edgecollection self d;
    let r := draw_lines lines c d1 in
    Ok (r.1, set_object_edge (zip r.1 E) self1, r.2).
Proof.
  intros Hdflt. unfold draw_edges.
  rewrite (getitem_Some _ _ _ Hdflt), bind_Ok. cbv zeta.
  rewrite list_or_selection.
  rewrite (mapM_ext_in _ (edge_line (network self) color dflt)).
  - destruct (mapM _ _) as [lines|e]; [|done]. rewrite !bind_Ok.
    destruct (edgecollection self d) as [[[c self1] d1]|e]; [|done].
    rewrite !bind_Ok. by destruct (draw_lines _ c d1).
  - intros edge Hin. unfold edge_line.
    destruct (node_coordinates _ edge.1); [|done]. rewrite !bind_Ok.
    destruct (node_coordinates _ edge.2); [|done].
    by rewrite !bind_Ok, colordict_getitem_Ok.
Qed.

Lemma draw_nodes_Ok nodes color self d objs self' d' :
  draw_nodes nodes color self d = Ok (objs, self', d') →
  ∃ dflt points c self1 d1,
    settings self !! "color.nodes" = Some dflt ∧
    mapM (node_point (network self) color dflt)
         (selection nodes (net_nodes (network self))) = Ok points ∧
    nodecollection self d = Ok (c, self1, d1) ∧
    draw_points points c d1 = (objs, d') ∧
    self' = set_object_node
              (zip objs (selection nodes (net_nodes (network self)))) self1.
Proof.
  intros Hdraw.
  destruct (settings self !! "color.nodes") as [dflt|] eqn:Hdflt.
  - rewrite (draw_nodes_eq _ _ _ _ dflt Hdflt) in Hdraw. cbv zeta in Hdraw.
    destruct (mapM _ _) as [points|e] eqn:Hpoints; [|done].
    rewrite bind_Ok in Hdraw.
    destruct (nodecollection self d) as [[[c self1] d1]|e]; [|done].
    rewrite bind_Ok in Hdraw. injection Hdraw as <- <- <-.
    exists dflt, points, c, self1, d1.
    split; [done|]. split; [done|]. split; [done|].
    split; [|done]. by destruct (draw_points _ c d1).
  - unfold draw_nodes, getitem in Hdraw. by rewrite Hdflt in Hdraw.
Qed.

Lemma draw_edges_Ok edges color self d objs self' d' :
  draw_edges edges color self d = Ok (objs, self', d') →
  ∃ dflt lines c self1 d1,
    settings self !! "color.edges" = Some dflt ∧
    mapM (edge_line (network self) color dflt)
         (selection edges (net_edges (network self))) = Ok lines ∧
    edgecollection self d = Ok (c, self1, d1) ∧
    draw_lines lines c d1 = (objs, d') ∧
    self' = set_object_edge
              (zip objs (selection edges (net_edges (network self)))) self1.
Proof.
  intros Hdraw.
  destruct (settings self !! "color.edges") as [dflt|] eqn:Hdflt.
  - rewrite (draw_edges_eq _ _ _ _ dflt Hdflt) in Hdraw. cbv zeta in Hdraw.
    destruct (mapM _ _) as [lines|e] eqn:Hlines; [|done].
    rewrite bind_Ok in Hdraw.
    destruct (edgecollection self d) as [[[c self1] d1]|e]; [|done].
    rewrite bind_Ok in Hdraw. injection Hdraw as <- <- <-.
    exists dflt, lines, c, self1, d1.
    split; [done|]. split; [done|]. split; [done|].
    split; [|done]. by destruct (draw_lines _ c d1).
  - unfold draw_edges, getitem in Hdraw. by rewrite Hdflt in Hdraw.
Qed.

(** Neither component method touches the settings. *)
Lemma draw_nodes_settings nodes color self d objs self' d' :
  draw_nodes nodes color self d = Ok (objs, self', d') →
  settings self' = settings self ∧ network self' = network self ∧
  base_objects self' = base_objects self ∧
  _object_edge self' = _object_edge self ∧
  _object_path self' = _object_path self.
Proof.
  intros (dflt & points & c & self1 & d1 & _ & _ & Hc & _ & ->)%draw_nodes_Ok.
  apply nodecollection_Ok in Hc as [(? & ? & ? & ? & ? & ?) _]. by cbn.
Qed.

Lemma draw_edges_settings edges color self d objs self' d' :
  draw_edges edges color self d = Ok (objs, self', d') →
  settings self' = settings self ∧ network self' = network self ∧
  base_objects self' = base_objects self ∧
  _object_node self' = _object_node self ∧
  _object_path self' = _object_path self.
Proof.
  intros (dflt & lines & c & self1 & d1 & _ & _ & Hc & _ & ->)%draw_edges_Ok.
  apply edgecollection_Ok in Hc as [(? & ? & ? & ? & ? & ?) _]. by cbn.
Qed.

(** Without a selection and a colour, the component methods do what the
    words "draws nodes" and "draws edges" say. *)
Lemma draw_nodes_words self d :
  draw_nodes None ArgNone self d = nodes_in_words self d.
Proof.
  unfold nodes_in_words.
  destruct (settings self !! "color.nodes") as [dflt|] eqn:Hdflt.
  - rewrite (draw_nodes_eq _ _ _ _ dflt Hdflt), (getitem_Some _ _ _ Hdflt).
    rewrite bind_Ok. cbv zeta. cbn [selection].
    destruct (mapM _ _) as [points|e]; [|done]. rewrite !bind_Ok.
    rewrite nodecollection_words.
    destruct (collection_in_words _ _ d) as [[c d1]|e]; [|done].
    by rewrite !bind_Ok.
  - unfold draw_nodes, getitem. by rewrite Hdflt.
Qed.

Lemma draw_edges_words self d :
  draw_edges None ArgNone self d = edges_in_words self d.
Proof.
  unfold edges_in_words.
  destruct (settings self !! "color.edges") as [dflt|] eqn:Hdflt.
  - rewrite (draw_edges_eq _ _ _ _ dflt Hdflt), (getitem_Some _ _ _ Hdflt).
    rewrite bind_Ok. cbv zeta. cbn [selection].
    destruct (mapM _ _) as [lines|e]; [|done]. rewrite !bind_Ok.
    rewrite edgecollection_words.
    destruct (collection_in_words _ _ d) as [[c d1]|e]; [|done].
    by rewrite !bind_Ok.
  - unfold draw_edges, getitem. by rewrite Hdflt.
Qed.

(** *** [clear] *)

Lemma clear_words self d : clear self d = cleared self d.
Proof.
  unfold clear, cleared. rewrite delete_objects_eq, tracked_eq.
  by case_decide.
Qed.

Lemma clear_Ok self d self0 d0 :
  clear self d = Ok (self0, d0) ↔
  deletable (tracked self) d ∧ self0 = tracking ∅ ∅ ∅ self ∧
  d0 = scene_without (tracked self) d.
Proof.
  rewrite clear_words. unfold cleared. rewrite <- tracked_eq.
  case_decide; split.
  - by intros [= <- <-].
  - by intros (_ & -> & ->).
  - done.
  - by intros [? _].
Qed.

Lemma clear_Err self d e :
  clear self d = Err e ↔ e = ReferenceError ∧ ¬ deletable (tracked self) d.
Proof.
  rewrite clear_words. unfold cleared. rewrite <- tracked_eq.
  case_decide; split.
  - done.
  - by intros [_ ?].
  - by intros [= <-].
  - by intros [-> _].
Qed.

Lemma tracked_tracking_empty self : tracked (tracking ∅ ∅ ∅ self) = [].
Proof. rewrite tracked_eq. unfold previously_drawn. cbn. by rewrite !keys_empty. Qed.

Lemma tracked_start m self :
  tracked (with_settings m (tracking ∅ ∅ ∅ self)) = [].
Proof. exact (tracked_tracking_empty self). Qed.

(** An artist that tracks nothing is cleared already. *)
Lemma clear_tracking_empty self d :
  clear (tracking ∅ ∅ ∅ self) d = Ok (tracking ∅ ∅ ∅ self, d).
Proof.
  apply clear_Ok. rewrite tracked_tracking_empty.
  split; [apply deletable_nil|]. split; [done|].
  by rewrite scene_without_nil.
Qed.

(** *** [draw] *)

Lemma given_settings_eq (s : option (gmap string Value)) :
  match s with
  | Some s0 => if decide (s0 = ∅) then ∅ else s0
  | None => ∅
  end = given_settings s.
Proof. destruct s as [s0|]; [|done]. cbn. by case_decide. Qed.

Lemma nodes_in_words_frame self d objs self' d' :
  nodes_in_words self d = Ok (objs, self', d') →
  settings self' = settings self ∧ base_objects self' = base_objects self ∧
  network self' = network self.
Proof.
  rewrite <- draw_nodes_words.
  by intros (? & ? & ? & _)%draw_nodes_settings.
Qed.

Lemma edges_in_words_frame self d objs self' d' :
  edges_in_words self d = Ok (objs, self', d') →
  settings self' = settings self ∧ base_objects self' = base_objects self ∧
  network self' = network self.
Proof.
  rewrite <- draw_edges_words.
  by intros (? & ? & ? & _)%draw_edges_settings.
Qed.

Lemma draw_words s self d :
  draw s self d = draw_in_words (given_settings s) self d.
Proof.
  unfold draw, draw_in_words. rewrite given_settings_eq, clear_words.
  destruct (cleared self d) as [[self0 d0]|e]; [|done]. rewrite !bind_Ok.
  cbv zeta. unfold update.
  change (settings (set_settings ?x ?y)) with x.
  change (set_settings ?x ?y) with (with_settings x y).
  destruct (getitem _ "show.nodes") as [sn|]; [|done]. rewrite !bind_Ok.
  assert (Hedges : ∀ self2 d2,
    settings self2 = given_settings s ∪ settings self0 →
    (show_edges ← getitem (settings self2) "show.edges";
     '(self3, d3) ← (if truthy show_edges
                     then '(_, self3, d3) ← draw_edges None ArgNone self2 d2;
                          Ok (self3, d3)
                     else Ok (self2, d2));
     Ok (base_objects self3, self3, d3))
    = (show_edges ← getitem (given_settings s ∪ settings self0) "show.edges";
       '(self3, d3) ← (if truthy show_edges
                       then '(_, self3, d3) ← edges_in_words self2 d2;
                            Ok (self3, d3)
                       else Ok (self2, d2));
       Ok (base_objects self3, self3, d3))).
  { intros self2 d2 ->. by rewrite draw_edges_words. }
  destruct (truthy sn).
  - rewrite draw_nodes_words.
    destruct (nodes_in_words _ d0) as [[[objs self2] d2]|e] eqn:Hn; [|done].
    rewrite !bind_Ok. apply Hedges.
    by apply nodes_in_words_frame in Hn as [-> _].
  - rewrite !bind_Ok. by apply Hedges.
Qed.

Lemma settings_ok_union (s st : gmap string Value) :
  settings_ok st → settings_ok (s ∪ st).
Proof.
  unfold settings_ok. rewrite !lookup_union_is_Some. tauto.
Qed.

(** What a [draw] that returns has done, step by step. *)
Lemma draw_Ok s self d r self' d' :
  draw s self d = Ok (r, self', d') →
  let merged := given_settings s ∪ settings self in
  ∃ sn se self2 d2,
    deletable (tracked self) d ∧
    merged !! "show.nodes" = Some sn ∧
    merged !! "show.edges" = Some se ∧
    (if truthy sn
     then ∃ objs,
            draw_nodes None ArgNone
              (with_settings merged (tracking ∅ ∅ ∅ self))
              (scene_without (tracked self) d) = Ok (objs, self2, d2)
     else self2 = with_settings merged (tracking ∅ ∅ ∅ self) ∧
          d2 = scene_without (tracked self) d) ∧
    (if truthy se
     then ∃ objs, draw_edges None ArgNone self2 d2 = Ok (objs, self', d')
     else self' = self2 ∧ d' = d2) ∧
    settings self2 = merged ∧
    r = base_objects self'.
Proof.
  intros Hdraw merged. unfold draw in Hdraw.
  rewrite given_settings_eq in Hdraw.
  destruct (clear self d) as [[self0 d0]|e] eqn:Hclear; [|done].
  apply clear_Ok in Hclear as (Hdel & -> & ->).
  rewrite !bind_Ok in Hdraw. cbv zeta in Hdraw. unfold update in Hdraw.
  change (settings (set_settings ?x ?y)) with x in Hdraw.
  change (set_settings ?x ?y) with (with_settings x y) in Hdraw.
  change (settings (tracking ∅ ∅ ∅ self)) with (settings self) in Hdraw.
  fold merged in Hdraw.
  destruct (getitem merged "show.nodes") as [sn|] eqn:Hsn; [|done].
  apply getitem_Ok in Hsn. rewrite !bind_Ok in Hdraw.
  assert (Hnodes : ∃ self2 d2,
    (if truthy sn
     then '(_, self2, d2) ← draw_nodes None ArgNone
                              (with_settings merged (tracking ∅ ∅ ∅ self))
                              (scene_without (tracked self) d);
          Ok (self2, d2)
     else Ok (with_settings merged (tracking ∅ ∅ ∅ self),
              scene_without (tracked self) d)) = Ok (self2, d2) ∧
    settings self2 = merged ∧
    (if truthy sn
     then ∃ objs,
            draw_nodes None ArgNone
              (with_settings merged (tracking ∅ ∅ ∅ self))
              (scene_without (tracked self) d) = Ok (objs, self2, d2)
     else self2 = with_settings merged (tracking ∅ ∅ ∅ self) ∧
          d2 = scene_without (tracked self) d)).
  { destruct (truthy sn).
    - destruct (draw_nodes None ArgNone _ _) as [[[objs self2] d2]|e] eqn:Hn;
        [|done].
      exists self2, d2. split; [done|].
      split; [by apply draw_nodes_settings in Hn as [-> _]|by exists objs].
    - by eexists _, _. }
  destruct Hnodes as (self2 & d2 & Heq & Hs2 & Hn). rewrite Heq in Hdraw.
  rewrite !bind_Ok in Hdraw. rewrite Hs2 in Hdraw.
  destruct (getitem merged "show.edges") as [se|] eqn:Hse; [|done].
  apply getitem_Ok in Hse. rewrite !bind_Ok in Hdraw.
  exists sn, se, self2, d2.
  split; [done|]. split; [done|]. split; [done|]. split; [done|].
  destruct (truthy se).
  - destruct (draw_edges None ArgNone self2 d2) as [[[objs self3] d3]|e]
      eqn:He; [|done].
    rewrite !bind_Ok in Hdraw. injection Hdraw as <- <- <-.
    split; [by exists objs|done].
  - rewrite !bind_Ok in Hdraw. by injection Hdraw as <- <- <-.
Qed.

Lemma draw_Ok_frame s self d r self' d' :
  draw s self d = Ok (r, self', d') →
  settings self' = given_settings s ∪ settings self ∧
  network self' = network self ∧
  base_objects self' = base_objects self.
Proof.
  intros (sn & se & self2 & d2 & _ & _ & _ & Hn & He & Hs2 & _)%draw_Ok.
  assert (Hframe2 : network self2 = network self ∧
                    base_objects self2 = base_objects self).
  { destruct (truthy sn).
    - destruct Hn as [objs Hn].
      by apply draw_nodes_settings in Hn as (_ & ? & ? & _).
    - by destruct Hn as [-> _]. }
  destruct Hframe2 as [Hnet2 Hbase2].
  destruct (truthy se).
  - destruct He as [objs He].
    apply draw_edges_settings in He as (-> & -> & -> & _). by rewrite Hs2.
  - destruct He as [-> _]. by rewrite Hs2.
Qed.

(** [draw] starts with [clear()]: it does what it does after a
    [clear()]. *)
Lemma draw_from_cleared s self d :
  draw s self d = ('(self0, d0) ← clear self d; draw s self0 d0).
Proof.
  destruct (clear self d) as [[self0 d0]|e] eqn:Hclear.
  - rewrite bind_Ok. apply clear_Ok in Hclear as Hc.
    destruct Hc as (_ & -> & ->).
    unfold draw at 2. rewrite clear_tracking_empty, bind_Ok.
    unfold draw. by rewrite Hclear, bind_Ok.
  - rewrite bind_Err. unfold draw. by rewrite Hclear.
Qed.

End network_artist.
(** ** The claims about the network artist *)

Section network_claims.
Import networkartist hostlaws specwords.
Context {XYZ : Type} `{host : BlenderDrawing XYZ}.

Implicit Types (self : NetworkArtist XYZ) (d : data).

(** C1. [draw_nodes(nodes, color)]: with [N] the given nodes if there are
    any and all nodes of the network otherwise - nodes the network has
    coordinates for -, the function builds one point descriptor per node
    of [N], in order (position [network.node_coordinates(node)], name
    [{network.name}.node.{node}], colour read from
    [color_to_colordict(color, N, default)] with the default
    [settings['color.nodes']]), hands that list to the host's
    [draw_points] together with the node collection, returns the handles
    the host returns, and stores [dict(zip(handles, N))] as [object_node]:
    with distinct handles, each handle is paired with the node at its
    position. *)
Theorem draw_nodes_descriptors nodes color self d dflt c self1 d1 :
  settings self !! "color.nodes" = Some dflt →
  nodecollection self d = Ok (c, self1, d1) →
  has_nodes (network self) (selection nodes (net_nodes (network self))) →
  let N := selection nodes (net_nodes (network self)) in
  ∃ points objs self' d',
    Forall2 (fun node p =>
               node_coordinates (network self) node = Ok (pt_pos p) ∧
               pt_name p = net_name (network self) +:+ ".node." +:+ str node ∧
               color_to_colordict color N dflt !! node = Some (pt_color p))
            N points ∧
    draw_points points c d1 = (objs, d') ∧
    draw_nodes nodes color self d = Ok (objs, self', d') ∧
    object_node self' = dict (zip objs N) ∧
    (NoDup objs → ∀ i o node,
        objs !! i = Some o → N !! i = Some node →
        object_node self' !! o = Some node).
Proof.
  intros Hdflt Hcoll Hhas N.
  destruct (node_points_total (network self) color dflt N Hhas)
    as [points Hpoints].
  pose proof (draw_nodes_eq nodes color self d dflt Hdflt) as Heq.
  cbv zeta in Heq. fold N in Heq.
  rewrite Hpoints, Hcoll, !bind_Ok in Heq.
  destruct (draw_points points c d1) as [objs d'] eqn:Hdraw. cbn in Heq.
  exists points, objs, (set_object_node (zip objs N) self1), d'.
  assert (Hnode : object_node (set_object_node (zip objs N) self1)
                  = dict (zip objs N)) by by rewrite object_node_eq.
  split; [|split; [done|split; [done|split; [done|]]]].
  - by apply node_points_described.
  - intros Hnd i o node Ho Hn. rewrite Hnode.
    by eapply dict_zip_lookup.
Qed.

(** C3. [draw(settings=s)] first clears the objects drawn before (they
    leave the scene and the tracking dictionaries), then merges [s] into
    the artist's settings (the values of [s] win), and then draws the
    nodes if and only if the merged [show.nodes] is true and the edges if
    and only if the merged [show.edges] is true: the code computes what
    [draw_in_words] describes, and the settings it leaves are the merged
    ones. *)
Theorem draw_clears_merges_draws (s : option (gmap string Value)) self d :
  draw s self d = draw_in_words (given_settings s) self d ∧
  (∀ r self' d', draw s self d = Ok (r, self', d') →
                 settings self' = given_settings s ∪ settings self).
Proof.
  split; [apply draw_words|].
  intros r self' d' Hdraw. by apply draw_Ok_frame in Hdraw as [? _].
Qed.


(** ** Settings over sequences of operations *)

Lemma run_op_settings op self d self' d' :
  run_op op self d = Ok (self', d') →
  settings self' = match op with
                   | OpDraw s => given_settings s ∪ settings self
                   | _ => settings self
                   end.
Proof.
  destruct op as [s|nodes color|edges color|]; unfold run_op.
  - destruct (draw s self d) as [[[r self2] d2]|e] eqn:Hdraw; cbn; [|done].
    intros [= <- <-]. by apply draw_Ok_frame in Hdraw as [? _].
  - destruct (draw_nodes nodes color self d) as [[[r self2] d2]|e] eqn:Hdraw;
      cbn; [|done].
    intros [= <- <-]. by apply draw_nodes_settings in Hdraw as [? _].
  - destruct (draw_edges edges color self d) as [[[r self2] d2]|e] eqn:Hdraw;
      cbn; [|done].
    intros [= <- <-]. by apply draw_edges_settings in Hdraw as [? _].
  - by intros (_ & -> & _)%clear_Ok.
Qed.

Lemma run_ops_keeps_setting k v ops self d self' d' :
  settings self !! k = Some v →
  Forall (fun op => ¬ overrides k op) ops →
  run_ops ops self d = Ok (self', d') →
  settings self' !! k = Some v.
Proof.
  revert self d. induction ops as [|op ops IH]; intros self d Hk Hops.
  - by intros [= <- <-].
  - apply Forall_cons in Hops as [Hop Hops].
    change (run_ops (op :: ops) self d)
      with ('(self, d) ← run_op op self d; run_ops ops self d).
    destruct (run_op op self d) as [[self1 d1]|e] eqn:Hrun; cbn; [|done].
    apply IH; [|done].
    rewrite (run_op_settings _ _ _ _ _ Hrun).
    destruct op as [[s|]| | |]; cbn in *; try done.
    + rewrite lookup_union_r; [done|].
      destruct (s !! k) eqn:Hs; [|done]. exfalso. apply Hop. by eexists.
    + by rewrite (left_id_L ∅ (∪)).
Qed.

(** C9. The settings passed to [draw] are merged into the artist's own
    settings for good: when [draw(settings=s)] returns, [self.settings[k]]
    is [s[k]] for every key [k] of [s]; every other key of the settings is
    as it was; and the overrides stay through all later operations that do
    not override [k] again. *)
Theorem settings_merge_is_permanent (s : gmap string Value) self d r self1 d1 :
  draw (Some s) self d = Ok (r, self1, d1) →
  (∀ k v, s !! k = Some v → settings self1 !! k = Some v) ∧
  (∀ k, s !! k = None → settings self1 !! k = settings self !! k) ∧
  (∀ k v ops self2 d2,
     s !! k = Some v →
     Forall (fun op => ¬ overrides k op) ops →
     run_ops ops self1 d1 = Ok (self2, d2) →
     settings self2 !! k = Some v).
Proof.
  intros Hdraw. apply draw_Ok_frame in Hdraw as (Hs & _). cbn in Hs.
  assert (Hin : ∀ k v, s !! k = Some v → settings self1 !! k = Some v).
  { intros k v Hk. rewrite Hs. by apply lookup_union_Some_l. }
  split; [done|]. split.
  - intros k Hk. rewrite Hs. by apply lookup_union_r.
  - intros k v ops self2 d2 Hk Hops Hrun.
    eapply run_ops_keeps_setting; [|done..]. by apply Hin.
Qed.

End network_claims.
(** ** The tracking dictionaries and the host scene *)

Section tracking_invariant.
Import networkartist hostlaws specwords.
Context {XYZ : Type} `{host : BlenderDrawing XYZ}.

Implicit Types (self : NetworkArtist XYZ) (d : data).

Section with_laws.
Context {laws : BlenderDrawingLaws host}.

Lemma nodecollection_objects self d c self1 d1 :
  nodecollection self d = Ok (c, self1, d1) → objects d1 = objects d.
Proof.
  intros [_ [->| ->]]%nodecollection_Ok; [done|]. apply collections_keep.
Qed.

Lemma edgecollection_objects self d c self1 d1 :
  edgecollection self d = Ok (c, self1, d1) → objects d1 = objects d.
Proof.
  intros [_ [->| ->]]%edgecollection_Ok; [done|]. apply collections_keep.
Qed.

Lemma nodecollection_total self d :
  ∃ c self1 d1, nodecollection self d = Ok (c, self1, d1).
Proof.
  destruct (nodecollection self d) as [[[c self1] d1]|e] eqn:Hc;
    [by eexists _, _, _|].
  exfalso. unfold nodecollection in Hc.
  destruct (_nodecollection self); [done|].
  pose proof (collections_nodes d) as [c Hsome].
  destruct (create_collections_from_path _ d) as [cs d2]. cbn in *.
  unfold index in Hc. by rewrite Hsome in Hc.
Qed.

Lemma edgecollection_total self d :
  ∃ c self1 d1, edgecollection self d = Ok (c, self1, d1).
Proof.
  destruct (edgecollection self d) as [[[c self1] d1]|e] eqn:Hc;
    [by eexists _, _, _|].
  exfalso. unfold edgecollection in Hc.
  destruct (_edgecollection self); [done|].
  pose proof (collections_edges d) as [c Hsome].
  destruct (create_collections_from_path _ d) as [cs d2]. cbn in *.
  unfold index in Hc. by rewrite Hsome in Hc.
Qed.

Lemma elem_of_dict_zip {V} (objs : list Object) (vs : list V) o :
  is_Some (dict (zip objs vs) !! o) → o ∈ objs.
Proof.
  intros ([o' v] & -> & Ho)%dict_is_Some%list_elem_of_fmap.
  by apply elem_of_zip_l in Ho.
Qed.

(** *** The keys stay objects of the scene *)

Lemma draw_nodes_present nodes color self d objs self' d' :
  tracked_present self d →
  draw_nodes nodes color self d = Ok (objs, self', d') →
  tracked_present self' d'.
Proof.
  intros Htracked
    (dflt & points & c & self1 & d1 & _ & _ & Hc & Hdraw & ->)%draw_nodes_Ok.
  pose proof (nodecollection_objects _ _ _ _ _ Hc) as Hobjs.
  apply nodecollection_Ok in Hc as [(Hn1 & He1 & Hp1 & _) _].
  assert (Hd' : d' = (draw_points points c d1).2) by by rewrite Hdraw.
  assert (Ho' : objs = (draw_points points c d1).1) by by rewrite Hdraw.
  intros o. rewrite elem_of_tracked. cbn. intros [Ho|Ho].
  - rewrite Hd'. apply draw_points_present. rewrite <- Ho'.
    by apply elem_of_dict_zip in Ho.
  - rewrite Hd'. apply draw_points_keeps. rewrite Hobjs. apply Htracked.
    rewrite elem_of_tracked, <- He1, <- Hp1. tauto.
Qed.

Lemma draw_edges_present edges color self d objs self' d' :
  tracked_present self d →
  draw_edges edges color self d = Ok (objs, self', d') →
  tracked_present self' d'.
Proof.
  intros Htracked
    (dflt & lines & c & self1 & d1 & _ & _ & Hc & Hdraw & ->)%draw_edges_Ok.
  pose proof (edgecollection_objects _ _ _ _ _ Hc) as Hobjs.
  apply edgecollection_Ok in Hc as [(Hn1 & He1 & Hp1 & _) _].
  assert (Hd' : d' = (draw_lines lines c d1).2) by by rewrite Hdraw.
  assert (Ho' : objs = (draw_lines lines c d1).1) by by rewrite Hdraw.
  intros o. rewrite elem_of_tracked. cbn. intros [Ho|[Ho|Ho]].
  - rewrite Hd'. apply draw_lines_keeps. rewrite Hobjs. apply Htracked.
    rewrite elem_of_tracked, <- Hn1. tauto.
  - rewrite Hd'. apply draw_lines_present. rewrite <- Ho'.
    by apply elem_of_dict_zip in Ho.
  - rewrite Hd'. apply draw_lines_keeps. rewrite Hobjs. apply Htracked.
    rewrite elem_of_tracked, <- Hp1. tauto.
Qed.

Lemma nothing_tracked_present self d :
  tracked self = [] → tracked_present self d.
Proof. intros Hnil o. rewrite Hnil. by intros ?%elem_of_nil. Qed.

Lemma draw_present s self d r self' d' :
  draw s self d = Ok (r, self', d') → tracked_present self' d'.
Proof.
  intros (sn & se & self2 & d2 & _ & _ & _ & Hn & He & _)%draw_Ok.
  assert (H2 : tracked_present self2 d2).
  { destruct (truthy sn).
    - destruct Hn as [objs Hn].
      eapply draw_nodes_present; [|exact Hn].
      apply nothing_tracked_present, tracked_start.
    - destruct Hn as [-> ->].
      apply nothing_tracked_present, tracked_start. }
  destruct (truthy se).
  - destruct He as [objs He]. by eapply draw_edges_present.
  - by destruct He as [-> ->].
Qed.

Lemma run_op_present op self d self' d' :
  tracked_present self d →
  run_op op self d = Ok (self', d') →
  tracked_present self' d'.
Proof.
  intros Htracked. destruct op as [s|nodes color|edges color|];
    unfold run_op.
  - destruct (draw s self d) as [[[r self2] d2]|e] eqn:Hdraw; [|done].
    rewrite bind_Ok. intros [= <- <-]. by eapply draw_present.
  - destruct (draw_nodes nodes color self d) as [[[r self2] d2]|e] eqn:Hdraw;
      [|done].
    rewrite bind_Ok. intros [= <- <-]. by eapply draw_nodes_present.
  - destruct (draw_edges edges color self d) as [[[r self2] d2]|e] eqn:Hdraw;
      [|done].
    rewrite bind_Ok. intros [= <- <-]. by eapply draw_edges_present.
  - intros (_ & -> & _)%clear_Ok.
    apply nothing_tracked_present, tracked_tracking_empty.
Qed.

Lemma run_ops_present ops self d self' d' :
  tracked_present self d →
  run_ops ops self d = Ok (self', d') →
  tracked_present self' d'.
Proof.
  revert self d. induction ops as [|op ops IH]; intros self d Htracked.
  - by intros [= <- <-].
  - change (run_ops (op :: ops) self d)
      with ('(self, d) ← run_op op self d; run_ops ops self d).
    destruct (run_op op self d) as [[self1 d1]|e] eqn:Hop; [|done].
    rewrite bind_Ok. apply IH. by eapply run_op_present.
Qed.

(** *** Every call returns *)

Section with_creates.
Context {creates : BlenderCreates host}.

(** The tracked handles can be deleted one after the other when the three
    dictionaries have no key in common, every key is an object of the
    scene and no two keys use the same data block. *)
Lemma deletable_tracked self d :
  deletable (tracked self) d ↔
  (∀ o, (is_Some (_object_node self !! o) →
         ¬ is_Some (_object_edge self !! o) ∧
         ¬ is_Some (_object_path self !! o)) ∧
        (is_Some (_object_edge self !! o) →
         ¬ is_Some (_object_path self !! o))) ∧
  tracked_present self d ∧
  (∀ x y, x ∈ tracked self → y ∈ tracked self → x ≠ y →
          ¬ shares_block x y).
Proof.
  unfold deletable, tracked_present.
  rewrite (Forall_forall (fun o => o ∈ objects d)).
  assert (Hnd : NoDup (tracked self) ↔
    ∀ o, (is_Some (_object_node self !! o) →
          ¬ is_Some (_object_edge self !! o) ∧
          ¬ is_Some (_object_path self !! o)) ∧
         (is_Some (_object_edge self !! o) →
          ¬ is_Some (_object_path self !! o))).
  { rewrite tracked_eq. unfold previously_drawn.
    rewrite !NoDup_app. setoid_rewrite elem_of_app.
    setoid_rewrite elem_of_keys.
    split.
    - intros (_ & Hne & _ & Hep & _) o. split.
      + intros Ho. specialize (Hne o Ho). tauto.
      + apply Hep.
    - intros Hsep. unfold keys.
      split; [apply NoDup_fst_map_to_list|]. split.
      + intros o Ho [He|Hp]; destruct (Hsep o) as [Hn _];
          destruct (Hn Ho); done.
      + split; [apply NoDup_fst_map_to_list|]. split.
        * intros o Ho. by apply Hsep.
        * apply NoDup_fst_map_to_list. }
  rewrite Hnd. split.
  - intros (? & ? & Hpair). split; [done|]. split; [done|].
    intros x y Hx Hy. rewrite Forall_forall in Hpair.
    specialize (Hpair x Hx). rewrite Forall_forall in Hpair.
    by apply Hpair.
  - intros (? & ? & Hpair). split; [done|]. split; [done|].
    apply Forall_forall. intros x Hx.
    apply Forall_forall. intros y Hy. by apply Hpair.
Qed.

Lemma draw_nodes_total nodes color self d :
  settings_ok (settings self) →
  has_nodes (network self) (selection nodes (net_nodes (network self))) →
  deletable (tracked self) d →
  ∃ objs self' d',
    draw_nodes nodes color self d = Ok (objs, self', d') ∧
    settings self' = settings self ∧ network self' = network self ∧
    deletable (tracked self') d'.
Proof.
  intros ([dflt Hdflt] & _) Hhas Hdel.
  destruct (node_points_total _ color dflt _ Hhas) as [points Hpoints].
  destruct (nodecollection_total self d) as (c & self1 & d1 & Hc).
  pose proof (draw_nodes_eq nodes color self d dflt Hdflt) as Heq.
  cbv zeta in Heq. rewrite Hpoints, Hc, !bind_Ok in Heq.
  eexists _, _, _. split; [exact Heq|].
  pose proof (draw_nodes_settings _ _ _ _ _ _ _ Heq)
    as (Hs & Hnet & _ & He' & Hp').
  split; [done|]. split; [done|].
  assert (Hpresent : tracked_present
            (set_object_node
               (zip (draw_points points c d1).1
                    (selection nodes (net_nodes (network self)))) self1)
            (draw_points points c d1).2).
  { eapply draw_nodes_present; [|exact Heq].
    by apply deletable_tracked in Hdel as (_ & ? & _). }
  pose proof (nodecollection_objects _ _ _ _ _ Hc) as Hobjs.
  apply nodecollection_Ok in Hc as [(Hn1 & He1 & Hp1 & _) _].
  destruct (draw_points_new points c d1) as (_ & Hfresh & Hnew).
  apply deletable_tracked in Hdel as (Hsep & Htracked & Hpair).
  assert (Hold : ∀ o, is_Some (_object_edge self !! o) ∨
                      is_Some (_object_path self !! o) →
                      o ∈ objects d1 ∧ o ∈ tracked self).
  { intros o Ho.
    assert (o ∈ tracked self) by (rewrite elem_of_tracked; tauto).
    split; [|done]. rewrite Hobjs. by apply Htracked. }
  apply deletable_tracked. split; [|split; [done|]].
  - intros o. cbn. rewrite He1, Hp1. split.
    + intros Ho%elem_of_dict_zip. apply Hfresh in Ho.
      split; intros Hsome; apply Ho, Hold; tauto.
    + apply Hsep.
  - intros x y Hx Hy Hne.
    pose proof (Hpresent x Hx) as Hxin. pose proof (Hpresent y Hy) as Hyin.
    rewrite elem_of_tracked in Hx, Hy. cbn in Hx, Hy.
    rewrite He1, Hp1 in Hx, Hy.
    destruct Hx as [Hx%elem_of_dict_zip|Hx].
    + by apply Hnew.
    + destruct Hy as [Hy%elem_of_dict_zip|Hy].
      * intros Hshare%shares_block_sym. revert Hshare. apply Hnew; done.
      * apply Hpair; [by apply Hold..|done].
Qed.

Lemma draw_edges_total edges color self d :
  settings_ok (settings self) →
  has_ends (network self) (selection edges (net_edges (network self))) →
  deletable (tracked self) d →
  ∃ objs self' d',
    draw_edges edges color self d = Ok (objs, self', d') ∧
    settings self' = settings self ∧ network self' = network self ∧
    deletable (tracked self') d'.
Proof.
  intros (_ & [dflt Hdflt] & _) Hhas Hdel.
  destruct (edge_lines_total _ color dflt _ Hhas) as [lines Hlines].
  destruct (edgecollection_total self d) as (c & self1 & d1 & Hc).
  pose proof (draw_edges_eq edges color self d dflt Hdflt) as Heq.
  cbv zeta in Heq. rewrite Hlines, Hc, !bind_Ok in Heq.
  eexists _, _, _. split; [exact Heq|].
  pose proof (draw_edges_settings _ _ _ _ _ _ _ Heq)
    as (Hs & Hnet & _ & Hn' & Hp').
  split; [done|]. split; [done|].
  assert (Hpresent : tracked_present
            (set_object_edge
               (zip (draw_lines lines c d1).1
                    (selection edges (net_edges (network self)))) self1)
            (draw_lines lines c d1).2).
  { eapply draw_edges_present; [|exact Heq].
    by apply deletable_tracked in Hdel as (_ & ? & _). }
  pose proof (edgecollection_objects _ _ _ _ _ Hc) as Hobjs.
  apply edgecollection_Ok in Hc as [(Hn1 & He1 & Hp1 & _) _].
  destruct (draw_lines_new lines c d1) as (_ & Hfresh & Hnew).
  apply deletable_tracked in Hdel as (Hsep & Htracked & Hpair).
  assert (Hold : ∀ o, is_Some (_object_node self !! o) ∨
                      is_Some (_object_path self !! o) →
                      o ∈ objects d1 ∧ o ∈ tracked self).
  { intros o Ho.
    assert (o ∈ tracked self) by (rewrite elem_of_tracked; tauto).
    split; [|done]. rewrite Hobjs. by apply Htracked. }
  apply deletable_tracked. split; [|split; [done|]].
  - intros o. cbn. rewrite Hn1, Hp1. split.
    + intros Ho. split.
      * intros Hsome%elem_of_dict_zip. apply Hfresh in Hsome.
        apply Hsome, Hold. tauto.
      * destruct (Hsep o) as [Hnode _]. by apply Hnode.
    + intros Ho%elem_of_dict_zip. apply Hfresh in Ho.
      intros Hsome. apply Ho, Hold. tauto.
  - intros x y Hx Hy Hne.
    pose proof (Hpresent x Hx) as Hxin. pose proof (Hpresent y Hy) as Hyin.
    rewrite elem_of_tracked in Hx, Hy. cbn in Hx, Hy.
    rewrite Hn1, Hp1 in Hx, Hy.
    assert (Hxc : x ∈ (draw_lines lines c d1).1 ∨
                  (is_Some (_object_node self !! x) ∨
                   is_Some (_object_path self !! x))).
    { destruct Hx as [?|[?%elem_of_dict_zip|?]]; tauto. }
    assert (Hyc : y ∈ (draw_lines lines c d1).1 ∨
                  (is_Some (_object_node self !! y) ∨
                   is_Some (_object_path self !! y))).
    { destruct Hy as [?|[?%elem_of_dict_zip|?]]; tauto. }
    destruct Hxc as [Hxc|Hxc].
    + by apply Hnew.
    + destruct Hyc as [Hyc|Hyc].
      * intros Hshare%shares_block_sym. revert Hshare. apply Hnew; done.
      * apply Hpair; [by apply Hold..|done].
Qed.

Lemma draw_total s self d :
  settings_ok (settings self) → network_ok (network self) →
  deletable (tracked self) d →
  ∃ r self' d',
    draw s self d = Ok (r, self', d') ∧
    settings_ok (settings self') ∧ network self' = network self ∧
    deletable (tracked self') d'.
Proof.
  intros Hok [Hnodes Hends] Hdel.
  pose proof (settings_ok_union (given_settings s) _ Hok) as Hmerged.
  destruct Hmerged as (Hcn & Hce & [sn Hsn] & [se Hse]).
  assert (Hmerged : settings_ok (given_settings s ∪ settings self))
    by by apply settings_ok_union.
  unfold draw. rewrite given_settings_eq.
  assert (Hclear : clear self d
                   = Ok (tracking ∅ ∅ ∅ self, scene_without (tracked self) d))
    by by apply clear_Ok.
  rewrite Hclear, !bind_Ok. cbv zeta. unfold update.
  change (settings (set_settings ?x ?y)) with x.
  change (settings (tracking ∅ ∅ ∅ self)) with (settings self).
  rewrite (getitem_Some _ _ _ Hsn), !bind_Ok.
  set (start := set_settings _ _).
  set (d0 := scene_without (tracked self) d).
  assert (Hstart : deletable (tracked start) d0).
  { change (tracked start) with (tracked (tracking ∅ ∅ ∅ self)).
    rewrite tracked_tracking_empty. apply deletable_nil. }
  assert (Hafter : ∃ self2 d2,
    (if truthy sn
     then '(_, self2, d2) ← draw_nodes None ArgNone start d0; Ok (self2, d2)
     else Ok (start, d0)) = Ok (self2, d2) ∧
    settings self2 = given_settings s ∪ settings self ∧
    network self2 = network self ∧ deletable (tracked self2) d2).
  { destruct (truthy sn).
    - destruct (draw_nodes_total None ArgNone start d0)
        as (objs & self2 & d2 & -> & Hs2 & Hn2 & Hd2); [done..|].
      rewrite bind_Ok. by exists self2, d2.
    - by exists start, d0. }
  destruct Hafter as (self2 & d2 & -> & Hs2 & Hn2 & Hd2).
  rewrite !bind_Ok, Hs2, (getitem_Some _ _ _ Hse), !bind_Ok.
  destruct (truthy se).
  - destruct (draw_edges_total None ArgNone self2 d2)
      as (objs & self3 & d3 & -> & Hs3 & Hn3 & Hd3).
    + by rewrite Hs2.
    + by rewrite Hn2.
    + done.
    + rewrite !bind_Ok. eexists _, _, _. split; [done|].
      rewrite Hs3, Hs2, Hn3, Hn2. done.
  - rewrite !bind_Ok. eexists _, _, _. split; [done|].
    by rewrite Hs2, Hn2.
Qed.

Lemma run_op_total op self d :
  settings_ok (settings self) → network_ok (network self) →
  selects_within (network self) op → deletable (tracked self) d →
  ∃ self' d',
    run_op op self d = Ok (self', d') ∧
    settings_ok (settings self') ∧ network self' = network self ∧
    deletable (tracked self') d'.
Proof.
  intros Hok Hnet Hsel Hdel.
  destruct op as [s|nodes color|edges color|]; unfold run_op.
  - destruct (draw_total s self d) as (r & self' & d' & -> & ? & ? & ?);
      [done..|].
    rewrite bind_Ok. by exists self', d'.
  - destruct (draw_nodes_total nodes color self d)
      as (r & self' & d' & -> & Hs & ? & ?); [done| |done|].
    + destruct nodes as [nodes|]; [|apply Hnet].
      cbn in Hsel |- *. case_bool_decide; [apply Hnet|done].
    + rewrite bind_Ok. exists self', d'. by rewrite Hs.
  - destruct (draw_edges_total edges color self d)
      as (r & self' & d' & -> & Hs & ? & ?); [done| |done|].
    + destruct edges as [edges|]; [|apply Hnet].
      cbn in Hsel |- *. case_bool_decide; [apply Hnet|done].
    + rewrite bind_Ok. exists self', d'. by rewrite Hs.
  - eexists _, _. split; [by apply clear_Ok|].
    split; [done|]. split; [done|].
    rewrite tracked_tracking_empty. apply deletable_nil.
Qed.

Lemma run_ops_total ops self d :
  settings_ok (settings self) → network_ok (network self) →
  Forall (selects_within (network self)) ops → deletable (tracked self) d →
  ∃ self' d', run_ops ops self d = Ok (self', d').
Proof.
  revert self d. induction ops as [|op ops IH]; intros self d Hok Hnet Hsel Hdel.
  - by exists self, d.
  - apply Forall_cons in Hsel as [Hop Hsel].
    change (run_ops (op :: ops) self d)
      with ('(self, d) ← run_op op self d; run_ops ops self d).
    destruct (run_op_total op self d)
      as (self1 & d1 & -> & Hok1 & Hnet1 & Hdel1); [done..|].
    rewrite bind_Ok. apply IH; [done| | |done]; by rewrite Hnet1.
Qed.

End with_creates.

Lemma settings_ok_init (net : Network XYZ) s base :
  settings_ok (settings (__init__ net s base)).
Proof.
  assert (Hd : settings_ok default_settings).
  { unfold settings_ok.
    split; [by exists (rgb 255 255 255)|]. split; [by exists (rgb 0 0 0)|].
    split; by exists (VBool true). }
  cbn. destruct s as [s|]; [|done].
  case_decide; [done|]. by apply settings_ok_union.
Qed.

Lemma tracked_init (net : Network XYZ) s base :
  tracked (__init__ net s base) = [].
Proof. rewrite tracked_eq. unfold previously_drawn. cbn. by rewrite !keys_empty. Qed.


End with_laws.

End tracking_invariant.

(** ** Insertion-ordered dictionaries *)

Section odict_facts.
Context {K V : Type} `{EqDecision K}.
Implicit Types (d : list (K * V)) (k : K) (v : V).

Lemma oget_oset d k v k' :
  oget (oset k v d) k' = if decide (k = k') then Some v else oget d k'.
Proof.
  induction d as [|[k0 v0] d IH]; cbn.
  - by repeat case_decide.
  - destruct (decide (k0 = k)) as [->|Hne]; cbn.
    + by repeat case_decide.
    + rewrite IH. repeat case_decide; congruence.
Qed.

Lemma elem_of_oset_keys d k v k' :
  k' ∈ (oset k v d).*1 ↔ k' = k ∨ k' ∈ d.*1.
Proof.
  induction d as [|[k0 v0] d IH]; cbn.
  - rewrite list_elem_of_singleton, elem_of_nil. tauto.
  - destruct (decide (k0 = k)) as [->|Hne]; cbn.
    + rewrite !elem_of_cons. tauto.
    + rewrite !elem_of_cons, IH. tauto.
Qed.

Lemma oget_is_Some d k : k ∈ d.*1 → is_Some (oget d k).
Proof.
  induction d as [|[k0 v0] d IH]; cbn; [by intros ?%elem_of_nil|].
  intros [->|Hin]%elem_of_cons; case_decide; try done; auto.
Qed.

Lemma oget_comprehension_from (f : K → V) ks d k :
  oget (foldl (fun d k => oset k (f k) d) d ks) k
  = if decide (k ∈ ks) then Some (f k) else oget d k.
Proof.
  revert d. induction ks as [|k0 ks IH]; intros d; cbn.
  - case_decide as Hin; [by apply elem_of_nil in Hin|done].
  - rewrite IH, oget_oset.
    destruct (decide (k ∈ ks)) as [Hin|Hnotin].
    + rewrite decide_True; [done|by right].
    + destruct (decide (k0 = k)) as [->|Hne].
      * rewrite decide_True; [done|by left].
      * rewrite decide_False; [done|].
        intros [->|?]%elem_of_cons; done.
Qed.

Lemma keys_comprehension_from (f : K → V) ks d k :
  k ∈ (foldl (fun d k => oset k (f k) d) d ks).*1 ↔ k ∈ d.*1 ∨ k ∈ ks.
Proof.
  revert d. induction ks as [|k0 ks IH]; intros d; cbn.
  - rewrite elem_of_nil. tauto.
  - rewrite IH, elem_of_oset_keys, elem_of_cons. tauto.
Qed.

Lemma oget_ocomprehension (f : K → V) ks k :
  k ∈ ks → oget (ocomprehension f ks) k = Some (f k).
Proof.
  intros Hin. unfold ocomprehension.
  by rewrite oget_comprehension_from, decide_True.
Qed.

Lemma elem_of_ocomprehension (f : K → V) ks k :
  k ∈ (ocomprehension f ks).*1 ↔ k ∈ ks.
Proof.
  unfold ocomprehension. rewrite keys_comprehension_from. cbn.
  rewrite elem_of_nil. tauto.
Qed.

End odict_facts.

(** ** meshartist.py *)

Lemma mapM_fmap {A B C} (f : B → Result C) (g : A → B) (l : list A) :
  mapM f (g <$> l) = mapM (fun x => f (g x)) l.
Proof. induction l as [|x l IH]; [done|]. cbn. by rewrite IH. Qed.

Section mesh_artist.
Import meshartist specwords meshwords.
Context {XYZ Geom : Type} `{gh : GhDrawing XYZ Geom}.

Implicit Types (self : MeshArtist XYZ) (m : Mesh XYZ).

(** *** The descriptors *)

Lemma vertex_point_Ok m color dflt vertex p :
  vertex_point m color dflt vertex = Ok p ↔
  ∃ pos, vertex_xyz m vertex = Some pos ∧
         p = {| pt_pos := pos;
                pt_name := mesh_name m +:+ ".vertex." +:+ str vertex;
                pt_color := resolve color dflt vertex |}.
Proof.
  unfold vertex_point, vertex_coordinates.
  destruct (vertex_xyz m vertex) as [pos|]; cbn.
  - split; [intros [= <-]; by exists pos|]. by intros (? & [= <-] & ->).
  - split; [done|]. by intros (? & ? & _).
Qed.

Lemma face_polygon_Ok m color dflt fkey f :
  face_polygon m color dflt fkey = Ok f ↔
  ∃ points, face_xyz m fkey = Some points ∧
            f = {| fc_points := points;
                   fc_name := mesh_name m +:+ ".face." +:+ str fkey;
                   fc_color := resolve color dflt fkey |}.
Proof.
  unfold face_polygon, face_coordinates.
  destruct (face_xyz m fkey) as [points|]; cbn.
  - split; [intros [= <-]; by exists points|]. by intros (? & [= <-] & ->).
  - split; [done|]. by intros (? & ? & _).
Qed.

Lemma edge_line_mesh_Ok m color dflt edge l :
  meshwords.edge_line m color dflt edge = Ok l ↔
  ∃ ends, edge_xyz m edge.1 edge.2 = Some ends ∧
          l = {| ln_start := ends.1;
                 ln_end := ends.2;
                 ln_color := resolve color dflt edge;
                 ln_name := mesh_name m +:+ ".edge." +:+ str edge.1 +:+ "-"
                            +:+ str edge.2 |}.
Proof.
  unfold meshwords.edge_line, edge_coordinates.
  destruct (edge_xyz m edge.1 edge.2) as [ends|]; cbn.
  - split; [intros [= <-]; by exists ends|]. by intros (? & [= <-] & ->).
  - split; [done|]. by intros (? & ? & _).
Qed.

Lemma vertex_label_Ok m textdict color dflt key l :
  vertex_label m textdict color dflt key = Ok l ↔
  ∃ pos, vertex_xyz m key = Some pos ∧
         l = {| lb_pos := pos;
                lb_name := mesh_name m +:+ ".vertexlabel." +:+ str key;
                lb_color := resolve color dflt key;
                lb_text := text_of textdict key |}.
Proof.
  unfold vertex_label, vertex_coordinates.
  destruct (vertex_xyz m key) as [pos|]; cbn.
  - split; [intros [= <-]; by exists pos|]. by intros (? & [= <-] & ->).
  - split; [done|]. by intros (? & ? & _).
Qed.

Lemma face_label_Ok m textdict color dflt key l :
  face_label m textdict color dflt key = Ok l ↔
  ∃ pos, face_centre m key = Some pos ∧
         l = {| lb_pos := pos;
                lb_name := mesh_name m +:+ ".facelabel." +:+ str key;
                lb_color := resolve color dflt key;
                lb_text := text_of textdict key |}.
Proof.
  unfold face_label, face_center.
  destruct (face_centre m key) as [pos|]; cbn.
  - split; [intros [= <-]; by exists pos|]. by intros (? & [= <-] & ->).
  - split; [done|]. by intros (? & ? & _).
Qed.

Lemma edge_label_Ok m textdict color dflt uv l :
  edge_label m textdict color dflt uv = Ok l ↔
  ∃ pos, edge_middle m uv.1 uv.2 = Some pos ∧
         l = {| lb_pos := pos;
                lb_name := mesh_name m +:+ ".edgelabel." +:+ str uv.1
                           +:+ "-" +:+ str uv.2;
                lb_color := resolve color dflt uv;
                lb_text := text_of textdict uv |}.
Proof.
  unfold edge_label, edge_midpoint.
  destruct (edge_middle m uv.1 uv.2) as [pos|]; cbn.
  - split; [intros [= <-]; by exists pos|]. by intros (? & [= <-] & ->).
  - split; [done|]. by intros (? & ? & _).
Qed.

(** A loop over keys returns exactly when the mesh has geometry for each
    of them. *)
Lemma descriptors_total {K D G} (look : K → option G) (f : K → Result D)
    (keys : list K) :
  (∀ key, (∃ x, f key = Ok x) ↔ is_Some (look key)) →
  (∃ xs, mapM f keys = Ok xs) ↔ Forall (fun key => is_Some (look key)) keys.
Proof.
  intros Hf. split.
  - intros [xs Hxs%mapM_Ok_Forall2].
    induction Hxs as [|key x ? ? Hx]; constructor; [|done].
    apply Hf. by exists x.
  - intros Hall. apply mapM_total.
    eapply Forall_impl; [exact Hall|]. intros key. apply Hf.
Qed.

Lemma vertex_points_total m color dflt keys :
  (∃ points, mapM (vertex_point m color dflt) keys = Ok points) ↔
  has_vertices m keys.
Proof.
  apply (descriptors_total (vertex_xyz m)). intros key. split.
  - intros [p (pos & Hpos & _)%vertex_point_Ok]. by exists pos.
  - intros [pos Hpos]. eexists. apply vertex_point_Ok. by exists pos.
Qed.

Lemma face_polygons_total m color dflt keys :
  (∃ faces, mapM (face_polygon m color dflt) keys = Ok faces) ↔
  has_faces m keys.
Proof.
  apply (descriptors_total (face_xyz m)). intros key. split.
  - intros [p (pos & Hpos & _)%face_polygon_Ok]. by exists pos.
  - intros [pos Hpos]. eexists. apply face_polygon_Ok. by exists pos.
Qed.

Lemma edge_lines_mesh_total m color dflt keys :
  (∃ lines, mapM (meshwords.edge_line m color dflt) keys = Ok lines) ↔
  has_edges m keys.
Proof.
  apply (descriptors_total (fun uv => edge_xyz m uv.1 uv.2)).
  intros key. split.
  - intros [p (pos & Hpos & _)%edge_line_mesh_Ok]. by exists pos.
  - intros [pos Hpos]. eexists. apply edge_line_mesh_Ok. by exists pos.
Qed.

Lemma vertex_labels_total m textdict color dflt keys :
  (∃ labels, mapM (vertex_label m textdict color dflt) keys = Ok labels) ↔
  has_vertices m keys.
Proof.
  apply (descriptors_total (vertex_xyz m)). intros key. split.
  - intros [p (pos & Hpos & _)%vertex_label_Ok]. by exists pos.
  - intros [pos Hpos]. eexists. apply vertex_label_Ok. by exists pos.
Qed.

Lemma face_labels_total m textdict color dflt keys :
  (∃ labels, mapM (face_label m textdict color dflt) keys = Ok labels) ↔
  has_centres m keys.
Proof.
  apply (descriptors_total (face_centre m)). intros key. split.
  - intros [p (pos & Hpos & _)%face_label_Ok]. by exists pos.
  - intros [pos Hpos]. eexists. apply face_label_Ok. by exists pos.
Qed.

Lemma edge_labels_total m textdict color dflt keys :
  (∃ labels, mapM (edge_label m textdict color dflt) keys = Ok labels) ↔
  has_middles m keys.
Proof.
  apply (descriptors_total (fun uv => edge_middle m uv.1 uv.2)).
  intros key. split.
  - intros [p (pos & Hpos & _)%edge_label_Ok]. by exists pos.
  - intros [pos Hpos]. eexists. apply edge_label_Ok. by exists pos.
Qed.

(** *** The component methods *)

Lemma draw_vertices_eq keys color self dflt :
  settings self !! "color.vertices" = Some dflt →
  draw_vertices keys color self =
    points ← mapM (vertex_point (mesh self) color dflt)
                  (selection keys (vertices (mesh self)));
    Ok (draw_points_ points).
Proof.
  intros Hdflt. unfold draw_vertices.
  rewrite (getitem_Some _ _ _ Hdflt), bind_Ok. cbv zeta.
  rewrite list_or_selection.
  rewrite (mapM_ext_in _ (vertex_point (mesh self) color dflt)); [done|].
  intros vertex Hin. unfold vertex_point.
  destruct (vertex_coordinates _ vertex); [|done].
  by rewrite !bind_Ok, colordict_getitem_Ok.
Qed.

Lemma draw_faces_eq keys color join_faces self dflt :
  settings self !! "color.faces" = Some dflt →
  draw_faces keys color join_faces self =
    faces ← mapM (face_polygon (mesh self) color dflt)
                 (selection keys (faces (mesh self)));
    let meshes := draw_faces_ faces in
    Ok (if join_faces then [foldl Mesh_Append Mesh_new meshes] else meshes).
Proof.
  intros Hdflt. unfold draw_faces.
  rewrite (getitem_Some _ _ _ Hdflt), bind_Ok. cbv zeta.
  rewrite list_or_selection.
  rewrite (mapM_ext_in _ (face_polygon (mesh self) color dflt)).
  - destruct (mapM _ _); [|done]. rewrite !bind_Ok. by destruct join_faces.
  - intros fkey Hin. unfold face_polygon.
    destruct (face_coordinates _ fkey); [|done].
    by rewrite !bind_Ok, colordict_getitem_Ok.
Qed.

Lemma draw_edges_mesh_eq keys color self dflt :
  settings self !! "color.edges" = Some dflt →
  draw_edges keys color self =
    lines ← mapM (meshwords.edge_line (mesh self) color dflt)
                 (selection keys (edges (mesh self)));
    Ok (draw_lines_ lines).
Proof.
  intros Hdflt. unfold draw_edges.
  rewrite (getitem_Some _ _ _ Hdflt), bind_Ok. cbv zeta.
  rewrite list_or_selection.
  rewrite (mapM_ext_in _ (meshwords.edge_line (mesh self) color dflt));
    [done|].
  intros edge Hin. unfold meshwords.edge_line.
  destruct (edge_coordinates _ _ _) as [[start end_]|]; [|done].
  by rewrite !bind_Ok, colordict_getitem_Ok.
Qed.

(** *** The label methods *)

Lemma textdict_getitem_Ok {K} `{EqDecision K} (textdict : list (K * string))
    (key : K) (show : K → string) :
  key ∈ textdict.*1 →
  textdict_getitem textdict key show = Ok (text_of textdict key).
Proof.
  intros [t Ht]%oget_is_Some. unfold textdict_getitem, text_of.
  by rewrite Ht.
Qed.

Lemma draw_vertexlabels_eq text color self dflt :
  settings self !! "color.vertices" = Some dflt →
  draw_vertexlabels text color self =
    match textdict_of str (vertices (mesh self)) text with
    | Some textdict =>
        labels ← mapM (vertex_label (mesh self) textdict color dflt)
                      textdict.*1;
        Ok (draw_labels_ labels)
    | None => Err NotImplementedError
    end.
Proof.
  intros Hdflt. unfold draw_vertexlabels.
  assert (Hloop : ∀ textdict : list (Z * string),
    Ok textdict ≫= (fun textdict =>
      default ← getitem (settings self) "color.vertices";
      let colordict := color_to_colordict color textdict.*1 default in
      labels ← mapM (fun '(key, _) =>
                       pos ← vertex_coordinates (mesh self) key;
                       c ← colordict_getitem colordict key str;
                       t ← textdict_getitem textdict key str;
                       Ok {| lb_pos := pos;
                             lb_name := mesh_name (mesh self)
                                        +:+ ".vertexlabel." +:+ str key;
                             lb_color := c;
                             lb_text := t |}) textdict;
      Ok (draw_labels_ labels))
    = (labels ← mapM (vertex_label (mesh self) textdict color dflt)
                     textdict.*1;
       Ok (draw_labels_ labels))).
  { intros textdict.
    rewrite bind_Ok, (getitem_Some _ _ _ Hdflt), bind_Ok. cbv beta zeta.
    rewrite mapM_fmap. f_equal. apply mapM_ext_in.
    intros [key t] Hin.
    assert (key ∈ textdict.*1)
      by (apply list_elem_of_fmap; by exists (key, t)).
    unfold vertex_label. cbn [fst].
    destruct (vertex_coordinates _ key); [|done].
    by rewrite !bind_Ok, colordict_getitem_Ok, bind_Ok, textdict_getitem_Ok. }
  destruct text as [|t|v]; cbn [textdict_of]; [apply Hloop..|done].
Qed.

Lemma draw_facelabels_eq text color self dflt :
  settings self !! "color.faces" = Some dflt →
  draw_facelabels text color self =
    match textdict_of str (faces (mesh self)) text with
    | Some textdict =>
        labels ← mapM (face_label (mesh self) textdict color dflt)
                      textdict.*1;
        Ok (draw_labels_ labels)
    | None => Err NotImplementedError
    end.
Proof.
  intros Hdflt. unfold draw_facelabels.
  assert (Hloop : ∀ textdict : list (Z * string),
    Ok textdict ≫= (fun textdict =>
      default ← getitem (settings self) "color.faces";
      let colordict := color_to_colordict color textdict.*1 default in
      labels ← mapM (fun '(key, _) =>
                       pos ← face_center (mesh self) key;
                       c ← colordict_getitem colordict key str;
                       t ← textdict_getitem textdict key str;
                       Ok {| lb_pos := pos;
                             lb_name := mesh_name (mesh self)
                                        +:+ ".facelabel." +:+ str key;
                             lb_color := c;
                             lb_text := t |}) textdict;
      Ok (draw_labels_ labels))
    = (labels ← mapM (face_label (mesh self) textdict color dflt)
                     textdict.*1;
       Ok (draw_labels_ labels))).
  { intros textdict.
    rewrite bind_Ok, (getitem_Some _ _ _ Hdflt), bind_Ok. cbv beta zeta.
    rewrite mapM_fmap. f_equal. apply mapM_ext_in.
    intros [key t] Hin.
    assert (key ∈ textdict.*1)
      by (apply list_elem_of_fmap; by exists (key, t)).
    unfold face_label. cbn [fst].
    destruct (face_center _ key); [|done].
    by rewrite !bind_Ok, colordict_getitem_Ok, bind_Ok, textdict_getitem_Ok. }
  destruct text as [|t|v]; cbn [textdict_of]; [apply Hloop..|done].
Qed.

Lemma draw_edgelabels_eq text color self dflt :
  settings self !! "color.edges" = Some dflt →
  draw_edgelabels text color self =
    match textdict_of edge_text (edges (mesh self)) text with
    | Some textdict =>
        labels ← mapM (edge_label (mesh self) textdict color dflt)
                      textdict.*1;
        Ok (draw_labels_ labels)
    | None => Err NotImplementedError
    end.
Proof.
  intros Hdflt. unfold draw_edgelabels.
  assert (Hloop : ∀ textdict : list (Z * Z * string),
    Ok textdict ≫= (fun textdict =>
      default ← getitem (settings self) "color.edges";
      let colordict := color_to_colordict color textdict.*1 default in
      labels ← mapM (fun '(uv, _) =>
                       pos ← edge_midpoint (mesh self) uv.1 uv.2;
                       c ← colordict_getitem colordict uv show_edge;
                       t ← textdict_getitem textdict uv show_edge;
                       Ok {| lb_pos := pos;
                             lb_name := mesh_name (mesh self)
                                        +:+ ".edgelabel." +:+ str uv.1
                                        +:+ "-" +:+ str uv.2;
                             lb_color := c;
                             lb_text := t |}) textdict;
      Ok (draw_labels_ labels))
    = (labels ← mapM (edge_label (mesh self) textdict color dflt)
                     textdict.*1;
       Ok (draw_labels_ labels))).
  { intros textdict.
    rewrite bind_Ok, (getitem_Some _ _ _ Hdflt), bind_Ok. cbv beta zeta.
    rewrite mapM_fmap. f_equal. apply mapM_ext_in.
    intros [key t] Hin.
    assert (key ∈ textdict.*1)
      by (apply list_elem_of_fmap; by exists (key, t)).
    unfold edge_label. cbn [fst].
    destruct (edge_midpoint _ _ _); [|done].
    by rewrite !bind_Ok, colordict_getitem_Ok, bind_Ok, textdict_getitem_Ok. }
  destruct text as [|t|v]; cbn [textdict_of]; [apply Hloop..|done].
Qed.

(** *** [draw] and the methods it looks up *)

Section with_base.
Context `{base : BaseArtist XYZ Geom}.

Ltac draw_step H :=
  match type of H with
  | context [getitem ?d ?k] => destruct (getitem d k)
  | context [if truthy ?v then _ else _] => destruct (truthy v)
  | context [draw_faces ?a ?b ?c ?d] => destruct (draw_faces a b c d)
  | context [draw_edges ?a ?b ?c] => destruct (draw_edges a b c)
  | context [draw_facelabels ?a ?b ?c] => destruct (draw_facelabels a b c)
  | context [draw_edgelabels ?a ?b ?c] => destruct (draw_edgelabels a b c)
  end;
  rewrite ?bind_Ok, ?bind_Err in H; cbv beta zeta in H; try discriminate H.

Lemma draw_show_vertices self v :
  base_dict "draw_nodes" = None →
  settings self !! "show.vertices" = Some v → truthy v = true →
  draw self = Err (AttributeError "draw_nodes").
Proof.
  intros Hbase Hv Htrue. unfold draw.
  rewrite (getitem_Some _ _ _ Hv), bind_Ok, Htrue.
  unfold getattr. change (class_dict "draw_nodes") with (@None (Method XYZ Geom)).
  by rewrite Hbase.
Qed.

Lemma draw_Ok_length self g :
  base_dict "draw_nodes" = None →
  draw self = Ok g →
  length g = 6%nat ∧
  ∃ v, settings self !! "show.vertices" = Some v ∧ truthy v = false.
Proof.
  intros Hbase Hdraw.
  destruct (settings self !! "show.vertices") as [v|] eqn:Hv.
  - destruct (truthy v) eqn:Htruthy.
    + by rewrite (draw_show_vertices self v) in Hdraw.
    + split; [|by exists v]. unfold draw in Hdraw.
      rewrite (getitem_Some _ _ _ Hv), bind_Ok, Htruthy, bind_Ok in Hdraw.
      repeat draw_step Hdraw;
        injection Hdraw as <-; by rewrite ?length_insert.
  - unfold draw, getitem in Hdraw. by rewrite Hv in Hdraw.
Qed.

(** C8. On a mesh artist whose [show.vertices] setting is true (as it is
    initially), [draw()] fails with an attribute-lookup error: it calls
    [self.draw_nodes()] (and then [self.draw_nodelabels()]), which the
    class does not define - it defines [draw_vertices] and
    [draw_vertexlabels] - and which, by assumption, the base class does
    not provide either.  [draw()] returns its list of six entries only when
    [show.vertices] is false. *)
Theorem draw_looks_up_missing_methods (m : Mesh XYZ) self :
  base_dict "draw_nodes" = None →
  (class_dict "draw_nodes" = None ∧ class_dict "draw_nodelabels" = None ∧
   is_Some (class_dict "draw_vertices") ∧
   is_Some (class_dict "draw_vertexlabels")) ∧
  (∀ v, settings self !! "show.vertices" = Some v → truthy v = true →
        draw self = Err (AttributeError "draw_nodes")) ∧
  draw (__init__ m) = Err (AttributeError "draw_nodes") ∧
  (∀ g, draw self = Ok g →
        length g = 6%nat ∧
        ∃ v, settings self !! "show.vertices" = Some v ∧ truthy v = false).
Proof.
  intros Hbase. split; [|split; [|split]].
  - split; [done|]. split; [done|]. split; by eexists.
  - intros v. by apply draw_show_vertices.
  - by apply (draw_show_vertices _ (VBool true)).
  - intros g. by apply draw_Ok_length.
Qed.

End with_base.

End mesh_artist.
(** ** Empty selections *)

Section selections.
Import specwords meshwords.
Context {XYZ : Type} `{host : networkartist.BlenderDrawing XYZ}.
Context {XYZ' Geom : Type} `{gh : meshartist.GhDrawing XYZ' Geom}.

(** C10. An empty list given as the selection of [draw_nodes],
    [draw_edges] (network artist), [draw_vertices], [draw_faces] or
    [draw_edges] (mesh artist) is treated as [None]: the call does what the
    call without a selection does, whatever that is; and when the colour
    setting is there, the data structure has geometry for its own keys and
    (for the network artist) the collection resolves, the call returns and
    the host has been handed one descriptor for every node, edge, vertex
    or face of the data structure, in order. *)
Theorem empty_selection_draws_all :
  (∀ color self d,
     networkartist.draw_nodes (Some []) color self d
     = networkartist.draw_nodes None color self d) ∧
  (∀ color self d,
     networkartist.draw_edges (Some []) color self d
     = networkartist.draw_edges None color self d) ∧
  (∀ color self,
     meshartist.draw_vertices (Some []) color self
     = meshartist.draw_vertices None color self) ∧
  (∀ color join_faces self,
     meshartist.draw_faces (Some []) color join_faces self
     = meshartist.draw_faces None color join_faces self) ∧
  (∀ color self,
     meshartist.draw_edges (Some []) color self
     = meshartist.draw_edges None color self) ∧
  (∀ color self d dflt c self1 d1,
     let net := networkartist.network self in
     networkartist.settings self !! "color.nodes" = Some dflt →
     hostlaws.has_nodes net (networkartist.net_nodes net) →
     networkartist.nodecollection self d = Ok (c, self1, d1) →
     ∃ points objs self' d',
       networkartist.draw_nodes (Some []) color self d = Ok (objs, self', d') ∧
       networkartist.draw_points points c d1 = (objs, d') ∧
       Forall2 (fun node p =>
                  networkartist.node_coordinates net node
                  = Ok (networkartist.pt_pos p) ∧
                  networkartist.pt_name p
                  = networkartist.net_name net +:+ ".node." +:+ str node)
               (networkartist.net_nodes net) points ∧
       networkartist.object_node self'
       = dict (zip objs (networkartist.net_nodes net))) ∧
  (∀ color self d dflt c self1 d1,
     let net := networkartist.network self in
     networkartist.settings self !! "color.edges" = Some dflt →
     hostlaws.has_ends net (networkartist.net_edges net) →
     networkartist.edgecollection self d = Ok (c, self1, d1) →
     ∃ lines objs self' d',
       networkartist.draw_edges (Some []) color self d = Ok (objs, self', d') ∧
       networkartist.draw_lines lines c d1 = (objs, d') ∧
       Forall2 (fun edge l =>
                  networkartist.node_coordinates net edge.1
                  = Ok (networkartist.ln_start l) ∧
                  networkartist.node_coordinates net edge.2
                  = Ok (networkartist.ln_end l) ∧
                  networkartist.ln_name l
                  = networkartist.net_name net +:+ ".edge." +:+ str edge.1
                    +:+ "-" +:+ str edge.2)
               (networkartist.net_edges net) lines ∧
       networkartist.object_edge self'
       = dict (zip objs (networkartist.net_edges net))) ∧
  (∀ color self dflt,
     let m := meshartist.mesh self in
     meshartist.settings self !! "color.vertices" = Some dflt →
     has_vertices m (meshartist.vertices m) →
     ∃ points,
       meshartist.draw_vertices (Some []) color self
       = Ok (meshartist.draw_points_ points) ∧
       Forall2 (fun vertex p =>
                  meshartist.vertex_coordinates m vertex
                  = Ok (meshartist.pt_pos p) ∧
                  meshartist.pt_name p
                  = meshartist.mesh_name m +:+ ".vertex." +:+ str vertex)
               (meshartist.vertices m) points) ∧
  (∀ color self dflt,
     let m := meshartist.mesh self in
     meshartist.settings self !! "color.faces" = Some dflt →
     has_faces m (meshartist.faces m) →
     ∃ polygons,
       meshartist.draw_faces (Some []) color false self
       = Ok (meshartist.draw_faces_ polygons) ∧
       meshartist.draw_faces (Some []) color true self
       = Ok [foldl meshartist.Mesh_Append meshartist.Mesh_new
               (meshartist.draw_faces_ polygons)] ∧
       Forall2 (fun fkey f =>
                  meshartist.face_coordinates m fkey
                  = Ok (meshartist.fc_points f) ∧
                  meshartist.fc_name f
                  = meshartist.mesh_name m +:+ ".face." +:+ str fkey)
               (meshartist.faces m) polygons) ∧
  (∀ color self dflt,
     let m := meshartist.mesh self in
     meshartist.settings self !! "color.edges" = Some dflt →
     has_edges m (meshartist.edges m) →
     ∃ lines,
       meshartist.draw_edges (Some []) color self
       = Ok (meshartist.draw_lines_ lines) ∧
       Forall2 (fun edge l =>
                  meshartist.edge_coordinates m edge.1 edge.2
                  = Ok (meshartist.ln_start l, meshartist.ln_end l) ∧
                  meshartist.ln_name l
                  = meshartist.mesh_name m +:+ ".edge." +:+ str edge.1
                    +:+ "-" +:+ str edge.2)
               (meshartist.edges m) lines).
Proof.
  do 5 (split; [done|]).
  split; [|split; [|split; [|split]]].
  - intros color self d dflt c self1 d1 net Hdflt Hhas Hcoll.
    destruct (node_points_total net color dflt _ Hhas) as [points Hpoints].
    pose proof (draw_nodes_eq (Some []) color self d dflt Hdflt) as Heq.
    cbv zeta in Heq. cbn [selection bool_decide decide_rel] in Heq.
    rewrite bool_decide_eq_true_2 in Heq by done.
    fold net in Heq. rewrite Hpoints, Hcoll, !bind_Ok in Heq.
    eexists points, _, _, _. split; [exact Heq|].
    split; [by destruct (networkartist.draw_points points c d1)|]. split.
    + eapply Forall2_impl;
        [by apply (node_points_described net color dflt
                     (networkartist.net_nodes net))|].
      cbn. tauto.
    + by rewrite object_node_eq.
  - intros color self d dflt c self1 d1 net Hdflt Hhas Hcoll.
    destruct (edge_lines_total net color dflt _ Hhas) as [lines Hlines].
    pose proof (draw_edges_eq (Some []) color self d dflt Hdflt) as Heq.
    cbv zeta in Heq. cbn [selection bool_decide decide_rel] in Heq.
    rewrite bool_decide_eq_true_2 in Heq by done.
    fold net in Heq. rewrite Hlines, Hcoll, !bind_Ok in Heq.
    eexists lines, _, _, _. split; [exact Heq|].
    split; [by destruct (networkartist.draw_lines lines c d1)|]. split.
    + eapply Forall2_impl;
        [by apply (edge_lines_described net color dflt
                     (networkartist.net_edges net))|].
      cbn. tauto.
    + by rewrite object_edge_eq.
  - intros color self dflt m Hdflt Hhas.
    apply (vertex_points_total m color dflt) in Hhas as [points Hpoints].
    exists points. rewrite (draw_vertices_eq _ _ _ dflt Hdflt).
    cbn [selection]. rewrite bool_decide_eq_true_2 by done.
    fold m. rewrite Hpoints, bind_Ok. split; [done|].
    eapply (mapM_described _ _ (meshartist.vertices m)); [|done|exact Hpoints].
    intros key p _ (pos & Hpos & ->)%vertex_point_Ok. cbn.
    split; [by apply lookup_key_Some|done].
  - intros color self dflt m Hdflt Hhas.
    apply (face_polygons_total m color dflt) in Hhas as [polygons Hpolygons].
    exists polygons. rewrite !(draw_faces_eq _ _ _ _ dflt Hdflt).
    cbn [selection]. rewrite bool_decide_eq_true_2 by done.
    fold m. rewrite Hpolygons, !bind_Ok. split; [done|]. split; [done|].
    eapply (mapM_described _ _ (meshartist.faces m)); [|done|exact Hpolygons].
    intros key p _ (pos & Hpos & ->)%face_polygon_Ok. cbn.
    split; [by apply lookup_key_Some|done].
  - intros color self dflt m Hdflt Hhas.
    apply (edge_lines_mesh_total m color dflt) in Hhas as [lines Hlines].
    exists lines. rewrite (draw_edges_mesh_eq _ _ _ dflt Hdflt).
    cbn [selection]. rewrite bool_decide_eq_true_2 by done.
    fold m. rewrite Hlines, bind_Ok. split; [done|].
    eapply (mapM_described _ _ (meshartist.edges m)); [|done|exact Hlines].
    intros key p _ ([start end_] & Hpos & ->)%edge_line_mesh_Ok. cbn.
    split; [by apply lookup_key_Some|done].
Qed.

End selections.

(** ** frameartist.py *)

Section frame_artist.
Import frameartist.
Context {Pnt Vec Scalar XYZ GUID Document : Type}.
Context `{geo : Geometry Pnt Vec Scalar XYZ}.
Context `{rh : RhinoDrawing XYZ GUID Document}.

(** C7. [FrameArtist.draw] maps the frame to host primitives one to one:
    it asks the host for exactly one point, at the frame's origin and in
    [color_origin], and then for exactly three arrow lines from the origin
    to the origin plus the x, y and z axis scaled by the artist's scale,
    in [color_xaxis], [color_yaxis] and [color_zaxis]; it returns the
    GUIDs of the point followed by those of the lines, and stores the same
    list in [self.guids].  With a host that returns one GUID per
    primitive, these are the point's GUID and then the three lines'. *)
Theorem frame_draw_primitives (self : FrameArtist Pnt Vec Scalar GUID)
    (doc : Document) :
  let frame := primitive self in
  let origin := to_list (point frame) in
  let tip axis := to_list (point_add (point frame) (scaled axis (scale self))) in
  let arrow axis color :=
    {| ln_start := origin; ln_end := tip axis; ln_color := color;
       ln_arrow := "end" |} in
  let points := [ {| pt_pos := origin; pt_color := color_origin self |} ] in
  let lines := [ arrow (xaxis frame) (color_xaxis self);
                 arrow (yaxis frame) (color_yaxis self);
                 arrow (zaxis frame) (color_zaxis self) ] in
  let drawn_points := draw_points points (layer self) false false doc in
  let drawn_lines := draw_lines lines (layer self) false false drawn_points.2 in
  length points = 1%nat ∧ length lines = 3%nat ∧
  (draw self doc).1.1 = (drawn_points.1 ++ drawn_lines.1)%list ∧
  guids (draw self doc).1.2 = (draw self doc).1.1 ∧
  (draw self doc).2 = drawn_lines.2 ∧
  (∀ g0 gx gy gz,
     drawn_points.1 = [g0] → drawn_lines.1 = [gx; gy; gz] →
     (draw self doc).1.1 = [g0; gx; gy; gz]).
Proof.
  cbv zeta. unfold draw.
  destruct (draw_points _ (layer self) false false doc) as [gs doc1].
  cbn [fst snd].
  destruct (draw_lines _ (layer self) false false doc1) as [gs' doc2].
  cbn. split; [done|]. split; [done|]. split; [done|]. split; [done|].
  split; [done|]. by intros g0 gx gy gz -> ->.
Qed.

End frame_artist.
(** ** The errors that are raised *)

Section errors.
Import specwords meshwords.
Context {XYZ Geom Pnt Vec GUID : Type} `{gh : meshartist.GhDrawing XYZ Geom}.

Implicit Types (c : api.Call XYZ Pnt Vec).

Lemma named_getitem name d :
  named d name ↔ ∃ o, objects_getitem name d = Ok o.
Proof.
  split.
  - intros (o & Hin & Hname).
    destruct (objects_getitem name d) as [o'|e] eqn:Hget; [by exists o'|].
    apply objects_getitem_Err in Hget as [_ Hno]. by apply Hno in Hin.
  - intros [o (Hin & Hname)%objects_getitem_Ok]. by exists o.
Qed.

Lemma not_named_getitem name d :
  ¬ named d name ↔ objects_getitem name d = Err (KeyError name).
Proof.
  rewrite objects_getitem_Err. split.
  - intros Hno. split; [done|]. intros o Hin Hname. apply Hno. by exists o.
  - intros [_ Hno] (o & Hin & Hname). by apply (Hno o).
Qed.

Lemma first_missing_cons_named n names d name :
  named d n →
  api.first_missing (n :: names) d name ↔ api.first_missing names d name.
Proof.
  intros Hn. split.
  - intros (found & rest & Hnames & Hfound & Hmiss).
    destruct found as [|n' found]; cbn in Hnames.
    + injection Hnames as -> _. done.
    + injection Hnames as -> Hnames.
      apply Forall_cons in Hfound as [_ Hfound]. by exists found, rest.
  - intros (found & rest & -> & Hfound & Hmiss).
    exists (n :: found), rest. split; [done|]. split; [|done].
    by apply Forall_cons.
Qed.

Lemma first_missing_cons_missing n names d name :
  ¬ named d n →
  api.first_missing (n :: names) d name ↔ name = n.
Proof.
  intros Hn. split.
  - intros (found & rest & Hnames & Hfound & Hmiss).
    destruct found as [|n' found]; cbn in Hnames.
    + by injection Hnames as -> _.
    + injection Hnames as -> Hnames.
      by apply Forall_cons in Hfound as [? _].
  - intros ->. exists [], names. by split.
Qed.

Lemma get_objects_by_names_Err names d e :
  get_objects_by_names names d = Err e ↔
  ∃ name, e = KeyError name ∧ api.first_missing names d name.
Proof.
  revert e. induction names as [|n names IH]; intros e.
  - split; [done|]. intros (name & _ & found & rest & Hnames & _).
    by destruct found.
  - change (get_objects_by_names (n :: names) d)
      with (obj ← objects_getitem n d;
            objs ← get_objects_by_names names d; Ok (obj :: objs)).
    destruct (objects_getitem n d) as [o|e0] eqn:Hget.
    + assert (Hn : named d n) by (apply named_getitem; by exists o).
      rewrite bind_Ok.
      assert (Hbind : (objs ← get_objects_by_names names d; Ok (o :: objs))
                      = Err e ↔ get_objects_by_names names d = Err e).
      { by destruct (get_objects_by_names names d). }
      rewrite Hbind, IH.
      split; intros (name & He & Hfm); exists name; (split; [done|]);
        by apply (first_missing_cons_named n names d name Hn).
    + apply objects_getitem_Err in Hget as [-> Hno].
      assert (Hn : ¬ named d n).
      { intros (o & Hin & Hname). by apply (Hno o). }
      rewrite bind_Err. split.
      * intros [= <-]. exists n. split; [done|].
        by apply first_missing_cons_missing.
      * intros (name & -> & Hfm).
        by apply first_missing_cons_missing in Hfm as ->.
Qed.

(** [get_objects_by_names] is the list comprehension over the lookups. *)
Lemma get_objects_by_names_mapM names d :
  get_objects_by_names names d
  = mapM (fun name => objects_getitem name d) names.
Proof.
  induction names as [|n names IH]; [done|].
  change (get_objects_by_names (n :: names) d)
    with (obj ← objects_getitem n d;
          objs ← get_objects_by_names names d; Ok (obj :: objs)).
  by rewrite IH.
Qed.

Lemma error_of_Err {A} (m : Result A) e :
  api.error_of m = Some e ↔ m = Err e.
Proof. destruct m; cbn; split; congruence. Qed.

Lemma error_of_None {A} (m : Result A) :
  api.error_of m = None ↔ ∃ a, m = Ok a.
Proof.
  destruct m; cbn; split; try done; [by eexists|by intros [? ?]].
Qed.

(** *** The loops over keys *)

Lemma descriptors_Err {K D G} (look : K → option G) (f : K → Result D)
    (keys : list K) e :
  (∀ key e, f key = Err e → look key = None ∧ ∃ k, e = KeyError k) →
  mapM f keys = Err e →
  (∃ k, e = KeyError k) ∧ ¬ Forall (fun key => is_Some (look key)) keys.
Proof.
  intros Hf (key & Hin & [Hnone Hk]%Hf)%mapM_Err. split; [done|].
  rewrite Forall_forall. intros Hall. specialize (Hall key Hin).
  rewrite Hnone in Hall. by destruct Hall.
Qed.

(** What a loop over keys ends with: nothing when the mesh has geometry
    for every key, a [KeyError] otherwise. *)
Lemma loop_outcome {K D G R} (look : K → option G) (f : K → Result D)
    (keys : list K) (g : list D → R) :
  (∀ key, (∃ x, f key = Ok x) ↔ is_Some (look key)) →
  (∀ key e, f key = Err e → look key = None ∧ ∃ k, e = KeyError k) →
  (Forall (fun key => is_Some (look key)) keys ∧
   api.error_of (xs ← mapM f keys; Ok (g xs)) = None) ∨
  (¬ Forall (fun key => is_Some (look key)) keys ∧
   ∃ k, api.error_of (xs ← mapM f keys; Ok (g xs)) = Some (KeyError k)).
Proof.
  intros Hok Herr.
  destruct (mapM f keys) as [xs|e] eqn:Hloop.
  - left. split; [|done]. apply (descriptors_total look f); [done|].
    by exists xs.
  - right. apply (descriptors_Err look) in Hloop as [[k ->] Hnot]; [|done].
    split; [done|]. by exists k.
Qed.

Lemma lookup_key_Err {A} (found : option A) key e :
  lookup_key found key = Err e → found = None ∧ ∃ k, e = KeyError k.
Proof. destruct found; [done|]. intros [= <-]. split; [done|]. by eexists. Qed.

Lemma vertex_point_Err (m : meshartist.Mesh XYZ) color dflt key e :
  vertex_point m color dflt key = Err e →
  meshartist.vertex_xyz m key = None ∧ ∃ k, e = KeyError k.
Proof.
  unfold vertex_point, meshartist.vertex_coordinates.
  destruct (lookup_key _ _) eqn:Hl; [done|].
  intros [= <-]. by apply lookup_key_Err in Hl.
Qed.

Lemma face_polygon_Err (m : meshartist.Mesh XYZ) color dflt key e :
  face_polygon m color dflt key = Err e →
  meshartist.face_xyz m key = None ∧ ∃ k, e = KeyError k.
Proof.
  unfold face_polygon, meshartist.face_coordinates.
  destruct (lookup_key _ _) eqn:Hl; [done|].
  intros [= <-]. by apply lookup_key_Err in Hl.
Qed.

Lemma edge_line_mesh_Err (m : meshartist.Mesh XYZ) color dflt key e :
  meshwords.edge_line m color dflt key = Err e →
  meshartist.edge_xyz m key.1 key.2 = None ∧ ∃ k, e = KeyError k.
Proof.
  unfold meshwords.edge_line, meshartist.edge_coordinates.
  destruct (lookup_key _ _) eqn:Hl; [done|].
  intros [= <-]. by apply lookup_key_Err in Hl.
Qed.

Lemma vertex_label_Err (m : meshartist.Mesh XYZ) t color dflt key e :
  vertex_label m t color dflt key = Err e →
  meshartist.vertex_xyz m key = None ∧ ∃ k, e = KeyError k.
Proof.
  unfold vertex_label, meshartist.vertex_coordinates.
  destruct (lookup_key _ _) eqn:Hl; [done|].
  intros [= <-]. by apply lookup_key_Err in Hl.
Qed.

Lemma face_label_Err (m : meshartist.Mesh XYZ) t color dflt key e :
  face_label m t color dflt key = Err e →
  meshartist.face_centre m key = None ∧ ∃ k, e = KeyError k.
Proof.
  unfold face_label, meshartist.face_center.
  destruct (lookup_key _ _) eqn:Hl; [done|].
  intros [= <-]. by apply lookup_key_Err in Hl.
Qed.

Lemma edge_label_Err (m : meshartist.Mesh XYZ) t color dflt key e :
  edge_label m t color dflt key = Err e →
  meshartist.edge_middle m key.1 key.2 = None ∧ ∃ k, e = KeyError k.
Proof.
  unfold edge_label, meshartist.edge_midpoint.
  destruct (lookup_key _ _) eqn:Hl; [done|].
  intros [= <-]. by apply lookup_key_Err in Hl.
Qed.

Lemma Forall_equiv_elem {A} (P : A → Prop) (l k : list A) :
  (∀ x, x ∈ l ↔ x ∈ k) → Forall P l ↔ Forall P k.
Proof.
  intros Heq. rewrite !Forall_forall.
  split; intros Hall x Hx; apply Hall, Heq, Hx.
Qed.

(** The keys a label method asks the mesh about are those the text names,
    or all of them. *)
Lemma label_keys_textdict {K} `{EqDecision K} (key_text : K → string)
    (all : list K) (text : Arg (list (K * string))) textdict (P : K → Prop) :
  textdict_of key_text all text = Some textdict →
  Forall P textdict.*1 ↔ Forall P (label_keys all text).
Proof.
  destruct text as [|t|v]; cbn; [|by intros [= <-]|done].
  intros [= <-]. apply Forall_equiv_elem. intros x.
  apply elem_of_ocomprehension.
Qed.

(** *** What each call ends with *)

(** A component method of the mesh artist. *)
Lemma component_ends {K D G} (self : meshartist.MeshArtist XYZ)
    (setting : string) (look : K → option G) (f : Value → K → Result D)
    (keys : list K) (g : list D → list Geom) (m : Result (list Geom)) :
  (∀ dflt, meshartist.settings self !! setting = Some dflt →
           m = (xs ← mapM (f dflt) keys; Ok (g xs))) →
  (meshartist.settings self !! setting = None →
   m = Err (KeyError setting)) →
  (∀ dflt key, (∃ x, f dflt key = Ok x) ↔ is_Some (look key)) →
  (∀ dflt key e, f dflt key = Err e → look key = None ∧ ∃ k, e = KeyError k) →
  ((∃ key, api.error_of m = Some (KeyError key)) ∧
   (api.lacks self setting ∨
    ¬ Forall (fun key => is_Some (look key)) keys)) ∨
  (api.error_of m = None ∧
   ¬ (api.lacks self setting ∨
      ¬ Forall (fun key => is_Some (look key)) keys)).
Proof.
  intros Heq Hnone Hok Herr. unfold api.lacks.
  destruct (meshartist.settings self !! setting) as [dflt|] eqn:Hdflt.
  - rewrite (Heq dflt) by done.
    destruct (loop_outcome look (f dflt) keys g (Hok dflt) (Herr dflt))
      as [[Hall Hout]|[Hnot Hout]].
    + right. split; [done|]. intros [?|?]; done.
    + left. split; [done|]. by right.
  - rewrite Hnone by done. left. split; [by eexists|by left].
Qed.

(** A label method of the mesh artist, with a text that is [None] or a
    dictionary. *)
Lemma label_ends {K D G} `{EqDecision K} (self : meshartist.MeshArtist XYZ)
    (setting : string) (look : K → option G)
    (f : list (K * string) → Value → K → Result D)
    (key_text : K → string) (all : list K) (text : Arg (list (K * string)))
    (g : list D → list Geom) (m : Result (list Geom)) :
  (∀ dflt, meshartist.settings self !! setting = Some dflt →
           m = match textdict_of key_text all text with
               | Some textdict =>
                   xs ← mapM (f textdict dflt) textdict.*1; Ok (g xs)
               | None => Err NotImplementedError
               end) →
  (meshartist.settings self !! setting = None →
   is_Some (textdict_of key_text all text) →
   m = Err (KeyError setting)) →
  (∀ t dflt key, (∃ x, f t dflt key = Ok x) ↔ is_Some (look key)) →
  (∀ t dflt key e,
     f t dflt key = Err e → look key = None ∧ ∃ k, e = KeyError k) →
  is_Some (textdict_of key_text all text) →
  ((∃ key, api.error_of m = Some (KeyError key)) ∧
   (api.lacks self setting ∨
    ¬ Forall (fun key => is_Some (look key)) (label_keys all text))) ∨
  (api.error_of m = None ∧
   ¬ (api.lacks self setting ∨
      ¬ Forall (fun key => is_Some (look key)) (label_keys all text))).
Proof.
  intros Heq Hnone Hok Herr [textdict Htext]. unfold api.lacks.
  destruct (meshartist.settings self !! setting) as [dflt|] eqn:Hdflt.
  - rewrite (Heq dflt) by done. rewrite Htext.
    rewrite <- (label_keys_textdict key_text all text textdict) by done.
    destruct (loop_outcome look (f textdict dflt) textdict.*1 g
                (Hok textdict dflt) (Herr textdict dflt))
      as [[Hall Hout]|[Hnot Hout]].
    + right. split; [done|]. intros [?|?]; done.
    + left. split; [done|]. by right.
  - rewrite Hnone by (done || by eexists).
    left. split; [by eexists|by left].
Qed.


Lemma draw_vertices_lacks keys color (self : meshartist.MeshArtist XYZ) :
  meshartist.settings self !! "color.vertices" = None →
  meshartist.draw_vertices keys color self = Err (KeyError "color.vertices").
Proof. intros Hnone. unfold meshartist.draw_vertices, getitem. by rewrite Hnone. Qed.

Lemma draw_faces_lacks keys color join_faces
    (self : meshartist.MeshArtist XYZ) :
  meshartist.settings self !! "color.faces" = None →
  meshartist.draw_faces keys color join_faces self
  = Err (KeyError "color.faces").
Proof. intros Hnone. unfold meshartist.draw_faces, getitem. by rewrite Hnone. Qed.

Lemma draw_edges_lacks keys color (self : meshartist.MeshArtist XYZ) :
  meshartist.settings self !! "color.edges" = None →
  meshartist.draw_edges keys color self = Err (KeyError "color.edges").
Proof. intros Hnone. unfold meshartist.draw_edges, getitem. by rewrite Hnone. Qed.

Lemma draw_vertexlabels_lacks text color (self : meshartist.MeshArtist XYZ) :
  meshartist.settings self !! "color.vertices" = None →
  is_Some (textdict_of str (meshartist.vertices (meshartist.mesh self)) text) →
  meshartist.draw_vertexlabels text color self
  = Err (KeyError "color.vertices").
Proof.
  intros Hnone Htext. unfold meshartist.draw_vertexlabels, getitem.
  destruct text; [| |by destruct Htext]; by rewrite bind_Ok, Hnone.
Qed.

Lemma draw_facelabels_lacks text color (self : meshartist.MeshArtist XYZ) :
  meshartist.settings self !! "color.faces" = None →
  is_Some (textdict_of str (meshartist.faces (meshartist.mesh self)) text) →
  meshartist.draw_facelabels text color self = Err (KeyError "color.faces").
Proof.
  intros Hnone Htext. unfold meshartist.draw_facelabels, getitem.
  destruct text; [| |by destruct Htext]; by rewrite bind_Ok, Hnone.
Qed.

Lemma draw_edgelabels_lacks text color (self : meshartist.MeshArtist XYZ) :
  meshartist.settings self !! "color.edges" = None →
  is_Some (textdict_of meshartist.edge_text
             (meshartist.edges (meshartist.mesh self)) text) →
  meshartist.draw_edgelabels text color self = Err (KeyError "color.edges").
Proof.
  intros Hnone Htext. unfold meshartist.draw_edgelabels, getitem.
  destruct text; [| |by destruct Htext]; by rewrite bind_Ok, Hnone.
Qed.

Lemma textdict_of_is_Some {K} `{EqDecision K} (key_text : K → string)
    (all : list K) (text : Arg (list (K * string))) :
  is_Some (textdict_of key_text all text) ∨ ∃ v, text = ArgValue v.
Proof. destruct text; [left; by eexists..|right; by eexists]. Qed.

Ltac fills := repeat split; try done; try (intros ?; tauto); try tauto.

(** Every call ends in exactly one of five ways, each with its cause. *)
Lemma outcome_cases c :
  (api.outcome (GUID := GUID) c = Some NotImplementedError ∧
   (api.invalid_label_text c ∨ api.is_draw_collection c) ∧
   (∀ name, ¬ api.missing_name c name) ∧ ¬ api.removed_handle c) ∨
  (∃ name, api.outcome (GUID := GUID) c = Some (KeyError name) ∧
           api.missing_name c name ∧
           ¬ api.invalid_label_text c ∧ ¬ api.is_draw_collection c ∧
           ¬ api.failed_lookup c ∧ ¬ api.removed_handle c) ∨
  (∃ key, api.outcome (GUID := GUID) c = Some (KeyError key) ∧
          api.failed_lookup c ∧
          ¬ api.invalid_label_text c ∧ ¬ api.is_draw_collection c ∧
          (∀ name, ¬ api.missing_name c name) ∧ ¬ api.removed_handle c) ∨
  (api.outcome (GUID := GUID) c = Some ReferenceError ∧
   api.removed_handle c ∧
   ¬ api.invalid_label_text c ∧ ¬ api.is_draw_collection c ∧
   (∀ name, ¬ api.missing_name c name) ∧ ¬ api.failed_lookup c) ∨
  (api.outcome (GUID := GUID) c = None ∧
   ¬ api.invalid_label_text c ∧ ¬ api.is_draw_collection c ∧
   (∀ name, ¬ api.missing_name c name) ∧ ¬ api.failed_lookup c ∧
   ¬ api.removed_handle c).
Proof.
  destruct c as [self text color|self text color|self text color
                |self keys color|self keys color join_faces|self keys color
                |collection names colors layer clear add_to_group group_name
                |name d|names d|name d|names d|obj d|objs d];
    cbn [api.outcome api.invalid_label_text api.is_draw_collection
         api.missing_name api.failed_lookup api.removed_handle].
  - destruct (textdict_of_is_Some str
                (meshartist.vertices (meshartist.mesh self)) text)
      as [Htext|[v ->]].
    + assert (Hvalid : ¬ match text with ArgValue _ => True | _ => False end)
        by (destruct text; [tauto..|by destruct Htext]).
      destruct (label_ends self "color.vertices"
                  (meshartist.vertex_xyz (meshartist.mesh self))
                  (fun t dflt => vertex_label (meshartist.mesh self) t color dflt)
                  str (meshartist.vertices (meshartist.mesh self)) text
                  meshartist.draw_labels_
                  (meshartist.draw_vertexlabels text color self))
        as [[[key Hout] Hfail]|[Hout Hnot]]; try done.
      * intros dflt Hdflt. by apply draw_vertexlabels_eq.
      * intros Hnone _. by apply draw_vertexlabels_lacks.
      * intros t dflt key. split.
        -- intros [p (pos & Hpos & _)%vertex_label_Ok]. by exists pos.
        -- intros [pos Hpos]. eexists. apply vertex_label_Ok. by exists pos.
      * intros t dflt key e. apply vertex_label_Err.
      * right; right; left. exists key. fills.
      * do 4 right. fills.
    + left. fills.
  - destruct (textdict_of_is_Some str
                (meshartist.faces (meshartist.mesh self)) text)
      as [Htext|[v ->]].
    + assert (Hvalid : ¬ match text with ArgValue _ => True | _ => False end)
        by (destruct text; [tauto..|by destruct Htext]).
      destruct (label_ends self "color.faces"
                  (meshartist.face_centre (meshartist.mesh self))
                  (fun t dflt => face_label (meshartist.mesh self) t color dflt)
                  str (meshartist.faces (meshartist.mesh self)) text
                  meshartist.draw_labels_
                  (meshartist.draw_facelabels text color self))
        as [[[key Hout] Hfail]|[Hout Hnot]]; try done.
      * intros dflt Hdflt. by apply draw_facelabels_eq.
      * intros Hnone _. by apply draw_facelabels_lacks.
      * intros t dflt key. split.
        -- intros [p (pos & Hpos & _)%face_label_Ok]. by exists pos.
        -- intros [pos Hpos]. eexists. apply face_label_Ok. by exists pos.
      * intros t dflt key e. apply face_label_Err.
      * right; right; left. exists key. fills.
      * do 4 right. fills.
    + left. fills.
  - destruct (textdict_of_is_Some meshartist.edge_text
                (meshartist.edges (meshartist.mesh self)) text)
      as [Htext|[v ->]].
    + assert (Hvalid : ¬ match text with ArgValue _ => True | _ => False end)
        by (destruct text; [tauto..|by destruct Htext]).
      destruct (label_ends self "color.edges"
                  (fun uv => meshartist.edge_middle (meshartist.mesh self)
                               uv.1 uv.2)
                  (fun t dflt => edge_label (meshartist.mesh self) t color dflt)
                  meshartist.edge_text
                  (meshartist.edges (meshartist.mesh self)) text
                  meshartist.draw_labels_
                  (meshartist.draw_edgelabels text color self))
        as [[[key Hout] Hfail]|[Hout Hnot]]; try done.
      * intros dflt Hdflt. by apply draw_edgelabels_eq.
      * intros Hnone _. by apply draw_edgelabels_lacks.
      * intros t dflt key. split.
        -- intros [p (pos & Hpos & _)%edge_label_Ok]. by exists pos.
        -- intros [pos Hpos]. eexists. apply edge_label_Ok. by exists pos.
      * intros t dflt key e. apply edge_label_Err.
      * right; right; left. exists key. fills.
      * do 4 right. fills.
    + left. fills.
  - destruct (component_ends self "color.vertices"
                (meshartist.vertex_xyz (meshartist.mesh self))
                (fun dflt => vertex_point (meshartist.mesh self) color dflt)
                (selection keys (meshartist.vertices (meshartist.mesh self)))
                meshartist.draw_points_
                (meshartist.draw_vertices keys color self))
      as [[[key Hout] Hfail]|[Hout Hnot]].
    + intros dflt Hdflt. by apply draw_vertices_eq.
    + apply draw_vertices_lacks.
    + intros dflt key. split.
      * intros [p (pos & Hpos & _)%vertex_point_Ok]. by exists pos.
      * intros [pos Hpos]. eexists. apply vertex_point_Ok. by exists pos.
    + intros dflt key e. apply vertex_point_Err.
    + right; right; left. exists key. fills.
    + do 4 right. fills.
  - destruct (component_ends self "color.faces"
                (meshartist.face_xyz (meshartist.mesh self))
                (fun dflt => face_polygon (meshartist.mesh self) color dflt)
                (selection keys (meshartist.faces (meshartist.mesh self)))
                (fun faces =>
                   if join_faces
                   then [foldl meshartist.Mesh_Append meshartist.Mesh_new
                           (meshartist.draw_faces_ faces)]
                   else meshartist.draw_faces_ faces)
                (meshartist.draw_faces keys color join_faces self))
      as [[[key Hout] Hfail]|[Hout Hnot]].
    + intros dflt Hdflt. by apply draw_faces_eq.
    + apply draw_faces_lacks.
    + intros dflt key. split.
      * intros [p (pos & Hpos & _)%face_polygon_Ok]. by exists pos.
      * intros [pos Hpos]. eexists. apply face_polygon_Ok. by exists pos.
    + intros dflt key e. apply face_polygon_Err.
    + right; right; left. exists key. fills.
    + do 4 right. fills.
  - destruct (component_ends self "color.edges"
                (fun uv => meshartist.edge_xyz (meshartist.mesh self)
                             uv.1 uv.2)
                (fun dflt =>
                   meshwords.edge_line (meshartist.mesh self) color dflt)
                (selection keys (meshartist.edges (meshartist.mesh self)))
                meshartist.draw_lines_
                (meshartist.draw_edges keys color self))
      as [[[key Hout] Hfail]|[Hout Hnot]].
    + intros dflt Hdflt. by apply draw_edges_mesh_eq.
    + apply draw_edges_lacks.
    + intros dflt key. split.
      * intros [p (pos & Hpos & _)%edge_line_mesh_Ok]. by exists pos.
      * intros [pos Hpos]. eexists. apply edge_line_mesh_Ok. by exists pos.
    + intros dflt key e. apply edge_line_mesh_Err.
    + right; right; left. exists key. fills.
    + do 4 right. fills.
  - left. fills.
  - unfold get_object_by_name.
    destruct (objects_getitem name d) as [o|e] eqn:Hget.
    + do 4 right. fills. intros name' [<- Hno]. apply Hno.
      apply named_getitem. by exists o.
    + apply objects_getitem_Err in Hget as Hg. destruct Hg as [-> Hno].
      right; left. exists name. fills. by apply not_named_getitem.
  - destruct (get_objects_by_names names d) as [objs|e] eqn:Hget.
    + do 4 right. fills. intros name Hfm.
      assert (Herr : get_objects_by_names names d = Err (KeyError name))
        by (apply get_objects_by_names_Err; by exists name).
      congruence.
    + apply get_objects_by_names_Err in Hget as (name & -> & Hfm).
      right; left. exists name. fills.
  - unfold delete_object_by_name, get_object_by_name.
    destruct (objects_getitem name d) as [o|e] eqn:Hget.
    + apply objects_getitem_Ok in Hget as Ho. destruct Ho as [Hin Hname].
      rewrite bind_Ok, delete_object_Ok by done.
      do 4 right. fills. intros name' [<- Hno]. apply Hno.
      apply named_getitem. by exists o.
    + apply objects_getitem_Err in Hget as Hg. destruct Hg as [-> Hno].
      right; left. exists name. fills. by apply not_named_getitem.
  - unfold delete_objects_by_names.
    destruct (get_objects_by_names names d) as [objs|e] eqn:Hget.
    + assert (Hnomiss : ∀ name, ¬ api.first_missing names d name).
      { intros name Hfm.
        assert (Herr : get_objects_by_names names d = Err (KeyError name))
          by (apply get_objects_by_names_Err; by exists name).
        congruence. }
      rewrite bind_Ok, delete_objects_eq.
      rewrite get_objects_by_names_mapM in Hget.
      destruct (decide (deletable objs d)) as [Hdel|Hnot].
      * do 4 right. fills. intros (objs' & Hobjs' & Hnot). congruence.
      * do 3 right; left. fills. by exists objs.
    + apply get_objects_by_names_Err in Hget as (name & -> & Hfm).
      right; left. exists name. fills.
      intros (objs & Hobjs & _).
      rewrite <- get_objects_by_names_mapM in Hobjs.
      assert (Herr : get_objects_by_names names d = Err (KeyError name))
        by (apply get_objects_by_names_Err; by exists name).
      congruence.
  - destruct (decide (obj ∈ objects d)) as [Hin|Hnot].
    + rewrite delete_object_Ok by done. do 4 right. fills.
    + rewrite delete_object_Err by done. do 3 right; left. fills.
  - rewrite delete_objects_eq.
    destruct (decide (deletable objs d)) as [Hdel|Hnot].
    + do 4 right. fills.
    + do 3 right; left. fills.
Qed.

Lemma first_missing_unique names d name name' :
  api.first_missing names d name → api.first_missing names d name' →
  name = name'.
Proof.
  intros H1 H2.
  assert (E1 : get_objects_by_names names d = Err (KeyError name))
    by (apply get_objects_by_names_Err; by exists name).
  assert (E2 : get_objects_by_names names d = Err (KeyError name'))
    by (apply get_objects_by_names_Err; by exists name').
  congruence.
Qed.

Lemma missing_name_unique c name name' :
  api.missing_name c name → api.missing_name c name' → name = name'.
Proof.
  destruct c; cbn; try done;
    try (by intros [<- _] [<- _]); apply first_missing_unique.
Qed.

(** *** Labels without a text *)

Lemma labelled_vertex_labels (m : meshartist.Mesh XYZ) color dflt labels :
  mapM (vertex_label m (ocomprehension str (meshartist.vertices m)) color dflt)
       (ocomprehension str (meshartist.vertices m)).*1 = Ok labels →
  labelled_with_keys str (meshartist.vertices m)
    (fun l key =>
       meshartist.vertex_coordinates m key = Ok (meshartist.lb_pos l) ∧
       meshartist.lb_name l
       = meshartist.mesh_name m +:+ ".vertexlabel." +:+ str key)
    labels.
Proof.
  intros [Hl Hk]%mapM_Ok_elem. split.
  - intros l (key & Hkey%elem_of_ocomprehension
              & (pos & Hpos & ->)%vertex_label_Ok)%Hl.
    exists key. split; [done|]. split; [by split; [apply lookup_key_Some|]|].
    cbn. unfold text_of. by rewrite oget_ocomprehension.
  - intros key Hkey.
    destruct (Hk key) as (l & Hin & (pos & Hpos & ->)%vertex_label_Ok);
      [by apply elem_of_ocomprehension|].
    eexists. split; [exact Hin|].
    split; [by split; [apply lookup_key_Some|]|].
    cbn. unfold text_of. by rewrite oget_ocomprehension.
Qed.

Lemma labelled_face_labels (m : meshartist.Mesh XYZ) color dflt labels :
  mapM (face_label m (ocomprehension str (meshartist.faces m)) color dflt)
       (ocomprehension str (meshartist.faces m)).*1 = Ok labels →
  labelled_with_keys str (meshartist.faces m)
    (fun l key =>
       meshartist.face_center m key = Ok (meshartist.lb_pos l) ∧
       meshartist.lb_name l
       = meshartist.mesh_name m +:+ ".facelabel." +:+ str key)
    labels.
Proof.
  intros [Hl Hk]%mapM_Ok_elem. split.
  - intros l (key & Hkey%elem_of_ocomprehension
              & (pos & Hpos & ->)%face_label_Ok)%Hl.
    exists key. split; [done|]. split; [by split; [apply lookup_key_Some|]|].
    cbn. unfold text_of. by rewrite oget_ocomprehension.
  - intros key Hkey.
    destruct (Hk key) as (l & Hin & (pos & Hpos & ->)%face_label_Ok);
      [by apply elem_of_ocomprehension|].
    eexists. split; [exact Hin|].
    split; [by split; [apply lookup_key_Some|]|].
    cbn. unfold text_of. by rewrite oget_ocomprehension.
Qed.

Lemma labelled_edge_labels (m : meshartist.Mesh XYZ) color dflt labels :
  mapM (edge_label m (ocomprehension meshartist.edge_text
                        (meshartist.edges m)) color dflt)
       (ocomprehension meshartist.edge_text (meshartist.edges m)).*1
  = Ok labels →
  labelled_with_keys meshartist.edge_text (meshartist.edges m)
    (fun l uv =>
       meshartist.edge_midpoint m uv.1 uv.2 = Ok (meshartist.lb_pos l) ∧
       meshartist.lb_name l
       = meshartist.mesh_name m +:+ ".edgelabel." +:+ str uv.1 +:+ "-"
         +:+ str uv.2)
    labels.
Proof.
  intros [Hl Hk]%mapM_Ok_elem. split.
  - intros l (key & Hkey%elem_of_ocomprehension
              & (pos & Hpos & ->)%edge_label_Ok)%Hl.
    exists key. split; [done|]. split; [by split; [apply lookup_key_Some|]|].
    cbn. unfold text_of. by rewrite oget_ocomprehension.
  - intros key Hkey.
    destruct (Hk key) as (l & Hin & (pos & Hpos & ->)%edge_label_Ok);
      [by apply elem_of_ocomprehension|].
    eexists. split; [exact Hin|].
    split; [by split; [apply lookup_key_Some|]|].
    cbn. unfold text_of. by rewrite oget_ocomprehension.
Qed.

(** C5. The errors the modelled functions raise are these, and no
    others:
    - each of [draw_vertexlabels], [draw_facelabels] and [draw_edgelabels]
      raises [NotImplementedError] if and only if its [text] is neither
      [None] nor a dictionary, and [FrameArtist.draw_collection] raises it
      on every call;
    - the lookups and deletions by name raise the host's lookup error
      ([KeyError]) for the first name that no object of the scene has;
    - a drawing method of the mesh artist raises [KeyError] when the
      settings have lost its colour or the mesh has no geometry for a key
      it is to draw or label (and the text is valid);
    - a deletion raises [ReferenceError] exactly when it is handed a
      handle whose object has left the scene.
    A call returns exactly when none of these causes is there.  With
    [text = None], a label method that returns has labelled every vertex,
    face or edge of the mesh with its key; it returns when the colour
    setting is there and the mesh has a position for each of them. *)
Theorem raised_errors_by_design :
  (∀ (c : api.Call XYZ Pnt Vec) (e : Error),
     api.outcome (GUID := GUID) c = Some e → api.raised_error c e) ∧
  (∀ c : api.Call XYZ Pnt Vec,
     api.outcome (GUID := GUID) c = Some NotImplementedError ↔
     api.invalid_label_text c ∨ api.is_draw_collection c) ∧
  (∀ (c : api.Call XYZ Pnt Vec) name,
     api.missing_name c name →
     api.outcome (GUID := GUID) c = Some (KeyError name)) ∧
  (∀ c : api.Call XYZ Pnt Vec,
     api.failed_lookup c → ¬ api.invalid_label_text c →
     ∃ key, api.outcome (GUID := GUID) c = Some (KeyError key)) ∧
  (∀ c : api.Call XYZ Pnt Vec,
     api.outcome (GUID := GUID) c = Some ReferenceError ↔
     api.removed_handle c) ∧
  (∀ c : api.Call XYZ Pnt Vec,
     api.outcome (GUID := GUID) c = None ↔
     ¬ api.invalid_label_text c ∧ ¬ api.is_draw_collection c ∧
     (∀ name, ¬ api.missing_name c name) ∧ ¬ api.failed_lookup c ∧
     ¬ api.removed_handle c) ∧
  (∀ self color dflt,
     let m := meshartist.mesh self in
     meshartist.settings self !! "color.vertices" = Some dflt →
     has_vertices m (meshartist.vertices m) →
     ∃ labels,
       meshartist.draw_vertexlabels ArgNone color self
       = Ok (meshartist.draw_labels_ labels) ∧
       labelled_with_keys str (meshartist.vertices m)
         (fun l key =>
            meshartist.vertex_coordinates m key = Ok (meshartist.lb_pos l) ∧
            meshartist.lb_name l
            = meshartist.mesh_name m +:+ ".vertexlabel." +:+ str key)
         labels) ∧
  (∀ self color dflt,
     let m := meshartist.mesh self in
     meshartist.settings self !! "color.faces" = Some dflt →
     has_centres m (meshartist.faces m) →
     ∃ labels,
       meshartist.draw_facelabels ArgNone color self
       = Ok (meshartist.draw_labels_ labels) ∧
       labelled_with_keys str (meshartist.faces m)
         (fun l key =>
            meshartist.face_center m key = Ok (meshartist.lb_pos l) ∧
            meshartist.lb_name l
            = meshartist.mesh_name m +:+ ".facelabel." +:+ str key)
         labels) ∧
  (∀ self color dflt,
     let m := meshartist.mesh self in
     meshartist.settings self !! "color.edges" = Some dflt →
     has_middles m (meshartist.edges m) →
     ∃ labels,
       meshartist.draw_edgelabels ArgNone color self
       = Ok (meshartist.draw_labels_ labels) ∧
       labelled_with_keys meshartist.edge_text (meshartist.edges m)
         (fun l uv =>
            meshartist.edge_midpoint m uv.1 uv.2
            = Ok (meshartist.lb_pos l) ∧
            meshartist.lb_name l
            = meshartist.mesh_name m +:+ ".edgelabel." +:+ str uv.1 +:+ "-"
              +:+ str uv.2)
         labels).
Proof.
  split; [|split; [|split; [|split; [|split; [|split; [|split; [|split]]]]]]].
  - intros c e He. unfold api.raised_error.
    destruct (outcome_cases c)
      as [(Hout & ? & _)|[(name & Hout & ? & _)|[(key & Hout & ? & _)
         |[(Hout & ? & _)|(Hout & _)]]]];
      rewrite Hout in He; try discriminate He; injection He as <-.
    + left. by split.
    + right; left. by exists name.
    + right; right; left. by exists key.
    + right; right; right. by split.
  - intros c.
    destruct (outcome_cases c)
      as [(Hout & ? & _)|[(name & Hout & _ & ? & ? & _)
         |[(key & Hout & _ & ? & ? & _)
         |[(Hout & _ & ? & ? & _)|(Hout & ? & ? & _)]]]];
      rewrite Hout; split; try done; tauto.
  - intros c name Hmiss.
    destruct (outcome_cases c)
      as [(_ & _ & Hno & _)|[(name' & Hout & Hmiss' & _)
         |[(key & _ & _ & _ & _ & Hno & _)
         |[(_ & _ & _ & _ & Hno & _)|(_ & _ & _ & Hno & _)]]]];
      try (by destruct (Hno name)).
    by rewrite (missing_name_unique c name name').
  - intros c Hfail Hvalid.
    destruct (outcome_cases c)
      as [(Hout & [?|?] & _)|[(name' & _ & _ & _ & _ & ? & _)
         |[(key & Hout & _)
         |[(_ & _ & _ & _ & _ & ?)|(_ & _ & _ & _ & ? & _)]]]];
      try done; [|by exists key].
    by destruct c.
  - intros c.
    destruct (outcome_cases c)
      as [(Hout & _ & _ & ?)|[(name & Hout & _ & _ & _ & _ & ?)
         |[(key & Hout & _ & _ & _ & _ & ?)
         |[(Hout & ? & _)|(Hout & _ & _ & _ & _ & ?)]]]];
      rewrite Hout; split; try done; tauto.
  - intros c.
    destruct (outcome_cases c)
      as [(Hout & ? & _)|[(name & Hout & ? & _)
         |[(key & Hout & ? & _)
         |[(Hout & ? & _)|(Hout & ?)]]]];
      rewrite Hout; split; try done; try tauto.
    intros (_ & _ & Hno & _). by destruct (Hno name).
  - intros self color dflt m Hdflt Hhas.
    rewrite (draw_vertexlabels_eq _ _ _ dflt Hdflt). cbn [textdict_of].
    fold m.
    destruct (mapM _ _) as [labels|e] eqn:Hloop.
    + exists labels. split; [done|]. by eapply labelled_vertex_labels.
    + exfalso.
      apply (descriptors_Err (meshartist.vertex_xyz m)) in Hloop as [_ Hnot];
        [|intros key e'; apply vertex_label_Err].
      apply Hnot. unfold has_vertices in Hhas.
      eapply Forall_equiv_elem; [|exact Hhas].
      intros x. apply elem_of_ocomprehension.
  - intros self color dflt m Hdflt Hhas.
    rewrite (draw_facelabels_eq _ _ _ dflt Hdflt). cbn [textdict_of].
    fold m.
    destruct (mapM _ _) as [labels|e] eqn:Hloop.
    + exists labels. split; [done|]. by eapply labelled_face_labels.
    + exfalso.
      apply (descriptors_Err (meshartist.face_centre m)) in Hloop as [_ Hnot];
        [|intros key e'; apply face_label_Err].
      apply Hnot. unfold has_centres in Hhas.
      eapply Forall_equiv_elem; [|exact Hhas].
      intros x. apply elem_of_ocomprehension.
  - intros self color dflt m Hdflt Hhas.
    rewrite (draw_edgelabels_eq _ _ _ dflt Hdflt). cbn [textdict_of].
    fold m.
    destruct (mapM _ _) as [labels|e] eqn:Hloop.
    + exists labels. split; [done|]. by eapply labelled_edge_labels.
    + exfalso.
      apply (descriptors_Err
               (fun uv => meshartist.edge_middle m uv.1 uv.2)) in Hloop
        as [_ Hnot]; [|intros key e'; apply edge_label_Err].
      apply Hnot. unfold has_middles in Hhas.
      eapply Forall_equiv_elem; [|exact Hhas].
      intros x. apply elem_of_ocomprehension.
Qed.

End errors.
(** ** More on objects.py *)

Section objects_more.

Lemma foldl_objects_remove (l : list Object) d :
  objects (foldl (fun d obj => objects_remove obj d) d l)
  = filter (fun x => x ∉ l) (objects d) ∧
  meshes (foldl (fun d obj => objects_remove obj d) d l) = meshes d ∧
  curves (foldl (fun d obj => objects_remove obj d) d l) = curves d ∧
  collections (foldl (fun d obj => objects_remove obj d) d l) = collections d.
Proof.
  revert d. induction l as [|o l IH]; intros d; cbn.
  - split; [|done]. symmetry. apply filter_all. intros x _.
    apply not_elem_of_nil.
  - destruct (IH (objects_remove o d)) as (-> & -> & -> & ->). cbn.
    split; [|done]. rewrite list_filter_filter.
    apply list_filter_iff. intros x. rewrite not_elem_of_cons. tauto.
Qed.

Lemma foldl_meshes_remove (l : list N) d :
  (∀ x, x ∈ objects (foldl (fun d mesh => meshes_remove mesh d) d l) →
        x ∈ objects d) ∧
  meshes (foldl (fun d mesh => meshes_remove mesh d) d l)
  = filter (fun x => x ∉ l) (meshes d) ∧
  curves (foldl (fun d mesh => meshes_remove mesh d) d l) = curves d ∧
  collections (foldl (fun d mesh => meshes_remove mesh d) d l) = collections d.
Proof.
  revert d. induction l as [|m l IH]; intros d; cbn.
  - split; [done|]. split; [|done]. symmetry. apply filter_all. intros x _.
    apply not_elem_of_nil.
  - destruct (IH (meshes_remove m d)) as (Hsub & -> & -> & ->). cbn.
    split; [|split; [|done]].
    + intros x Hx%Hsub. cbn in Hx. by apply list_elem_of_filter in Hx as [_ ?].
    + rewrite list_filter_filter.
      apply list_filter_iff. intros x. rewrite not_elem_of_cons. tauto.
Qed.

Lemma foldl_curves_remove (l : list N) d :
  (∀ x, x ∈ objects (foldl (fun d curve => curves_remove curve d) d l) →
        x ∈ objects d) ∧
  meshes (foldl (fun d curve => curves_remove curve d) d l) = meshes d ∧
  curves (foldl (fun d curve => curves_remove curve d) d l)
  = filter (fun x => x ∉ l) (curves d) ∧
  collections (foldl (fun d curve => curves_remove curve d) d l) = collections d.
Proof.
  revert d. induction l as [|c l IH]; intros d; cbn.
  - split; [done|]. split; [done|]. split; [|done].
    symmetry. apply filter_all. intros x _. apply not_elem_of_nil.
  - destruct (IH (curves_remove c d)) as (Hsub & -> & -> & ->). cbn.
    split; [|split; [done|split; [|done]]].
    + intros x Hx%Hsub. cbn in Hx. by apply list_elem_of_filter in Hx as [_ ?].
    + rewrite list_filter_filter.
      apply list_filter_iff. intros x. rewrite not_elem_of_cons. tauto.
Qed.

Lemma nil_if_no_elem {A} (l : list A) : (∀ x, x ∉ l) → l = [].
Proof.
  destruct l as [|x l]; [done|]. intros Hno. destruct (Hno x). by left.
Qed.

(** X1. [delete_all_objects()] leaves a file without objects, without mesh
    data and without curve data; the collections stay. *)
Theorem delete_all_objects_empties (d : data) :
  objects (delete_all_objects d) = [] ∧
  meshes (delete_all_objects d) = [] ∧
  curves (delete_all_objects d) = [] ∧
  collections (delete_all_objects d) = collections d.
Proof.
  unfold delete_all_objects. cbv zeta.
  set (d1 := foldl (fun d obj => objects_remove obj d) d (objects d)).
  set (d2 := foldl (fun d mesh => meshes_remove mesh d) d1 (meshes d1)).
  destruct (foldl_objects_remove (objects d) d) as (Ho1 & Hm1 & Hc1 & Hk1).
  destruct (foldl_meshes_remove (meshes d1) d1) as (Ho2 & Hm2 & Hc2 & Hk2).
  destruct (foldl_curves_remove (curves d2) d2) as (Ho3 & -> & -> & ->).
  fold d1 in Ho1, Hm1, Hc1, Hk1. fold d2 in Ho2, Hm2, Hc2, Hk2, Ho3.
  rewrite Hm2, Hk2, Hk1.
  split; [|split; [|split; [|done]]].
  - apply nil_if_no_elem. intros x Hx%Ho3%Ho2. rewrite Ho1 in Hx.
    by apply list_elem_of_filter in Hx as [Hnot Hin].
  - apply filter_none. intros x Hx Hn. by apply Hn.
  - apply filter_none. intros x Hx Hn. by apply Hn.
Qed.

Lemma mesh_of_Some o m :
  mesh_of o = Some m ↔ ob_type o = "MESH" ∧ ob_data o = Some m.
Proof. unfold mesh_of. case_decide; split; try done; tauto. Qed.

Lemma curve_of_Some o c :
  curve_of o = Some c ↔ ob_type o = "CURVE" ∧ ob_data o = Some c.
Proof. unfold curve_of. case_decide; split; try done; tauto. Qed.

(** X2. [delete_objects(objects)] returns exactly when the handles can be
    deleted one after the other - every handle is an object of the file,
    none is given twice, no two use the same data block - and raises
    [ReferenceError] otherwise.  When it returns, the given objects are
    gone, and with them the objects that used one of their data blocks:
    exactly the given objects when no other object uses such a block.  The
    mesh data of the given objects of type "MESH" and the curve data of
    those of type "CURVE" are gone; every other data block stays, and so
    do the collections. *)
Theorem delete_objects_exactly (os : list Object) (d : data) :
  ((∃ d', delete_objects os d = Ok d') ↔ deletable os d) ∧
  (¬ deletable os d → delete_objects os d = Err ReferenceError) ∧
  (∀ d', delete_objects os d = Ok d' →
     (∀ o, o ∈ os → o ∉ objects d') ∧
     (∀ x, x ∈ objects d' ↔
           x ∈ objects d ∧ ∀ o, o ∈ os → ¬ goes_with o x) ∧
     (blocks_unshared os d →
      ∀ x, x ∈ objects d' ↔ x ∈ objects d ∧ x ∉ os) ∧
     (∀ m, m ∈ meshes d' ↔
           m ∈ meshes d ∧
           ∀ o, o ∈ os → ¬ (ob_type o = "MESH" ∧ ob_data o = Some m)) ∧
     (∀ c, c ∈ curves d' ↔
           c ∈ curves d ∧
           ∀ o, o ∈ os → ¬ (ob_type o = "CURVE" ∧ ob_data o = Some c)) ∧
     collections d' = collections d).
Proof.
  split; [|split].
  - split.
    + intros [d' Hd']. by apply delete_objects_Ok in Hd' as [? _].
    + intros Hdel. eexists. by apply delete_objects_Ok.
  - intros Hnot. by apply delete_objects_Err.
  - intros d' (Hdel & ->)%delete_objects_Ok.
    split; [|split; [|split; [|split; [|split; [|done]]]]].
    + intros o Ho [_ Hno]%elem_of_scene_without. apply (Hno o Ho). by left.
    + intros x. apply elem_of_scene_without.
    + intros Hun x. by apply elem_of_scene_without_unshared.
    + intros m. cbn. rewrite list_elem_of_filter, Forall_forall.
      setoid_rewrite mesh_of_Some. tauto.
    + intros c. cbn. rewrite list_elem_of_filter, Forall_forall.
      setoid_rewrite curve_of_Some. tauto.
Qed.

(** X3. [delete_objects] does not depend on the order of the handles: a
    list and a rearrangement of it both return the same file, or both
    raise.  Repetitions do matter: a handle that is given twice, or given
    again after the call has returned, is a handle of a removed object,
    and the call raises [ReferenceError]. *)
Theorem delete_objects_same_elements (os os' : list Object) (d : data) :
  os ≡ₚ os' →
  delete_objects os d = delete_objects os' d ∧
  (∀ o, o ∈ os → delete_objects (o :: os) d = Err ReferenceError) ∧
  (∀ d' o, delete_objects os d = Ok d' → o ∈ os →
           delete_object o d' = Err ReferenceError ∧
           delete_objects os d' = Err ReferenceError).
Proof.
  intros Hperm. split; [|split].
  - rewrite !delete_objects_eq.
    destruct (decide (deletable os d)) as [Hdel|Hnot].
    + rewrite decide_True by by eapply deletable_Permutation.
      f_equal. apply scene_without_equiv. intros o. by rewrite Hperm.
    + rewrite decide_False; [done|]. intros Hdel. apply Hnot.
      by eapply deletable_Permutation.
  - intros o Ho. apply delete_objects_Err. split; [done|].
    intros [[Hnotin _]%NoDup_cons _]. done.
  - intros d' o (Hdel & ->)%delete_objects_Ok Ho.
    assert (Hgone : o ∉ objects (scene_without os d)).
    { intros [_ Hno]%elem_of_scene_without. apply (Hno o Ho). by left. }
    split; [by apply delete_object_Err|].
    apply delete_objects_Err. split; [done|].
    intros (_ & Hall & _). rewrite Forall_forall in Hall.
    by apply Hgone, Hall.
Qed.

Lemma get_objects_by_names_Ok names d objs :
  get_objects_by_names names d = Ok objs →
  Forall2 (fun n o => o ∈ objects d ∧ ob_name o = n) names objs.
Proof.
  revert objs. induction names as [|n names IH]; intros objs.
  - intros [= <-]. constructor.
  - change (get_objects_by_names (n :: names) d)
      with (obj ← objects_getitem n d;
            objs ← get_objects_by_names names d; Ok (obj :: objs)).
    destruct (objects_getitem n d) as [o|e] eqn:Hget; [|done].
    rewrite bind_Ok.
    destruct (get_objects_by_names names d) as [objs'|e]; [|done].
    rewrite bind_Ok. intros [= <-]. constructor; [|by apply IH].
    by apply objects_getitem_Ok.
Qed.

Lemma get_objects_by_names_is_Ok names d :
  (∃ objs, get_objects_by_names names d = Ok objs) ↔
  Forall (named d) names.
Proof.
  induction names as [|n names IH].
  - split; [constructor|]. by exists [].
  - change (get_objects_by_names (n :: names) d)
      with (obj ← objects_getitem n d;
            objs ← get_objects_by_names names d; Ok (obj :: objs)).
    rewrite Forall_cons, <- IH, named_getitem. split.
    + intros [objs Hobjs].
      destruct (objects_getitem n d) as [o|e]; [|done].
      rewrite bind_Ok in Hobjs.
      destruct (get_objects_by_names names d) as [objs'|e]; [|done].
      split; [by exists o|by exists objs'].
    + intros [[o ->] [objs' ->]]. by eexists.
Qed.

(** X4. [get_objects_by_names(names)] returns a list exactly when every
    name is the name of an object of the file; the list has one object per
    name, in the order of the names, each an object of the file with that
    name. *)
Theorem get_objects_by_names_found (names : list string) (d : data) :
  ((∃ objs, get_objects_by_names names d = Ok objs) ↔
   Forall (named d) names) ∧
  (∀ objs, get_objects_by_names names d = Ok objs →
           length objs = length names ∧
           ∀ i n, names !! i = Some n →
                  ∃ o, objs !! i = Some o ∧ o ∈ objects d ∧ ob_name o = n).
Proof.
  split; [apply get_objects_by_names_is_Ok|].
  intros objs Hobjs%get_objects_by_names_Ok.
  split; [symmetry; by eapply Forall2_length|].
  intros i n Hn.
  destruct (Forall2_lookup_l _ _ _ _ _ Hobjs Hn) as (o & Ho & Hin & Hname).
  by exists o.
Qed.

Lemma unique_names_inj d x y :
  unique_names d → x ∈ objects d → y ∈ objects d →
  ob_name x = ob_name y → x = y.
Proof.
  unfold unique_names. induction (objects d) as [|o l IH]; cbn.
  - by intros _ ?%elem_of_nil.
  - intros [Hnotin Hnd]%NoDup_cons [->|Hx]%elem_of_cons [->|Hy]%elem_of_cons
      Hname; try done.
    + exfalso. apply Hnotin. rewrite Hname. apply list_elem_of_fmap.
      by exists y.
    + exfalso. apply Hnotin. rewrite <- Hname. apply list_elem_of_fmap.
      by exists x.
    + by apply IH.
Qed.

Lemma unique_names_filter (P : Object → Prop) `{∀ x, Decision (P x)} l :
  NoDup (ob_name <$> l) → NoDup (ob_name <$> filter P l).
Proof.
  intros Hnd. eapply sublist_NoDup; [exact Hnd|].
  apply fmap_sublist, sublist_filter.
Qed.

(** X5. In a file whose object names are pairwise distinct, when
    [delete_objects_by_names(names)] returns, no name was given twice
    (the second lookup finds the same object, whose second deletion
    raises); looking up any of the names afterwards raises the lookup
    error; the objects left are objects of the file whose name is none of
    [names] - all of them when no object with another name uses the data
    block of a named one -; and the names are still distinct. *)
Theorem delete_by_names_then_lookup (names : list string) (d d' : data) :
  unique_names d →
  delete_objects_by_names names d = Ok d' →
  NoDup names ∧
  (∀ n, n ∈ names → get_object_by_name n d' = Err (KeyError n)) ∧
  (∀ o, o ∈ objects d' → o ∈ objects d ∧ ob_name o ∉ names) ∧
  ((∀ o x, o ∈ objects d → ob_name o ∈ names → x ∈ objects d →
           shares_block o x → ob_name x ∈ names) →
   ∀ o, o ∈ objects d' ↔ o ∈ objects d ∧ ob_name o ∉ names) ∧
  unique_names d'.
Proof.
  intros Hunique. unfold delete_objects_by_names.
  destruct (get_objects_by_names names d) as [objs|e] eqn:Hget; [|done].
  rewrite bind_Ok. intros ((Hnd & Hall & _) & ->)%delete_objects_Ok.
  apply get_objects_by_names_Ok in Hget.
  rewrite Forall_forall in Hall.
  assert (Hnames : names = ob_name <$> objs).
  { clear -Hget. induction Hget as [|n o ? ? [_ Hn] _ IH]; [done|].
    cbn. by rewrite Hn, IH. }
  assert (Hfound : ∀ o, o ∈ objects d → ob_name o ∈ names → o ∈ objs).
  { intros o Hin. rewrite Hnames.
    intros (x & Hname & Hx)%list_elem_of_fmap.
    by rewrite (unique_names_inj d o x) by auto. }
  assert (Hgone : ∀ o, o ∈ objects (scene_without objs d) →
                       o ∈ objects d ∧ ob_name o ∉ names).
  { intros o [Hin Hno]%elem_of_scene_without. split; [done|].
    intros Hname. apply (Hno o); [by apply Hfound|by left]. }
  split; [|split; [|split; [done|split]]].
  - rewrite Hnames. apply NoDup_fmap_2_strong; [|done].
    intros x y Hx Hy. apply (unique_names_inj d); auto.
  - intros n Hn. unfold get_object_by_name. apply not_named_getitem.
    intros (o & [_ Hnot]%Hgone & Hname). by rewrite Hname in Hnot.
  - intros Hun o. split; [apply Hgone|].
    intros [Hin Hname]. apply elem_of_scene_without. split; [done|].
    intros x Hx [->|Hshare].
    + apply Hname. rewrite Hnames. apply list_elem_of_fmap. by exists x.
    + apply Hname. apply (Hun x o); [by apply Hall| |done..].
      rewrite Hnames. apply list_elem_of_fmap. by exists x.
  - unfold unique_names. cbn. by apply unique_names_filter.
Qed.

End objects_more.
(** ** More on networkartist.py *)

Section network_more.
Import networkartist hostlaws specwords.
Context {XYZ : Type} `{host : BlenderDrawing XYZ}.

Implicit Types (self : NetworkArtist XYZ) (d : data).

(** X6. [draw_edges(edges, color)]: with [E] the given edges if there are
    any and all edges of the network otherwise - edges between nodes the
    network has coordinates for -, the function builds one line
    descriptor per edge of [E], in order, from the coordinates of the
    edge's first node to those of its second, named
    [{network.name}.edge.{u}-{v}] and coloured by
    [color_to_colordict(color, E, settings['color.edges'])]; it hands the
    list to the host's [draw_lines] with the edge collection, returns the
    host's handles and stores [dict(zip(handles, E))] as [object_edge]. *)
Theorem draw_edges_descriptors edges color self d dflt c self1 d1 :
  settings self !! "color.edges" = Some dflt →
  edgecollection self d = Ok (c, self1, d1) →
  has_ends (network self) (selection edges (net_edges (network self))) →
  let E := selection edges (net_edges (network self)) in
  ∃ lines objs self' d',
    Forall2 (fun edge l =>
               node_coordinates (network self) edge.1 = Ok (ln_start l) ∧
               node_coordinates (network self) edge.2 = Ok (ln_end l) ∧
               ln_name l = net_name (network self) +:+ ".edge."
                           +:+ str edge.1 +:+ "-" +:+ str edge.2 ∧
               color_to_colordict color E dflt !! edge = Some (ln_color l))
            E lines ∧
    draw_lines lines c d1 = (objs, d') ∧
    draw_edges edges color self d = Ok (objs, self', d') ∧
    object_edge self' = dict (zip objs E) ∧
    (NoDup objs → ∀ i o edge,
        objs !! i = Some o → E !! i = Some edge →
        object_edge self' !! o = Some edge).
Proof.
  intros Hdflt Hcoll Hhas E.
  destruct (edge_lines_total (network self) color dflt E Hhas)
    as [lines Hlines].
  pose proof (draw_edges_eq edges color self d dflt Hdflt) as Heq.
  cbv zeta in Heq. fold E in Heq.
  rewrite Hlines, Hcoll, !bind_Ok in Heq.
  destruct (draw_lines lines c d1) as [objs d'] eqn:Hdraw. cbn in Heq.
  exists lines, objs, (set_object_edge (zip objs E) self1), d'.
  assert (Hedge : object_edge (set_object_edge (zip objs E) self1)
                  = dict (zip objs E)) by by rewrite object_edge_eq.
  split; [|split; [done|split; [done|split; [done|]]]].
  - by apply edge_lines_described.
  - intros Hnd i o edge Ho He. rewrite Hedge.
    by eapply dict_zip_lookup.
Qed.

(** X7. The collection properties ask the host only once: after a use
    that returned, every later use returns the same collection and leaves
    the artist and the host's data as they are. *)
Theorem collections_created_once self d :
  (∀ c self1 d1, nodecollection self d = Ok (c, self1, d1) →
                 ∀ d', nodecollection self1 d' = Ok (c, self1, d')) ∧
  (∀ c self1 d1, edgecollection self d = Ok (c, self1, d1) →
                 ∀ d', edgecollection self1 d' = Ok (c, self1, d')) ∧
  (∀ c self1 d1, pathcollection self d = Ok (c, self1, d1) →
                 ∀ d', pathcollection self1 d' = Ok (c, self1, d')).
Proof.
  split; [|split]; intros c self1 d1.
  - unfold nodecollection.
    destruct (_nodecollection self) as [c0|] eqn:Hc.
    + intros [= <- <- <-] d'. by rewrite Hc.
    + destruct (create_collections_from_path _ d) as [cs d2].
      destruct (index cs 1) as [c'|]; [|done]. rewrite bind_Ok.
      by intros [= <- <- <-] d'.
  - unfold edgecollection.
    destruct (_edgecollection self) as [c0|] eqn:Hc.
    + intros [= <- <- <-] d'. by rewrite Hc.
    + destruct (create_collections_from_path _ d) as [cs d2].
      destruct (index cs 1) as [c'|]; [|done]. rewrite bind_Ok.
      by intros [= <- <- <-] d'.
  - unfold pathcollection.
    destruct (_pathcollection self) as [c0|] eqn:Hc.
    + intros [= <- <- <-] d'. by rewrite Hc.
    + destruct (create_collections_from_path _ d) as [cs d2].
      destruct (index cs 1) as [c'|]; [|done]. rewrite bind_Ok.
      by intros [= <- <- <-] d'.
Qed.

Lemma nodecollection_Err self d e :
  nodecollection self d = Err e ↔
  e = IndexError ∧ _nodecollection self = None ∧
  (create_collections_from_path "Network::Nodes" d).1 !! 1%nat = None.
Proof.
  unfold nodecollection. destruct (_nodecollection self) as [c|].
  - split; [done|]. by intros (_ & ? & _).
  - destruct (create_collections_from_path _ d) as [cs d2]. cbn [fst].
    unfold index. destruct (cs !! 1%nat) as [c|].
    + rewrite bind_Ok. split; [done|]. by intros (_ & _ & ?).
    + rewrite bind_Err. split; [by intros [= <-]|by intros (-> & _)].
Qed.

Lemma edgecollection_Err self d e :
  edgecollection self d = Err e ↔
  e = IndexError ∧ _edgecollection self = None ∧
  (create_collections_from_path "Network::Edges" d).1 !! 1%nat = None.
Proof.
  unfold edgecollection. destruct (_edgecollection self) as [c|].
  - split; [done|]. by intros (_ & ? & _).
  - destruct (create_collections_from_path _ d) as [cs d2]. cbn [fst].
    unfold index. destruct (cs !! 1%nat) as [c|].
    + rewrite bind_Ok. split; [done|]. by intros (_ & _ & ?).
    + rewrite bind_Err. split; [by intros [= <-]|by intros (-> & _)].
Qed.

(** The first key of a list the network has no coordinates for. *)
Lemma mapM_first_Err {A B} (f : A → Result B) (l : list A) e :
  mapM f l = Err e ↔
  ∃ found x rest, l = (found ++ x :: rest)%list ∧
                  Forall (fun y => ∃ z, f y = Ok z) found ∧ f x = Err e.
Proof.
  revert e. induction l as [|x l IH]; intros e.
  - split; [done|]. intros (found & y & rest & Hl & _). by destruct found.
  - cbn. destruct (f x) as [z|e'] eqn:Hx; cbn.
    + assert (Hbind : (k ← mapM f l; mret (z :: k)) = Err e ↔
                      mapM f l = Err e) by by destruct (mapM f l).
      rewrite Hbind, IH. split.
      * intros (found & y & rest & -> & Hfound & Hy).
        exists (x :: found), y, rest. split; [done|].
        split; [|done]. constructor; [by exists z|done].
      * intros (found & y & rest & Hl & Hfound & Hy).
        destruct found as [|x' found]; cbn in Hl.
        -- injection Hl as <- _. congruence.
        -- injection Hl as <- ->.
           apply Forall_cons in Hfound as [_ Hfound].
           by exists found, y, rest.
    + split.
      * intros [= <-]. exists [], x, l. by split.
      * intros (found & y & rest & Hl & Hfound & Hy).
        destruct found as [|x' found]; cbn in Hl.
        -- injection Hl as <- _. congruence.
        -- injection Hl as <- _.
           apply Forall_cons in Hfound as [[z Hz] _]. congruence.
Qed.

Lemma node_point_Err (net : Network XYZ) color dflt node e :
  node_point net color dflt node = Err e ↔
  e = KeyError (str node) ∧ node_xyz net node = None.
Proof.
  unfold node_point, node_coordinates.
  destruct (node_xyz net node); cbn; split; try done.
  - by intros [_ ?].
  - by intros [= <-].
  - by intros [-> _].
Qed.

Lemma edge_line_Err (net : Network XYZ) color dflt edge e :
  edge_line net color dflt edge = Err e ↔
  (e = KeyError (str edge.1) ∧ node_xyz net edge.1 = None) ∨
  (e = KeyError (str edge.2) ∧ is_Some (node_xyz net edge.1) ∧
   node_xyz net edge.2 = None).
Proof.
  unfold edge_line, node_coordinates.
  destruct (node_xyz net edge.1); cbn.
  - destruct (node_xyz net edge.2); cbn; split; try done.
    + by intros [[_ ?]|(_ & _ & ?)].
    + intros [= <-]. right. split; [done|]. split; [by eexists|done].
    + by intros [[_ ?]|(-> & _)].
  - split.
    + intros [= <-]. by left.
    + by intros [[-> _]|(_ & [? ?] & _)].
Qed.

(** X8. [draw_nodes] fails in three ways, in this order: with [KeyError]
    for ['color.nodes'] exactly when the settings lack that key; otherwise
    with [KeyError] for the first selected node the network has no
    coordinates for, exactly when there is one; and otherwise with
    [IndexError] exactly when no node collection is cached and the host
    returns fewer than two collections for the path "Network::Nodes".
    [draw_edges] likewise, with ['color.edges'], the first end of a
    selected edge without coordinates, and "Network::Edges". *)
Theorem draw_nodes_draw_edges_errors self d (e : Error) :
  (∀ nodes color,
     let N := selection nodes (net_nodes (network self)) in
     draw_nodes nodes color self d = Err e ↔
     (e = KeyError "color.nodes" ∧ settings self !! "color.nodes" = None) ∨
     (is_Some (settings self !! "color.nodes") ∧
      ∃ found node rest,
        N = (found ++ node :: rest)%list ∧ has_nodes (network self) found ∧
        node_xyz (network self) node = None ∧ e = KeyError (str node)) ∨
     (e = IndexError ∧ is_Some (settings self !! "color.nodes") ∧
      has_nodes (network self) N ∧ _nodecollection self = None ∧
      (create_collections_from_path "Network::Nodes" d).1 !! 1%nat = None)) ∧
  (∀ edges color,
     let E := selection edges (net_edges (network self)) in
     draw_edges edges color self d = Err e ↔
     (e = KeyError "color.edges" ∧ settings self !! "color.edges" = None) ∨
     (is_Some (settings self !! "color.edges") ∧
      ∃ found edge rest,
        E = (found ++ edge :: rest)%list ∧ has_ends (network self) found ∧
        ((node_xyz (network self) edge.1 = None ∧
          e = KeyError (str edge.1)) ∨
         (is_Some (node_xyz (network self) edge.1) ∧
          node_xyz (network self) edge.2 = None ∧
          e = KeyError (str edge.2)))) ∨
     (e = IndexError ∧ is_Some (settings self !! "color.edges") ∧
      has_ends (network self) E ∧ _edgecollection self = None ∧
      (create_collections_from_path "Network::Edges" d).1 !! 1%nat = None)).
Proof.
  split.
  - intros nodes color N.
    destruct (settings self !! "color.nodes") as [dflt|] eqn:Hdflt.
    + rewrite (draw_nodes_eq _ _ _ _ dflt Hdflt). cbv zeta. fold N.
      destruct (mapM _ N) as [points|e0] eqn:Hpoints.
      * rewrite bind_Ok.
        pose proof (node_points_has _ _ _ _ _ Hpoints) as Hhas.
        assert (Hno : ¬ ∃ found node rest,
                  N = (found ++ node :: rest)%list ∧
                  has_nodes (network self) found ∧
                  node_xyz (network self) node = None ∧
                  e = KeyError (str node)).
        { intros (found & node & rest & HN & _ & Hnone & _).
          unfold has_nodes in Hhas. rewrite HN in Hhas.
          apply Forall_app in Hhas as [_ [Hsome _]%Forall_cons].
          rewrite Hnone in Hsome. by destruct Hsome. }
        destruct (nodecollection self d) as [[[c self1] d1]|e0] eqn:Hc.
        -- rewrite bind_Ok. split; [done|].
           intros [[_ ?]|[[_ ?]|(-> & _ & _ & Hnone)]]; [done..|].
           assert (Herr : nodecollection self d = Err IndexError)
             by by apply nodecollection_Err.
           congruence.
        -- rewrite bind_Err. apply nodecollection_Err in Hc as (-> & ? & ?).
           split.
           ++ intros [= <-]. right; right. split; [done|].
              split; [by eexists|done].
           ++ intros [[_ ?]|[[_ ?]|(-> & _)]]; done.
      * rewrite bind_Err. split.
        -- intros [= <-]. right; left. split; [by eexists|].
           apply mapM_first_Err in Hpoints
             as (found & node & rest & HN & Hfound & Hnode).
           apply node_point_Err in Hnode as [-> Hnone].
           exists found, node, rest. split; [done|]. split; [|done].
           eapply Forall_impl; [exact Hfound|].
           intros y [p (pos & Hpos & _)%node_point_Ok]. by exists pos.
        -- intros [[_ ?]|[[_ (found & node & rest & HN & Hfound & Hnone & ->)]
                         |(_ & _ & Hhas & _)]]; [done| |].
           ++ f_equal.
              assert (Herr : mapM (node_point (network self) color dflt) N
                             = Err (KeyError (str node))).
              { apply mapM_first_Err. exists found, node, rest.
                split; [done|]. split; [|by apply node_point_Err].
                eapply Forall_impl; [exact Hfound|].
                intros y [pos Hpos]. eexists. apply node_point_Ok.
                by exists pos. }
              congruence.
           ++ destruct (node_points_total _ color dflt _ Hhas) as [? ?].
              congruence.
    + unfold draw_nodes, getitem. rewrite Hdflt, bind_Err. split.
      * intros [= <-]. by left.
      * intros [[-> _]|[[[? ?] _]|(_ & [? ?] & _)]]; done.
  - intros edges color E.
    destruct (settings self !! "color.edges") as [dflt|] eqn:Hdflt.
    + rewrite (draw_edges_eq _ _ _ _ dflt Hdflt). cbv zeta. fold E.
      destruct (mapM _ E) as [lines|e0] eqn:Hlines.
      * rewrite bind_Ok.
        pose proof (edge_lines_has _ _ _ _ _ Hlines) as Hhas.
        assert (Hno : ¬ ∃ found edge rest,
                  E = (found ++ edge :: rest)%list ∧
                  has_ends (network self) found ∧
                  ((node_xyz (network self) edge.1 = None ∧
                    e = KeyError (str edge.1)) ∨
                   (is_Some (node_xyz (network self) edge.1) ∧
                    node_xyz (network self) edge.2 = None ∧
                    e = KeyError (str edge.2)))).
        { intros (found & edge & rest & HE & _ & Hnone).
          unfold has_ends in Hhas. rewrite HE in Hhas.
          apply Forall_app in Hhas as [_ [[[? H1] [? H2]] _]%Forall_cons].
          destruct Hnone as [[? _]|(_ & ? & _)]; congruence. }
        destruct (edgecollection self d) as [[[c self1] d1]|e0] eqn:Hc.
        -- rewrite bind_Ok. split; [done|].
           intros [[_ ?]|[[_ ?]|(-> & _ & _ & Hnone)]]; [done..|].
           assert (Herr : edgecollection self d = Err IndexError)
             by by apply edgecollection_Err.
           congruence.
        -- rewrite bind_Err. apply edgecollection_Err in Hc as (-> & ? & ?).
           split.
           ++ intros [= <-]. right; right. split; [done|].
              split; [by eexists|done].
           ++ intros [[_ ?]|[[_ ?]|(-> & _)]]; done.
      * rewrite bind_Err. split.
        -- intros [= <-]. right; left. split; [by eexists|].
           apply mapM_first_Err in Hlines
             as (found & edge & rest & HE & Hfound & Hedge).
           apply edge_line_Err in Hedge.
           exists found, edge, rest. split; [done|]. split.
           ++ eapply Forall_impl; [exact Hfound|].
              intros y [l (start & end_ & Hs & He & _)%edge_line_Ok].
              split; by eexists.
           ++ destruct Hedge as [[-> ?]|(-> & ? & ?)]; [by left|by right].
        -- intros [[_ ?]|[[_ (found & edge & rest & HE & Hfound & Hnone)]
                         |(_ & _ & Hhas & _)]]; [done| |].
           ++ assert (Herr : mapM (edge_line (network self) color dflt) E
                             = Err e).
              { apply mapM_first_Err. exists found, edge, rest.
                split; [done|]. split.
                - eapply Forall_impl; [exact Hfound|].
                  intros y [[start Hs] [end_ He]]. eexists.
                  apply edge_line_Ok. by exists start, end_.
                - apply edge_line_Err.
                  destruct Hnone as [[? ->]|(? & ? & ->)];
                    [by left|by right]. }
              congruence.
           ++ destruct (edge_lines_total _ color dflt _ Hhas) as [? ?].
              congruence.
    + unfold draw_edges, getitem. rewrite Hdflt, bind_Err. split.
      * intros [= <-]. by left.
      * intros [[-> _]|[[[? ?] _]|(_ & [? ?] & _)]]; done.
Qed.

(** X9. A new artist has, for every key, the value of the settings it was
    given if they have the key and the initial value otherwise; it tracks
    no object, so [clear()] on it leaves the artist and the scene as they
    are. *)
Theorem new_artist_settings_and_clear (net : Network XYZ)
    (s : option (gmap string Value)) (base : list Object) d :
  (∀ k, settings (__init__ net s base) !! k
        = match s ≫= (.!! k) with
          | Some v => Some v
          | None => default_settings !! k
          end) ∧
  tracked (__init__ net s base) = [] ∧
  clear (__init__ net s base) d = Ok (__init__ net s base, d).
Proof.
  split; [|split].
  - intros k. cbn. destruct s as [s0|]; cbn; [|done].
    case_decide as Hs.
    + subst s0. by rewrite lookup_empty.
    + unfold update. rewrite lookup_union.
      by destruct (s0 !! k), (default_settings !! k).
  - apply tracked_init.
  - apply clear_Ok. rewrite tracked_init.
    split; [apply deletable_nil|]. split; [done|].
    by rewrite scene_without_nil.
Qed.

(** X10. When the merged settings switch off both the nodes and the
    edges, [draw] only clears: it returns with the merged settings, empty
    tracking dictionaries and the scene that [clear] leaves - the tracked
    objects gone, with what used their data - and asks the host for
    nothing. *)
Theorem draw_nothing_to_show (s : option (gmap string Value)) self d sn se :
  (given_settings s ∪ settings self) !! "show.nodes" = Some sn →
  (given_settings s ∪ settings self) !! "show.edges" = Some se →
  truthy sn = false → truthy se = false →
  draw s self d
  = ('(self0, d0) ← clear self d;
     Ok (base_objects self,
         set_settings (given_settings s ∪ settings self) self0, d0)) ∧
  (∀ self0 d0,
     clear self d = Ok (self0, d0) →
     object_node self0 = ∅ ∧ object_edge self0 = ∅ ∧ object_path self0 = ∅ ∧
     (∀ o, o ∈ tracked self → o ∉ objects d0) ∧
     (∀ o, o ∈ objects d0 → o ∈ objects d ∧ o ∉ tracked self) ∧
     (blocks_unshared (tracked self) d →
      ∀ o, o ∈ objects d0 ↔ o ∈ objects d ∧ o ∉ tracked self)).
Proof.
  intros Hsn Hse Hfn Hfe. split.
  - rewrite draw_words. unfold draw_in_words. rewrite <- clear_words.
    destruct (clear self d) as [[self0 d0]|e] eqn:Hclear; [|done].
    apply clear_Ok in Hclear as (_ & -> & _).
    rewrite !bind_Ok. cbv zeta.
    change (settings (tracking ∅ ∅ ∅ self)) with (settings self).
    rewrite (getitem_Some _ _ _ Hsn), !bind_Ok, Hfn, !bind_Ok.
    by rewrite (getitem_Some _ _ _ Hse), !bind_Ok, Hfe, !bind_Ok.
  - intros self0 d0 (Hdel & -> & ->)%clear_Ok.
    rewrite object_node_eq, object_edge_eq, object_path_eq.
    split; [done|]. split; [done|]. split; [done|].
    assert (Hgone : ∀ o, o ∈ tracked self →
                         o ∉ objects (scene_without (tracked self) d)).
    { intros o Ho [_ Hno]%elem_of_scene_without. apply (Hno o Ho). by left. }
    split; [done|]. split.
    + intros o Ho. split; [by apply elem_of_scene_without in Ho as [? _]|].
      intros Ht. by apply (Hgone o).
    + intros Hun o. by apply elem_of_scene_without_unshared.
Qed.

Lemma nodecollection_cache self d c self1 d1 :
  nodecollection self d = Ok (c, self1, d1) →
  _nodecollection self1 = Some c ∧
  _edgecollection self1 = _edgecollection self ∧
  _pathcollection self1 = _pathcollection self.
Proof.
  unfold nodecollection. destruct (_nodecollection self) as [c0|] eqn:Hc.
  - by intros [= <- <- <-].
  - destruct (create_collections_from_path _ d) as [cs d2].
    destruct (index cs 1) as [c'|]; [|done]. rewrite bind_Ok.
    by intros [= <- <- <-].
Qed.

Lemma edgecollection_cache self d c self1 d1 :
  edgecollection self d = Ok (c, self1, d1) →
  _edgecollection self1 = Some c ∧
  _nodecollection self1 = _nodecollection self ∧
  _pathcollection self1 = _pathcollection self.
Proof.
  unfold edgecollection. destruct (_edgecollection self) as [c0|] eqn:Hc.
  - by intros [= <- <- <-].
  - destruct (create_collections_from_path _ d) as [cs d2].
    destruct (index cs 1) as [c'|]; [|done]. rewrite bind_Ok.
    by intros [= <- <- <-].
Qed.

(** X11. [draw_nodes] changes nothing of the artist but [object_node] and
    the cached node collection: the settings, the network, the edge and
    path dictionaries and the other cached collections are as before.
    [draw_edges] likewise changes only [object_edge] and the cached edge
    collection. *)
Theorem component_draws_leave_the_rest self d :
  (∀ nodes color objs self' d',
     draw_nodes nodes color self d = Ok (objs, self', d') →
     settings self' = settings self ∧ network self' = network self ∧
     base_objects self' = base_objects self ∧
     object_edge self' = object_edge self ∧
     object_path self' = object_path self ∧
     _edgecollection self' = _edgecollection self ∧
     _pathcollection self' = _pathcollection self ∧
     is_Some (_nodecollection self')) ∧
  (∀ edges color objs self' d',
     draw_edges edges color self d = Ok (objs, self', d') →
     settings self' = settings self ∧ network self' = network self ∧
     base_objects self' = base_objects self ∧
     object_node self' = object_node self ∧
     object_path self' = object_path self ∧
     _nodecollection self' = _nodecollection self ∧
     _pathcollection self' = _pathcollection self ∧
     is_Some (_edgecollection self')).
Proof.
  split.
  - intros nodes color objs self' d' Hdraw.
    pose proof (draw_nodes_settings _ _ _ _ _ _ _ Hdraw)
      as (Hs & Hn & Hb & He & Hp).
    apply draw_nodes_Ok in Hdraw
      as (dflt & points & c & self1 & d1 & _ & _ & Hc & _ & ->).
    apply nodecollection_cache in Hc as (Hcn & Hce & Hcp).
    rewrite !object_edge_eq, !object_path_eq. cbn in *.
    repeat (split; [done|]). by eexists.
  - intros edges color objs self' d' Hdraw.
    pose proof (draw_edges_settings _ _ _ _ _ _ _ Hdraw)
      as (Hs & Hn & Hb & He & Hp).
    apply draw_edges_Ok in Hdraw
      as (dflt & lines & c & self1 & d1 & _ & _ & Hc & _ & ->).
    apply edgecollection_cache in Hc as (Hce & Hcn & Hcp).
    rewrite !object_node_eq, !object_path_eq. cbn in *.
    repeat (split; [done|]). by eexists.
Qed.

Lemma fst_zip_take {A B} (l : list A) (k : list B) :
  (zip l k).*1 = take (length k) l.
Proof.
  revert k. induction l as [|x l IH]; intros [|y k]; cbn; try done.
  by rewrite IH.
Qed.

(** X12. After [draw_nodes], the handles tracked in [object_node] are the
    first handles the host returned, as many as there are nodes: handles
    beyond the number of nodes are not tracked, and no other object is.
    After [draw_edges] the same holds of [object_edge] and the edges. *)
Theorem tracked_handles_are_returned self d :
  (∀ nodes color objs self' d',
     draw_nodes nodes color self d = Ok (objs, self', d') →
     ∀ o, is_Some (object_node self' !! o) ↔
          o ∈ take (length (selection nodes (net_nodes (network self)))) objs) ∧
  (∀ edges color objs self' d',
     draw_edges edges color self d = Ok (objs, self', d') →
     ∀ o, is_Some (object_edge self' !! o) ↔
          o ∈ take (length (selection edges (net_edges (network self)))) objs).
Proof.
  split.
  - intros nodes color objs self' d'
      (dflt & points & c & self1 & d1 & _ & _ & _ & _ & ->)%draw_nodes_Ok o.
    rewrite object_node_eq. cbn. by rewrite dict_is_Some, fst_zip_take.
  - intros edges color objs self' d'
      (dflt & lines & c & self1 & d1 & _ & _ & _ & _ & ->)%draw_edges_Ok o.
    rewrite object_edge_eq. cbn. by rewrite dict_is_Some, fst_zip_take.
Qed.

End network_more.
(** ** More on frameartist.py *)

Section frame_more.
Import frameartist.
Context {Pnt Vec Scalar XYZ GUID Document : Type}.
Context `{geo : Geometry Pnt Vec Scalar XYZ}.
Context `{rh : RhinoDrawing XYZ GUID Document}.

(** X13. [FrameArtist.draw] never reads [self.guids] and changes nothing
    of the artist but [self.guids]: whatever GUIDs an earlier [draw] left,
    drawing again sends the host the same primitives, and the GUIDs of the
    earlier call are neither deleted from the document nor kept in
    [self.guids]. *)
Theorem frame_draw_ignores_guids (self : FrameArtist Pnt Vec Scalar GUID)
    (doc : Document) :
  (∀ gs, (draw (set_guids gs self) doc).1.1 = (draw self doc).1.1 ∧
         (draw (set_guids gs self) doc).2 = (draw self doc).2) ∧
  (draw self doc).1.2 = set_guids (draw self doc).1.1 self ∧
  (∀ doc', (draw (draw self doc).1.2 doc').1.1 = (draw self doc').1.1 ∧
           (draw (draw self doc).1.2 doc').2 = (draw self doc').2 ∧
           guids (draw (draw self doc).1.2 doc').1.2 = (draw self doc').1.1).
Proof.
  assert (Hguids : ∀ gs doc0,
    (draw (set_guids gs self) doc0).1.1 = (draw self doc0).1.1 ∧
    (draw (set_guids gs self) doc0).2 = (draw self doc0).2 ∧
    guids (draw (set_guids gs self) doc0).1.2 = (draw self doc0).1.1).
  { intros gs doc0. unfold draw. cbn.
    destruct (draw_points _ (layer self) false false doc0) as [gs1 doc1].
    by destruct (draw_lines _ (layer self) false false doc1) as [gs2 doc2]. }
  assert (Hself : (draw self doc).1.2 = set_guids (draw self doc).1.1 self).
  { unfold draw.
    destruct (draw_points _ (layer self) false false doc) as [gs1 doc1].
    by destruct (draw_lines _ (layer self) false false doc1) as [gs2 doc2]. }
  split; [|split; [done|]].
  - intros gs. by destruct (Hguids gs doc) as (? & ? & _).
  - intros doc'. rewrite Hself. apply Hguids.
Qed.

End frame_more.

(** ** More on meshartist.py *)

Section mesh_more.
Import meshartist specwords meshwords.
Context {XYZ Geom : Type} `{gh : GhDrawing XYZ Geom}.

Implicit Types (self : MeshArtist XYZ).

(** X14. [draw_vertices(keys, color)] hands the host one point per vertex
    of [V] - the given keys if there are any, all vertices of the mesh
    otherwise; vertices the mesh has coordinates for - in order, at
    [mesh.vertex_coordinates(vertex)], named [{mesh.name}.vertex.{vertex}]
    and coloured by
    [color_to_colordict(color, V, settings['color.vertices'])], and
    returns what the host returns. *)
Theorem draw_vertices_descriptors keys color self dflt :
  settings self !! "color.vertices" = Some dflt →
  has_vertices (mesh self) (selection keys (vertices (mesh self))) →
  let V := selection keys (vertices (mesh self)) in
  ∃ points,
    Forall2 (fun vertex p =>
               vertex_coordinates (mesh self) vertex = Ok (pt_pos p) ∧
               pt_name p = mesh_name (mesh self) +:+ ".vertex."
                           +:+ str vertex ∧
               color_to_colordict color V dflt !! vertex = Some (pt_color p))
            V points ∧
    draw_vertices keys color self = Ok (draw_points_ points).
Proof.
  intros Hdflt Hhas V. subst V.
  apply (vertex_points_total (mesh self) color dflt) in Hhas
    as [points Hpoints].
  exists points. rewrite (draw_vertices_eq _ _ _ dflt Hdflt).
  rewrite Hpoints, bind_Ok. split; [|done].
  eapply mapM_described; [|done|exact Hpoints].
  intros key p Hin (pos & Hpos & ->)%vertex_point_Ok. cbn.
  split; [by apply lookup_key_Some|]. split; [done|].
  by apply colordict_lookup.
Qed.

(** X15. [draw_edges(keys, color)] of the mesh artist hands the host one
    line per edge of [E] - the given keys if there are any, all edges
    otherwise; edges the mesh has coordinates for - in order, between the
    two points of [mesh.edge_coordinates(u, v)], named
    [{mesh.name}.edge.{u}-{v}] and coloured by
    [color_to_colordict(color, E, settings['color.edges'])], and returns
    what the host returns. *)
Theorem mesh_draw_edges_descriptors keys color self dflt :
  settings self !! "color.edges" = Some dflt →
  has_edges (mesh self) (selection keys (edges (mesh self))) →
  let E := selection keys (edges (mesh self)) in
  ∃ lines,
    Forall2 (fun edge l =>
               edge_coordinates (mesh self) edge.1 edge.2
               = Ok (ln_start l, ln_end l) ∧
               ln_name l = mesh_name (mesh self) +:+ ".edge."
                           +:+ str edge.1 +:+ "-" +:+ str edge.2 ∧
               color_to_colordict color E dflt !! edge = Some (ln_color l))
            E lines ∧
    draw_edges keys color self = Ok (draw_lines_ lines).
Proof.
  intros Hdflt Hhas E. subst E.
  apply (edge_lines_mesh_total (mesh self) color dflt) in Hhas
    as [lines Hlines].
  exists lines. rewrite (draw_edges_mesh_eq _ _ _ dflt Hdflt).
  rewrite Hlines, bind_Ok. split; [|done].
  eapply mapM_described; [|done|exact Hlines].
  intros key p Hin ([start end_] & Hpos & ->)%edge_line_mesh_Ok. cbn.
  split; [by apply lookup_key_Some|]. split; [done|].
  by apply colordict_lookup.
Qed.

(** X16. [draw_faces(keys, color, join_faces)] hands the host one polygon
    per face of [F] - the given keys if there are any, all faces
    otherwise; faces the mesh has coordinates for - in order, with
    [mesh.face_coordinates(fkey)], the name [{mesh.name}.face.{fkey}] and
    the colour of [color_to_colordict(color, F, settings['color.faces'])].
    Without [join_faces] it returns the host's meshes; with it, it always
    returns exactly one mesh: a new mesh to which the host's meshes were
    appended in order (an empty one when there is no face). *)
Theorem draw_faces_descriptors_and_join keys color self dflt :
  settings self !! "color.faces" = Some dflt →
  has_faces (mesh self) (selection keys (faces (mesh self))) →
  let F := selection keys (faces (mesh self)) in
  ∃ polygons,
    Forall2 (fun fkey f =>
               face_coordinates (mesh self) fkey = Ok (fc_points f) ∧
               fc_name f = mesh_name (mesh self) +:+ ".face." +:+ str fkey ∧
               color_to_colordict color F dflt !! fkey = Some (fc_color f))
            F polygons ∧
    draw_faces keys color false self = Ok (draw_faces_ polygons) ∧
    draw_faces keys color true self
    = Ok [foldl Mesh_Append Mesh_new (draw_faces_ polygons)] ∧
    (∀ joined, draw_faces keys color true self = Ok joined →
               length joined = 1%nat).
Proof.
  intros Hdflt Hhas F. subst F.
  apply (face_polygons_total (mesh self) color dflt) in Hhas
    as [polygons Hpolygons].
  exists polygons. rewrite !(draw_faces_eq _ _ _ _ dflt Hdflt).
  rewrite Hpolygons, !bind_Ok. split; [|split; [done|split; [done|]]].
  - eapply mapM_described; [|done|exact Hpolygons].
    intros key p Hin (pos & Hpos & ->)%face_polygon_Ok. cbn.
    split; [by apply lookup_key_Some|]. split; [done|].
    by apply colordict_lookup.
  - by intros joined [= <-].
Qed.

Lemma oget_NoDup {K V} `{EqDecision K} (t : list (K * V)) k v :
  NoDup t.*1 → (k, v) ∈ t → oget t k = Some v.
Proof.
  induction t as [|[k0 v0] t IH]; cbn; [by intros _ ?%elem_of_nil|].
  intros [Hnotin Hnd]%NoDup_cons [[= -> ->]|Hin]%elem_of_cons.
  - by rewrite decide_True.
  - rewrite decide_False; [by apply IH|].
    intros ->. apply Hnotin. apply list_elem_of_fmap. by exists (k, v).
Qed.

(** The labels of a text dictionary, one per entry. *)
Lemma labels_described {K D} `{Countable K} (f : K → Result D)
    (P : K * string → D → Prop) (t : list (K * string)) (labels : list D) :
  (∀ k v x, (k, v) ∈ t → f k = Ok x → P (k, v) x) →
  mapM f t.*1 = Ok labels → Forall2 P t labels.
Proof.
  intros HP Hall. rewrite mapM_fmap in Hall.
  eapply (mapM_described _ _ t); [|done|exact Hall].
  intros [k v] x Hin Hx. by apply HP.
Qed.

(** X17. Given a dictionary as [text], the label methods label the keys
    of the dictionary, not the mesh: when the mesh has a position for
    every key of the dictionary, there is one label per entry, in the
    order of the entries, with the entry's text, at the position the mesh
    gives for the key.  An empty dictionary therefore draws no label at
    all. *)
Theorem labels_follow_text_dictionary self color :
  (∀ (t : list (Z * string)) dflt,
     settings self !! "color.vertices" = Some dflt → NoDup t.*1 →
     has_vertices (mesh self) t.*1 →
     ∃ labels,
       draw_vertexlabels (ArgDict t) color self = Ok (draw_labels_ labels) ∧
       Forall2 (fun kv l =>
                  vertex_coordinates (mesh self) kv.1 = Ok (lb_pos l) ∧
                  lb_name l = mesh_name (mesh self) +:+ ".vertexlabel."
                              +:+ str kv.1 ∧
                  lb_text l = kv.2 ∧
                  color_to_colordict color t.*1 dflt !! kv.1
                  = Some (lb_color l))
               t labels) ∧
  (∀ (t : list (Z * string)) dflt,
     settings self !! "color.faces" = Some dflt → NoDup t.*1 →
     has_centres (mesh self) t.*1 →
     ∃ labels,
       draw_facelabels (ArgDict t) color self = Ok (draw_labels_ labels) ∧
       Forall2 (fun kv l =>
                  face_center (mesh self) kv.1 = Ok (lb_pos l) ∧
                  lb_name l = mesh_name (mesh self) +:+ ".facelabel."
                              +:+ str kv.1 ∧
                  lb_text l = kv.2 ∧
                  color_to_colordict color t.*1 dflt !! kv.1
                  = Some (lb_color l))
               t labels) ∧
  (∀ (t : list (Z * Z * string)) (ecolor : Arg (gmap (Z * Z) Value)) dflt,
     settings self !! "color.edges" = Some dflt → NoDup t.*1 →
     has_middles (mesh self) t.*1 →
     ∃ labels,
       draw_edgelabels (ArgDict t) ecolor self = Ok (draw_labels_ labels) ∧
       Forall2 (fun kv l =>
                  edge_midpoint (mesh self) kv.1.1 kv.1.2 = Ok (lb_pos l) ∧
                  lb_name l = mesh_name (mesh self) +:+ ".edgelabel."
                              +:+ str kv.1.1 +:+ "-" +:+ str kv.1.2 ∧
                  lb_text l = kv.2 ∧
                  color_to_colordict ecolor t.*1 dflt !! kv.1
                  = Some (lb_color l))
               t labels) ∧
  (∀ dflt, settings self !! "color.vertices" = Some dflt →
           draw_vertexlabels (ArgDict []) color self = Ok (draw_labels_ [])) ∧
  (∀ dflt, settings self !! "color.faces" = Some dflt →
           draw_facelabels (ArgDict []) color self = Ok (draw_labels_ [])) ∧
  (∀ ecolor dflt, settings self !! "color.edges" = Some dflt →
           draw_edgelabels (ArgDict []) ecolor self = Ok (draw_labels_ [])).
Proof.
  split; [|split; [|split; [|split; [|split]]]].
  - intros t dflt Hdflt Hnd Hhas.
    apply (vertex_labels_total (mesh self) t color dflt) in Hhas
      as [labels Hlabels].
    exists labels. rewrite (draw_vertexlabels_eq _ _ _ dflt Hdflt).
    cbn [textdict_of]. rewrite Hlabels, bind_Ok. split; [done|].
    eapply labels_described; [|exact Hlabels].
    intros k v l Hin (pos & Hpos & ->)%vertex_label_Ok. cbn.
    split; [by apply lookup_key_Some|]. split; [done|]. split.
    + unfold text_of. by rewrite (oget_NoDup t k v).
    + apply colordict_lookup, list_elem_of_fmap. by exists (k, v).
  - intros t dflt Hdflt Hnd Hhas.
    apply (face_labels_total (mesh self) t color dflt) in Hhas
      as [labels Hlabels].
    exists labels. rewrite (draw_facelabels_eq _ _ _ dflt Hdflt).
    cbn [textdict_of]. rewrite Hlabels, bind_Ok. split; [done|].
    eapply labels_described; [|exact Hlabels].
    intros k v l Hin (pos & Hpos & ->)%face_label_Ok. cbn.
    split; [by apply lookup_key_Some|]. split; [done|]. split.
    + unfold text_of. by rewrite (oget_NoDup t k v).
    + apply colordict_lookup, list_elem_of_fmap. by exists (k, v).
  - intros t ecolor dflt Hdflt Hnd Hhas.
    apply (edge_labels_total (mesh self) t ecolor dflt) in Hhas
      as [labels Hlabels].
    exists labels. rewrite (draw_edgelabels_eq _ _ _ dflt Hdflt).
    cbn [textdict_of]. rewrite Hlabels, bind_Ok. split; [done|].
    eapply labels_described; [|exact Hlabels].
    intros k v l Hin (pos & Hpos & ->)%edge_label_Ok. cbn.
    split; [by apply lookup_key_Some|]. split; [done|]. split.
    + unfold text_of. by rewrite (oget_NoDup t k v).
    + apply colordict_lookup, list_elem_of_fmap. by exists (k, v).
  - intros dflt Hdflt. by rewrite (draw_vertexlabels_eq _ _ _ dflt Hdflt).
  - intros dflt Hdflt. by rewrite (draw_facelabels_eq _ _ _ dflt Hdflt).
  - intros ecolor dflt Hdflt.
    by rewrite (draw_edgelabels_eq _ _ _ dflt Hdflt).
Qed.

(** X18. The order in which the methods of the mesh artist fail.  A label
    method checks its [text] first: a text that is neither [None] nor a
    dictionary raises [NotImplementedError], whatever the settings and the
    mesh.  Next comes the colour setting: without it every method raises
    [KeyError] for it, whatever the keys.  A method that returns has found
    its colour setting and geometry in the mesh for every key it drew or
    labelled. *)
Theorem mesh_methods_errors self :
  (∀ v color,
     draw_vertexlabels (ArgValue v) color self = Err NotImplementedError ∧
     draw_facelabels (ArgValue v) color self = Err NotImplementedError) ∧
  (∀ v color,
     draw_edgelabels (ArgValue v) color self = Err NotImplementedError) ∧
  (settings self !! "color.vertices" = None →
   (∀ keys color,
      draw_vertices keys color self = Err (KeyError "color.vertices")) ∧
   (∀ text color,
      (∀ v, text ≠ ArgValue v) →
      draw_vertexlabels text color self
      = Err (KeyError "color.vertices"))) ∧
  (settings self !! "color.faces" = None →
   (∀ keys color join_faces,
      draw_faces keys color join_faces self = Err (KeyError "color.faces")) ∧
   (∀ text color,
      (∀ v, text ≠ ArgValue v) →
      draw_facelabels text color self = Err (KeyError "color.faces"))) ∧
  (settings self !! "color.edges" = None →
   (∀ keys color,
      draw_edges keys color self = Err (KeyError "color.edges")) ∧
   (∀ text color,
      (∀ v, text ≠ ArgValue v) →
      draw_edgelabels text color self = Err (KeyError "color.edges"))) ∧
  (∀ keys color g,
     draw_vertices keys color self = Ok g →
     is_Some (settings self !! "color.vertices") ∧
     has_vertices (mesh self) (selection keys (vertices (mesh self)))) ∧
  (∀ keys color join_faces g,
     draw_faces keys color join_faces self = Ok g →
     is_Some (settings self !! "color.faces") ∧
     has_faces (mesh self) (selection keys (faces (mesh self)))) ∧
  (∀ keys color g,
     draw_edges keys color self = Ok g →
     is_Some (settings self !! "color.edges") ∧
     has_edges (mesh self) (selection keys (edges (mesh self)))) ∧
  (∀ text color g,
     draw_vertexlabels text color self = Ok g →
     is_Some (settings self !! "color.vertices") ∧
     has_vertices (mesh self) (label_keys (vertices (mesh self)) text)) ∧
  (∀ text color g,
     draw_facelabels text color self = Ok g →
     is_Some (settings self !! "color.faces") ∧
     has_centres (mesh self) (label_keys (faces (mesh self)) text)) ∧
  (∀ text color g,
     draw_edgelabels text color self = Ok g →
     is_Some (settings self !! "color.edges") ∧
     has_middles (mesh self) (label_keys (edges (mesh self)) text)).
Proof.
  assert (Hvalid : ∀ {K} `{EqDecision K} (key_text : K → string) all
                     (text : Arg (list (K * string))),
             (∀ v, text ≠ ArgValue v) →
             is_Some (textdict_of key_text all text)).
  { intros K ? key_text all [|t|v] Hv; [by eexists..|by destruct (Hv v)]. }
  split; [done|]. split; [done|].
  split; [|split; [|split]].
  - intros Hnone. split.
    + intros keys color. by apply draw_vertices_lacks.
    + intros text color Hv. apply draw_vertexlabels_lacks; [done|].
      by apply Hvalid.
  - intros Hnone. split.
    + intros keys color join_faces. by apply draw_faces_lacks.
    + intros text color Hv. apply draw_facelabels_lacks; [done|].
      by apply Hvalid.
  - intros Hnone. split.
    + intros keys color. by apply draw_edges_lacks.
    + intros text color Hv. apply draw_edgelabels_lacks; [done|].
      by apply Hvalid.
  - split; [|split; [|split; [|split; [|split]]]].
    + intros keys color g Hdraw.
      destruct (settings self !! "color.vertices") as [dflt|] eqn:Hdflt;
        [|by rewrite draw_vertices_lacks in Hdraw].
      split; [by eexists|].
      rewrite (draw_vertices_eq _ _ _ dflt Hdflt) in Hdraw.
      destruct (mapM _ _) as [points|] eqn:Hpoints; [|done].
      apply (vertex_points_total (mesh self) color dflt). by exists points.
    + intros keys color join_faces g Hdraw.
      destruct (settings self !! "color.faces") as [dflt|] eqn:Hdflt;
        [|by rewrite draw_faces_lacks in Hdraw].
      split; [by eexists|].
      rewrite (draw_faces_eq _ _ _ _ dflt Hdflt) in Hdraw.
      destruct (mapM _ _) as [polygons|] eqn:Hpolygons; [|done].
      apply (face_polygons_total (mesh self) color dflt). by exists polygons.
    + intros keys color g Hdraw.
      destruct (settings self !! "color.edges") as [dflt|] eqn:Hdflt;
        [|by rewrite draw_edges_lacks in Hdraw].
      split; [by eexists|].
      rewrite (draw_edges_mesh_eq _ _ _ dflt Hdflt) in Hdraw.
      destruct (mapM _ _) as [lines|] eqn:Hlines; [|done].
      apply (edge_lines_mesh_total (mesh self) color dflt). by exists lines.
    + intros text color g Hdraw.
      destruct (textdict_of_is_Some str (vertices (mesh self)) text)
        as [[t Ht]|[v ->]]; [|done].
      destruct (settings self !! "color.vertices") as [dflt|] eqn:Hdflt;
        [|by rewrite draw_vertexlabels_lacks in Hdraw by (done || by eexists)].
      split; [by eexists|].
      rewrite (draw_vertexlabels_eq _ _ _ dflt Hdflt), Ht in Hdraw.
      destruct (mapM _ _) as [labels|] eqn:Hlabels; [|done].
      apply (label_keys_textdict str _ text t); [done|].
      apply (vertex_labels_total (mesh self) t color dflt). by exists labels.
    + intros text color g Hdraw.
      destruct (textdict_of_is_Some str (faces (mesh self)) text)
        as [[t Ht]|[v ->]]; [|done].
      destruct (settings self !! "color.faces") as [dflt|] eqn:Hdflt;
        [|by rewrite draw_facelabels_lacks in Hdraw by (done || by eexists)].
      split; [by eexists|].
      rewrite (draw_facelabels_eq _ _ _ dflt Hdflt), Ht in Hdraw.
      destruct (mapM _ _) as [labels|] eqn:Hlabels; [|done].
      apply (label_keys_textdict str _ text t); [done|].
      apply (face_labels_total (mesh self) t color dflt). by exists labels.
    + intros text color g Hdraw.
      destruct (textdict_of_is_Some edge_text (edges (mesh self)) text)
        as [[t Ht]|[v ->]]; [|done].
      destruct (settings self !! "color.edges") as [dflt|] eqn:Hdflt;
        [|by rewrite draw_edgelabels_lacks in Hdraw by (done || by eexists)].
      split; [by eexists|].
      rewrite (draw_edgelabels_eq _ _ _ dflt Hdflt), Ht in Hdraw.
      destruct (mapM _ _) as [labels|] eqn:Hlabels; [|done].
      apply (label_keys_textdict edge_text _ text t); [done|].
      apply (edge_labels_total (mesh self) t color dflt). by exists labels.
Qed.

Section with_base.
Context `{base : BaseArtist XYZ Geom}.

Ltac draw_case H :=
  match type of H with
  | context [getitem ?d ?k] =>
      let E := fresh "Hget" in
      destruct (getitem d k) eqn:E; [apply getitem_Ok in E|]
  | context [if truthy ?v then _ else _] =>
      let E := fresh "Htruthy" in destruct (truthy v) eqn:E
  | context [draw_faces ?a ?b ?c ?d] => destruct (draw_faces a b c d)
  | context [draw_edges ?a ?b ?c] => destruct (draw_edges a b c)
  | context [draw_facelabels ?a ?b ?c] => destruct (draw_facelabels a b c)
  | context [draw_edgelabels ?a ?b ?c] => destruct (draw_edgelabels a b c)
  end;
  rewrite ?bind_Ok, ?bind_Err in H; cbv beta zeta in H; try discriminate H.

(** X19. When [draw()] of the mesh artist returns (the base class
    providing no [draw_nodes]), its first two entries are [None]; the
    faces entry is filled exactly when [show.faces] is true and the edges
    entry exactly when [show.edges] is true; and labels are nested under
    their component: the face labels are filled exactly when [show.faces]
    and [show.facelabels] are both true, the edge labels exactly when
    [show.edges] and [show.edgelabels] are. *)
Theorem mesh_draw_entries self g :
  base_dict "draw_nodes" = None →
  draw self = Ok g →
  ∃ f fl e el sf se,
    g = [None; None; f; fl; e; el] ∧
    settings self !! "show.faces" = Some sf ∧
    settings self !! "show.edges" = Some se ∧
    (is_Some f ↔ truthy sf = true) ∧
    (is_Some e ↔ truthy se = true) ∧
    (is_Some fl ↔
     truthy sf = true ∧
     ∃ sl, settings self !! "show.facelabels" = Some sl ∧ truthy sl = true) ∧
    (is_Some el ↔
     truthy se = true ∧
     ∃ sl, settings self !! "show.edgelabels" = Some sl ∧ truthy sl = true).
Proof.
  intros Hbase Hdraw.
  destruct (draw_Ok_length self g Hbase Hdraw) as (_ & v & Hv & Hfalse).
  unfold draw in Hdraw.
  rewrite (getitem_Some _ _ _ Hv), bind_Ok, Hfalse, bind_Ok in Hdraw.
  repeat draw_case Hdraw;
    injection Hdraw as <-; cbn;
    eexists _, _, _, _, _, _;
    (split; [reflexivity|]); (split; [eassumption|]); (split; [eassumption|]);
    repeat split;
    solve [ done
          | by eexists
          | intros [? ?]; done
          | intros ?; congruence
          | intros [? _]; congruence
          | intros [_ (? & ? & ?)]; congruence
          | intros _; split; [done|]; eexists; split; eassumption ].
Qed.

End with_base.

End mesh_more.
(** ** The reference host satisfies what the artists expect *)

Section reference_host.
Import refhost.

Lemma fresh_above (ids : list N) (x : N) : x ∈ ids → (x < fresh ids)%N.
Proof.
  unfold fresh. induction ids as [|y ids IH]; [by intros ?%elem_of_nil|].
  intros [->|Hin]%elem_of_cons; cbn.
  - lia.
  - specialize (IH Hin). lia.
Qed.

Lemma new_object_fresh name type d :
  ((new_object name type d).1 ∉ objects d) ∧
  ∀ y, y ∈ objects d → ¬ shares_block (new_object name type d).1 y.
Proof.
  split.
  - intros Hin.
    assert (Hid : ob_id (new_object name type d).1 ∈ ob_id <$> objects d).
    { apply list_elem_of_fmap. by eexists. }
    apply fresh_above in Hid. cbn in Hid. lia.
  - intros y Hy Hshare.
    assert (Hdata : ob_data y = Some (fresh (blocks_in_use d))).
    { destruct Hshare as [[[b Hb] He]|[[b Hb] He]].
      - rewrite Hb in He. unfold mesh_of in Hb, He. cbn in Hb.
        repeat case_decide; congruence.
      - rewrite Hb in He. unfold curve_of in Hb, He. cbn in Hb.
        repeat case_decide; congruence. }
    assert (Hin : fresh (blocks_in_use d) ∈ blocks_in_use d).
    { unfold blocks_in_use at 2. rewrite !elem_of_app. right; right.
      apply list_elem_of_omap. by exists y. }
    apply fresh_above in Hin. lia.
Qed.

Lemma new_objects_objects names type d :
  objects (new_objects names type d).2
  = (objects d ++ (new_objects names type d).1)%list ∧
  hostlaws.new_handles (new_objects names type d).1 d
    (new_objects names type d).2.
Proof.
  revert d. induction names as [|name names IH]; intros d.
  - cbn. split; [by rewrite app_nil_r|].
    split; [constructor|].
    split; [by intros o ?%elem_of_nil|by intros x y ?%elem_of_nil].
  - change (new_objects (name :: names) type d)
      with (let '(o, d) := new_object name type d in
            let '(os, d) := new_objects names type d in (o :: os, d)).
    pose proof (new_object_fresh name type d) as [Hnew Hblock].
    destruct (new_object name type d) as [o d1] eqn:Hobj.
    destruct (IH d1) as (Hobjs & Hnd & Hfresh & Hshare).
    destruct (new_objects names type d1) as [os d2].
    cbn [fst snd] in *.
    assert (Hd1 : objects d1 = (objects d ++ [o])%list).
    { unfold new_object in Hobj. by injection Hobj as <- <-. }
    assert (Ho1 : o ∈ objects d1).
    { rewrite Hd1, elem_of_app, list_elem_of_singleton. by right. }
    split; [by rewrite Hobjs, Hd1, <- app_assoc|].
    split; [|split].
    + apply NoDup_cons. split; [|done]. intros Ho. by apply (Hfresh o).
    + intros x [->|Hx]%elem_of_cons; [done|].
      intros Hin. apply (Hfresh x Hx). rewrite Hd1, elem_of_app. by left.
    + intros x y [->|Hx]%elem_of_cons Hy Hne.
      * rewrite Hobjs, Hd1, !elem_of_app, list_elem_of_singleton in Hy.
        destruct Hy as [[Hy| ->]|Hy]; [by apply Hblock|done|].
        intros Hs%shares_block_sym. revert Hs. apply Hshare; [done| |done].
        rewrite Hobjs, elem_of_app. by left.
      * by apply Hshare.
Qed.

Lemma blender_laws : hostlaws.BlenderDrawingLaws blender.
Proof.
  split.
  - intros pts c d o Ho. cbn in *.
    destruct (new_objects_objects (networkartist.pt_name <$> pts) "MESH" d)
      as [-> _].
    apply elem_of_app. by right.
  - intros pts c d o Ho. cbn.
    destruct (new_objects_objects (networkartist.pt_name <$> pts) "MESH" d)
      as [-> _].
    apply elem_of_app. by left.
  - intros lns c d o Ho. cbn in *.
    destruct (new_objects_objects (networkartist.ln_name <$> lns) "CURVE" d)
      as [-> _].
    apply elem_of_app. by right.
  - intros lns c d o Ho. cbn.
    destruct (new_objects_objects (networkartist.ln_name <$> lns) "CURVE" d)
      as [-> _].
    apply elem_of_app. by left.
  - done.
  - intros d. by exists "Nodes".
  - intros d. by exists "Edges".
Qed.

Lemma blender_creates : hostlaws.BlenderCreates blender.
Proof.
  split.
  - intros pts c d. apply new_objects_objects.
  - intros lns c d. apply new_objects_objects.
Qed.

End reference_host.
(** ** The claims on the reference host *)

Section claim_examples.
Import refhost samples networkartist hostlaws.

Lemma line_network_ok : network_ok line_network.
Proof.
  split.
  - repeat (apply List.Forall_cons; [by eexists|]). apply List.Forall_nil.
  - repeat (apply List.Forall_cons; [split; by eexists|]).
    apply List.Forall_nil.
Defined.

(** *** The network artist *)

(** [draw_nodes([2, 0], color={2: (1, 2, 3)})] on the line network, in an
    empty scene. *)
Lemma draw_nodes_descriptors_witness :
  ∃ objs self' d',
    draw_nodes (Some [2; 0]) (ArgDict {[ 2 := rgb 1 2 3 ]}) line_artist
      empty_scene = Ok (objs, self', d') ∧
    ob_name <$> objs = ["net.node.2"; "net.node.0"] ∧
    object_node self' = dict (zip objs [2; 0]).
Proof.
  destruct (draw_nodes_descriptors (Some [2; 0]) (ArgDict {[ 2 := rgb 1 2 3 ]})
              line_artist empty_scene (rgb 255 255 255) "Nodes"
              (set_nodecollection (Some "Nodes") line_artist)
              {| objects := []; meshes := []; curves := [];
                 collections := ["Network"; "Nodes"] |})
    as (points & objs & self' & d' & Hpoints & Hdraw & Hnodes & Hdict & _).
  - reflexivity.
  - reflexivity.
  - repeat (apply List.Forall_cons; [by eexists|]). apply List.Forall_nil.
  - exists objs, self', d'. split; [exact Hnodes|]. split; [|exact Hdict].
    apply Forall2_cons_inv_l in Hpoints as (p2 & ps & (_ & Hn2 & _) & Hps & ->).
    apply Forall2_cons_inv_l in Hps as (p0 & ps' & (_ & Hn0 & _) & Hps' & ->).
    apply Forall2_nil_inv_l in Hps' as ->.
    cbn in Hdraw. rewrite Hn2, Hn0 in Hdraw.
    by injection Hdraw as <- _.
Defined.



(** [draw(settings={'show.edges': False})] on the artist that has drawn
    the line network before: the five objects of the first drawing are
    cleared, three nodes are drawn, and the edges stay hidden. *)
Lemma draw_clears_merges_draws_witness :
  length (objects drawn.2) = 5%nat ∧
  ∃ r self' d',
    draw (Some hide_edges) drawn.1 drawn.2 = Ok (r, self', d') ∧
    length (objects d') = 3%nat ∧
    settings self' !! "show.edges" = Some (VBool false).
Proof.
  split; [reflexivity|].
  destruct (draw_clears_merges_draws (Some hide_edges) drawn.1 drawn.2)
    as [Hwords Hmerged].
  assert (Hrun :
    match specwords.draw_in_words hide_edges drawn.1 drawn.2 with
    | Ok (_, self', d') => bool_decide (length (objects d') = 3%nat)
    | Err _ => false
    end = true) by (vm_compute; reflexivity).
  change (specwords.given_settings (Some hide_edges)) with hide_edges
    in Hwords, Hmerged.
  rewrite <- Hwords in Hrun.
  destruct (draw (Some hide_edges) drawn.1 drawn.2) as [[[r self'] d']|e];
    [|discriminate Hrun].
  apply bool_decide_eq_true in Hrun.
  exists r, self', d'. split; [reflexivity|]. split; [exact Hrun|].
  rewrite (Hmerged r self' d' eq_refl). reflexivity.
Defined.


Lemma settings_merge_is_permanent_witness :
  ∃ r self1 d1,
    draw (Some hide_edges) line_artist empty_scene = Ok (r, self1, d1) ∧
    settings self1 !! "show.edges" = Some (VBool false) ∧
    settings self1 !! "show.nodes" = Some (VBool true).
Proof.
  assert (Hreturns : is_ok (draw (Some hide_edges) line_artist empty_scene)
                     = true) by (vm_compute; reflexivity).
  destruct (draw (Some hide_edges) line_artist empty_scene)
    as [[[r self1] d1]|e] eqn:Hdraw; [|discriminate Hreturns].
  destruct (settings_merge_is_permanent hide_edges line_artist empty_scene
              r self1 d1 Hdraw) as (Hin & Hout & _).
  exists r, self1, d1. split; [reflexivity|]. split.
  - apply Hin. reflexivity.
  - rewrite Hout; reflexivity.
Defined.

(** *** The frame artist *)

(** The frame at (1, 2, 3) with the world axes, drawn at scale 2 into an
    empty document: one point and three arrows, GUIDs in that order. *)
Example frame_draw_on_reference_host :
  (frameartist.draw (frameartist.__init__ world_frame None None 2) []).1.1
  = [0; 1; 2; 3]%nat ∧
  (frameartist.draw (frameartist.__init__ world_frame None None 2) []).2
  = [ AddedPoint {| frameartist.pt_pos := [1; 2; 3];
                    frameartist.pt_color := rgb 0 0 0 |};
      AddedLine {| frameartist.ln_start := [1; 2; 3];
                   frameartist.ln_end := [3; 2; 3];
                   frameartist.ln_color := rgb 255 0 0;
                   frameartist.ln_arrow := "end" |};
      AddedLine {| frameartist.ln_start := [1; 2; 3];
                   frameartist.ln_end := [1; 4; 3];
                   frameartist.ln_color := rgb 0 255 0;
                   frameartist.ln_arrow := "end" |};
      AddedLine {| frameartist.ln_start := [1; 2; 3];
                   frameartist.ln_end := [1; 2; 5];
                   frameartist.ln_color := rgb 0 0 255;
                   frameartist.ln_arrow := "end" |} ].
Proof. split; reflexivity. Qed.

(** *** The mesh artist *)

Lemma triangle_has_vertices :
  meshwords.has_vertices triangle (meshartist.vertices triangle).
Proof.
  repeat (apply List.Forall_cons; [by eexists|]). apply List.Forall_nil.
Defined.

Lemma triangle_has_faces :
  meshwords.has_faces triangle (meshartist.faces triangle).
Proof.
  repeat (apply List.Forall_cons; [by eexists|]). apply List.Forall_nil.
Defined.

Lemma triangle_has_edges :
  meshwords.has_edges triangle (meshartist.edges triangle).
Proof.
  repeat (apply List.Forall_cons; [by eexists|]). apply List.Forall_nil.
Defined.

(** A new mesh artist cannot draw, with a base class that defines no
    drawing method; one whose [show.vertices] was switched off can. *)
Lemma draw_looks_up_missing_methods_witness :
  meshartist.draw (meshartist.__init__ triangle)
  = Err (AttributeError "draw_nodes") ∧
  ∃ g, meshartist.draw hidden_vertices = Ok g ∧ length g = 6%nat.
Proof.
  destruct (draw_looks_up_missing_methods (base := plain_base) triangle
              hidden_vertices eq_refl) as (_ & _ & Hinit & Hlen).
  split; [exact Hinit|].
  assert (Hreturns : is_ok (meshartist.draw hidden_vertices) = true)
    by (vm_compute; reflexivity).
  destruct (meshartist.draw hidden_vertices) as [g|e] eqn:Hdraw;
    [|discriminate Hreturns].
  exists g. split; [reflexivity|]. exact (proj1 (Hlen g eq_refl)).
Defined.

(** [draw_vertices([])] on the triangle draws its three vertices, and
    [draw_nodes([])] on the line network tracks a handle for each of its
    three nodes. *)
Lemma empty_selection_draws_all_witness :
  (∃ points,
     meshartist.draw_vertices (Some []) ArgNone (meshartist.__init__ triangle)
     = Ok (meshartist.draw_points_ points) ∧
     length points = 3%nat) ∧
  (∃ objs self' d',
     draw_nodes (Some []) ArgNone line_artist empty_scene
     = Ok (objs, self', d') ∧
     object_node self' = dict (zip objs [0; 1; 2])).
Proof.
  destruct (empty_selection_draws_all (host := blender) (gh := gh))
    as (_ & _ & _ & _ & _ & Hnodes & _ & Hvertices & _).
  split.
  - destruct (Hvertices ArgNone (meshartist.__init__ triangle)
                (rgb 255 255 255) eq_refl triangle_has_vertices)
      as (points & Hdraw & Hpoints).
    exists points. split; [exact Hdraw|].
    symmetry. exact (Forall2_length _ _ _ Hpoints).
  - destruct (Hnodes ArgNone line_artist empty_scene (rgb 255 255 255)
                "Nodes" (set_nodecollection (Some "Nodes") line_artist)
                {| objects := []; meshes := []; curves := [];
                   collections := ["Network"; "Nodes"] |}
                eq_refl (proj1 line_network_ok) eq_refl)
      as (points & objs & self' & d' & Hdraw & _ & _ & Htracked).
    exists objs, self', d'. split; [exact Hdraw|exact Htracked].
Defined.

(** *** The errors *)

(** [draw_edgelabels(text='a')] raises [NotImplementedError], and
    [delete_objects([cube, cube])] raises [ReferenceError] at the second
    handle. *)
Lemma raised_errors_by_design_witness :
  api.outcome (GUID := nat) api.bad_label_call = Some NotImplementedError ∧
  api.outcome (XYZ := list Z) (Geom := Geom) (Pnt := Z * Z * Z)
    (Vec := Z * Z * Z) (GUID := nat) (api.delete_objects [cube; cube] startup)
  = Some ReferenceError.
Proof.
  destruct (raised_errors_by_design (XYZ := list Z) (Geom := Geom)
              (Pnt := Z * Z * Z) (Vec := Z * Z * Z) (GUID := nat))
    as (_ & Hnot_implemented & _ & _ & Hreference & _).
  split.
  - apply Hnot_implemented. left. exact I.
  - apply Hreference. cbn.
    refine (bool_decide_unpack _ _). vm_compute. exact I.
Defined.

(** C5, counterexample: errors outside the two that are listed.
    [FrameArtist.draw_collection] raises [NotImplementedError] whatever it
    is given - no label text is involved; deleting a handle twice raises
    [ReferenceError]; drawing a vertex the mesh does not have raises
    [KeyError] - no object name is involved. *)
Lemma unlisted_errors_are_raised :
  let frames := api.draw_collection (XYZ := list Z) [world_frame] None None
                  None false false None in
  let twice := api.delete_objects (XYZ := list Z) (Pnt := Z * Z * Z)
                 (Vec := Z * Z * Z) [cube; cube] startup in
  let foreign := api.draw_vertices (Pnt := Z * Z * Z) (Vec := Z * Z * Z)
                   (meshartist.__init__ triangle) (Some [7]) ArgNone in
  (api.outcome (Geom := Geom) (GUID := nat) frames = Some NotImplementedError ∧
   ¬ api.listed_error frames NotImplementedError) ∧
  (api.outcome (Geom := Geom) (GUID := nat) twice = Some ReferenceError ∧
   ¬ api.listed_error twice ReferenceError) ∧
  (api.outcome (Geom := Geom) (GUID := nat) foreign = Some (KeyError "7") ∧
   ¬ api.listed_error foreign (KeyError "7")) ∧
  ¬ api.errors_limited_to_listed (XYZ := list Z) (Geom := Geom)
      (Pnt := Z * Z * Z) (Vec := Z * Z * Z) (GUID := nat).
Proof.
  intros frames twice foreign.
  assert (Hframes : ¬ api.listed_error frames NotImplementedError).
  { by intros [[_ []]|(name & _ & [])]. }
  split; [split; [reflexivity|exact Hframes]|].
  split; [split; [reflexivity|]|split; [split; [reflexivity|]|]].
  - by intros [[? _]|(name & ? & _)].
  - by intros [[? _]|(name & _ & [])].
  - intros Hlimited. apply Hframes. by apply Hlimited.
Qed.

End claim_examples.
(** ** The further properties on the samples *)

Section more_examples.
Import refhost samples.

(** [delete_objects([cube, path])] and [delete_objects([path, cube])]
    leave the same file. *)
Lemma delete_objects_same_elements_witness :
  delete_objects [cube; path] startup = delete_objects [path; cube] startup ∧
  delete_objects [cube; cube; path] startup = Err ReferenceError.
Proof.
  destruct (delete_objects_same_elements [cube; path] [path; cube] startup)
    as (Hsame & Htwice & _).
  - apply perm_swap.
  - split; [exact Hsame|]. apply Htwice. left.
Defined.

Lemma delete_by_names_then_lookup_witness :
  unique_names startup ∧
  delete_objects_by_names ["Cube"; "Empty"] startup = Ok only_path ∧
  get_object_by_name "Cube" only_path = Err (KeyError "Cube") ∧
  unique_names only_path.
Proof.
  assert (Hunique : unique_names startup).
  { refine (bool_decide_unpack _ _). vm_compute. exact I. }
  assert (Hdelete : delete_objects_by_names ["Cube"; "Empty"] startup
                    = Ok only_path) by reflexivity.
  destruct (delete_by_names_then_lookup ["Cube"; "Empty"] startup only_path
              Hunique Hdelete) as (_ & Hlookup & _ & _ & Hunique').
  split; [exact Hunique|]. split; [exact Hdelete|].
  split; [|exact Hunique']. apply Hlookup. left.
Defined.

(** In the file with the linked duplicate, deleting the cube takes the
    duplicate with it. *)
Example delete_object_takes_the_duplicate :
  delete_object cube linked = Ok {| objects := [path; empty];
                                    meshes := [];
                                    curves := [2%N];
                                    collections := ["Collection"] |} ∧
  delete_objects [cube; cube_copy] linked = Err ReferenceError.
Proof. split; reflexivity. Qed.

Lemma draw_edges_descriptors_witness :
  ∃ objs self' d',
    networkartist.draw_edges None (ArgValue (rgb 9 9 9)) line_artist
      empty_scene = Ok (objs, self', d') ∧
    networkartist.object_edge self' = dict (zip objs [(0, 1); (1, 2)]).
Proof.
  destruct (draw_edges_descriptors None (ArgValue (rgb 9 9 9)) line_artist
              empty_scene (rgb 0 0 0) "Edges"
              (networkartist.set_edgecollection (Some "Edges") line_artist)
              {| objects := []; meshes := []; curves := [];
                 collections := ["Network"; "Edges"] |})
    as (lines & objs & self' & d' & _ & _ & Hdraw & Hdict & _).
  - reflexivity.
  - reflexivity.
  - exact (proj2 line_network_ok).
  - exists objs, self', d'. split; [exact Hdraw|exact Hdict].
Defined.

(** [draw(settings={'show.nodes': False, 'show.edges': False})] on the
    artist that has drawn: the five objects go and nothing is drawn. *)
Lemma draw_nothing_to_show_witness :
  ∃ r self' d',
    networkartist.draw (Some all_hidden) drawn.1 drawn.2 = Ok (r, self', d') ∧
    objects d' = [].
Proof.
  destruct (draw_nothing_to_show (Some all_hidden) drawn.1 drawn.2
              (VBool false) (VBool false)) as [Hdraw _]; try reflexivity.
  assert (Hrun :
    match networkartist.clear drawn.1 drawn.2 with
    | Ok (_, d0) => bool_decide (objects d0 = [])
    | Err _ => false
    end = true) by (vm_compute; reflexivity).
  destruct (networkartist.clear drawn.1 drawn.2) as [[self0 d0]|e];
    [|discriminate Hrun].
  apply bool_decide_eq_true in Hrun.
  eexists _, _, d0. split; [exact Hdraw|exact Hrun].
Defined.

Lemma draw_vertices_descriptors_witness :
  ∃ points,
    meshartist.draw_vertices (Some [2]) ArgNone (meshartist.__init__ triangle)
    = Ok (meshartist.draw_points_ points) ∧
    length points = 1%nat.
Proof.
  destruct (draw_vertices_descriptors (Some [2]) ArgNone
              (meshartist.__init__ triangle) (rgb 255 255 255) eq_refl)
    as (points & Hpoints & Hdraw).
  - apply List.Forall_cons; [by eexists|apply List.Forall_nil].
  - exists points. split; [exact Hdraw|].
    symmetry. exact (Forall2_length _ _ _ Hpoints).
Defined.

Lemma mesh_draw_edges_descriptors_witness :
  ∃ lines,
    meshartist.draw_edges None ArgNone (meshartist.__init__ triangle)
    = Ok (meshartist.draw_lines_ lines) ∧
    length lines = 3%nat.
Proof.
  destruct (mesh_draw_edges_descriptors None ArgNone
              (meshartist.__init__ triangle) (rgb 0 0 0) eq_refl
              triangle_has_edges)
    as (lines & Hlines & Hdraw).
  exists lines. split; [exact Hdraw|].
  symmetry. exact (Forall2_length _ _ _ Hlines).
Defined.

Lemma draw_faces_descriptors_and_join_witness :
  ∃ joined,
    meshartist.draw_faces None ArgNone true (meshartist.__init__ triangle)
    = Ok [joined].
Proof.
  destruct (draw_faces_descriptors_and_join None ArgNone
              (meshartist.__init__ triangle) (rgb 210 210 210) eq_refl
              triangle_has_faces)
    as (polygons & _ & _ & Hjoined & _).
  eexists. exact Hjoined.
Defined.

Lemma mesh_draw_entries_witness :
  ∃ g f fl e el,
    meshartist.draw hidden_vertices = Ok g ∧ g = [None; None; f; fl; e; el].
Proof.
  assert (Hreturns : is_ok (meshartist.draw hidden_vertices) = true)
    by (vm_compute; reflexivity).
  destruct (meshartist.draw hidden_vertices) as [g|err] eqn:Hdraw;
    [|discriminate Hreturns].
  destruct (mesh_draw_entries (base := plain_base) hidden_vertices g eq_refl
              Hdraw) as (f & fl & e & el & _ & _ & Hg & _).
  exists g, f, fl, e, el. split; [reflexivity|exact Hg].
Defined.

End more_examples.
